(** * VidioX: lifecycle, reconciliation and storage helpers

    A shallow embedding of the API server ([backend/api/server.js]) and of
    the storage utilities module (the module that exports [uploadFile],
    [deleteFile] and [getContentType]), together with the properties the
    specification states about them.

    Conventions.
    - JavaScript strings are modelled as [string] (sequences of 8-bit
      characters); [toLowerCase] folds the ASCII letters.
    - JSON numbers that the code only copies are modelled as [Z]; dates are
      [Z] milliseconds.
    - [undefined]/missing properties are [None].
    - A JavaScript value is "truthy" as in the language: a missing value and
      the empty string are falsy. *)

From Stdlib Require Import ZArith String Ascii List Lia Bool.
From stdpp Require Import base option list gmap strings sorting pretty.
Import ListNotations.

#[local] Open Scope string_scope.
#[local] Open Scope list_scope.
#[local] Open Scope Z_scope.

(** ** JavaScript helpers *)

Module Js.

(** Truthiness of an optional string ([undefined] and [''] are falsy). *)
Definition truthy (s : option string) : bool :=
  match s with
  | None => false
  | Some EmptyString => false
  | Some (String _ _) => true
  end.

Definition lower (c : ascii) : ascii :=
  let n := nat_of_ascii c in
  if ((65 <=? n) && (n <=? 90))%nat then ascii_of_nat (n + 32) else c.

(** [String.prototype.toLowerCase] on 8-bit strings. *)
Fixpoint toLowerCase (s : string) : string :=
  match s with
  | EmptyString => EmptyString
  | String c r => String (lower c) (toLowerCase r)
  end.

(** The white space and line terminators of JavaScript among the 8-bit
    characters: U+0009 to U+000D, the space and the no-break space
    U+00A0. *)
Definition is_space (c : ascii) : bool :=
  let n := nat_of_ascii c in
  ((n =? 32) || ((9 <=? n) && (n <=? 13)) || (n =? 160))%nat.

Fixpoint trimStart (s : string) : string :=
  match s with
  | EmptyString => EmptyString
  | String c r => if is_space c then trimStart r else s
  end.

(** [String.prototype.trim] (the 8-bit white space characters). *)
Definition trim (s : string) : string :=
  String.rev (trimStart (String.rev (trimStart s))).

(** [String.prototype.slice(a, b)] for [0 <= a]. *)
Definition slice (s : string) (a b : Z) : string :=
  String.substring (Z.to_nat a) (Z.to_nat (b - a)) s.

End Js.

(** ** Node's [path.extname] (POSIX flavour)

    [getContentType] relies on [path.extname]; the scan below follows Node's
    loop statement by statement: it walks the path from its last character
    to its first, index [i] being the number of characters to the left. *)

Module Path.

Record scan := mkScan {
  startDot : Z;
  startPart : Z;
  end_ : Z;
  matchedSlash : bool;
  preDotState : Z
}.

Definition scan0 : scan := mkScan (-1) 0 (-1) true 0.

Definition slash : ascii := "/"%char.
Definition dot : ascii := "."%char.

(** One iteration on a character that is not a separator. *)
Definition visit (i : Z) (code : ascii) (s : scan) : scan :=
  let s1 :=
    if end_ s =? -1
    then mkScan (startDot s) (startPart s) (i + 1) false (preDotState s)
    else s in
  if Ascii.eqb code dot then
    if startDot s1 =? -1
    then mkScan i (startPart s1) (end_ s1) (matchedSlash s1) (preDotState s1)
    else if negb (preDotState s1 =? 1)
         then mkScan (startDot s1) (startPart s1) (end_ s1) (matchedSlash s1) 1
         else s1
  else if negb (startDot s1 =? -1)
       then mkScan (startDot s1) (startPart s1) (end_ s1) (matchedSlash s1) (-1)
       else s1.

(** The [for (i = path.length - 1; i >= 0; --i)] loop, over the reversed
    characters of the path. *)
Fixpoint extname_loop (rcs : list ascii) (s : scan) : scan :=
  match rcs with
  | [] => s
  | code :: rest =>
      let i := Z.of_nat (length rest) in
      if Ascii.eqb code slash then
        if negb (matchedSlash s)
        then mkScan (startDot s) (i + 1) (end_ s) (matchedSlash s) (preDotState s)
        else extname_loop rest s
      else extname_loop rest (visit i code s)
  end.

Definition extname (path : string) : string :=
  let s := extname_loop (rev (list_ascii_of_string path)) scan0 in
  if (startDot s =? -1) || (end_ s =? -1) || (preDotState s =? 0)
     || ((preDotState s =? 1) && (startDot s =? end_ s - 1)
         && (startDot s =? startPart s + 1))
  then ""
  else Js.slice path (startDot s) (end_ s).

End Path.

(** ** Effects: state, exceptions and [try]/[catch]

    A computation runs on a state and either returns or throws; the state
    reached when an exception is thrown is kept, as assignments made inside a
    JavaScript [try] block are. *)

Module Eff.

Inductive result (A : Type) : Type :=
| Ok (a : A)
| Thrown (e : string).
Arguments Ok {A} a.
Arguments Thrown {A} e.

Definition M (S A : Type) : Type := S -> result A * S.

Definition ret {S A} (a : A) : M S A := fun s => (Ok a, s).

Definition bind {S A B} (m : M S A) (k : A -> M S B) : M S B :=
  fun s =>
    match m s with
    | (Ok a, s') => k a s'
    | (Thrown e, s') => (Thrown e, s')
    end.

Definition throw {S A} (e : string) : M S A := fun s => (Thrown e, s).

Definition tryCatch {S A} (body : M S A) (handler : string -> M S A) : M S A :=
  fun s =>
    match body s with
    | (Ok a, s') => (Ok a, s')
    | (Thrown e, s') => handler e s'
    end.

Definition gets {S A} (f : S -> A) : M S A := fun s => (Ok (f s), s).

Definition modify {S} (f : S -> S) : M S unit := fun s => (Ok tt, f s).

Definition when {S} (b : bool) (m : M S unit) : M S unit :=
  if b then m else ret tt.

(** [for (const x of xs) body(x)] *)
Fixpoint forOf {S A} (xs : list A) (body : A -> M S unit) : M S unit :=
  match xs with
  | [] => ret tt
  | x :: rest => bind (body x) (fun _ => forOf rest body)
  end.

(** Run a computation that has a local variable of type [L] next to the
    state [S]; the variable goes out of scope at the end. *)
Definition scoped {S L A} (init : L) (m : M (L * S) A) : M S A :=
  fun s => let '(r, (_, s')) := m (init, s) in (r, s').

(** Use an [S]-computation where a local variable is in scope. *)
Definition outer {S L A} (m : M S A) : M (L * S) A :=
  fun ls => let '(r, s') := m (snd ls) in (r, (fst ls, s')).

Definition local {S L A} (f : L -> A) : M (L * S) A :=
  fun ls => (Ok (f (fst ls)), ls).

Definition assign {S L} (f : L -> L) : M (L * S) unit :=
  fun ls => (Ok tt, (f (fst ls), snd ls)).

End Eff.

Declare Scope eff_scope.
Delimit Scope eff_scope with eff.
Notation "x <- m ;; k" := (Eff.bind m (fun x => k))
  (at level 100, m at next level, right associativity) : eff_scope.
Notation "m ;; k" := (Eff.bind m (fun _ => k))
  (at level 100, right associativity) : eff_scope.

(** ** Storage utilities *)

Module Storage.

(** The [contentTypes] object literal of [getContentType]. *)
Definition contentTypes : gmap string string :=
  list_to_map
    [ (".mp4", "video/mp4");
      (".avi", "video/x-msvideo");
      (".mov", "video/quicktime");
      (".wmv", "video/x-ms-wmv");
      (".flv", "video/x-flv");
      (".webm", "video/webm");
      (".mkv", "video/x-matroska");
      (".jpg", "image/jpeg");
      (".jpeg", "image/jpeg");
      (".png", "image/png");
      (".gif", "image/gif") ].

(** [contentTypes[ext] || 'application/octet-stream'] *)
Definition getContentType (filePath : string) : string :=
  let ext := Js.toLowerCase (Path.extname filePath) in
  let found := contentTypes !! ext in
  if Js.truthy found then default "" found else "application/octet-stream".

(** The part of [process.env] the module reads. *)
Record ProcessEnv := mkEnv {
  AWS_ACCESS_KEY_ID : option string;
  S3_BUCKET : option string;
  CLOUDINARY_CLOUD_NAME : option string
}.

(** Calls into the two SDKs, and console output. *)
Inductive effect :=
| S3DeleteObject (bucket : option string) (key : string)
| CloudinaryDestroy (publicId : string)
| ConsoleError (label message : string).

(** What the providers answer: [s3.deleteObject(params).promise()] resolves
    ([None]) or rejects with a message; [cloudinary.uploader.destroy]
    resolves with [result.result] ([inl]) or rejects ([inr]). *)
Record Sdk := mkSdk {
  s3_deleteObject : option string -> string -> option string;
  cloudinary_destroy : string -> string + string
}.

(** The result objects built by the module; a key that the object literal
    does not have is [None]. *)
#[warnings="-register-all"] Inductive outcome := mkOutcome {
  success : bool;
  error : option string;
  result : option string;
  results : option (list outcome)
}.

(** [options] of [deleteFile]: only [options.bucket] is read here. *)
Record Options := mkOptions { bucket : option string }.

Section WithEnvironment.

Variable env : ProcessEnv.
Variable sdk : Sdk.

#[local] Abbreviation M := (Eff.M (list effect)).

Definition emit (e : effect) : M unit := Eff.modify (fun t => t ++ [e]).

#[local] Open Scope eff_scope.

(** [await s3.deleteObject(params).promise()] *)
Definition s3DeleteObject (b : option string) (key : string) : M unit :=
  emit (S3DeleteObject b key) ;;
  match s3_deleteObject sdk b key with
  | None => Eff.ret tt
  | Some message => Eff.throw message
  end.

(** [await cloudinary.uploader.destroy(publicId, defaultOptions)] *)
Definition cloudinaryDestroy (publicId : string) : M string :=
  emit (CloudinaryDestroy publicId) ;;
  match cloudinary_destroy sdk publicId with
  | inl r => Eff.ret r
  | inr message => Eff.throw message
  end.

(** The default parameter [bucket = process.env.S3_BUCKET]. *)
Definition bucketOrDefault (b : option string) : option string :=
  match b with
  | Some x => Some x
  | None => S3_BUCKET env
  end.

Definition deleteFromS3 (s3Key : string) (b : option string) : M outcome :=
  Eff.tryCatch
    (s3DeleteObject (bucketOrDefault b) s3Key ;;
     Eff.ret (mkOutcome true None None None))
    (fun message =>
       emit (ConsoleError "S3 delete error:" message) ;;
       Eff.ret (mkOutcome false (Some message) None None)).

Definition deleteFromCloudinary (publicId : string) : M outcome :=
  Eff.tryCatch
    (r <- cloudinaryDestroy publicId ;;
     Eff.ret (mkOutcome (String.eqb r "ok") None (Some r) None))
    (fun message =>
       emit (ConsoleError "Cloudinary delete error:" message) ;;
       Eff.ret (mkOutcome false (Some message) None None)).

Definition s3Configured : bool :=
  Js.truthy (AWS_ACCESS_KEY_ID env) && Js.truthy (S3_BUCKET env).

Definition cloudinaryConfigured : bool :=
  Js.truthy (CLOUDINARY_CLOUD_NAME env).

(** [deleteFile]: [results] is the local array the two [push]es fill. *)
Definition deleteFile (key : string) (options : Options) : M outcome :=
  let results : list outcome := [] in
  results <-
    (if s3Configured
     then r <- deleteFromS3 key (bucket options) ;; Eff.ret (results ++ [r])
     else Eff.ret results) ;;
  results <-
    (if cloudinaryConfigured
     then r <- deleteFromCloudinary key ;; Eff.ret (results ++ [r])
     else Eff.ret results) ;;
  Eff.ret (mkOutcome (existsb success results) None None (Some results)).

(** [uploadFile], with the two provider uploads left abstract. *)
Variable uploadToS3 : string -> string -> option string -> M outcome.
Variable uploadToCloudinary : string -> string -> Options -> M outcome.

Definition uploadFile (filePath key : string) (options : Options) : M outcome :=
  if s3Configured then uploadToS3 filePath key (bucket options)
  else if cloudinaryConfigured then uploadToCloudinary filePath key options
  else Eff.ret (mkOutcome false (Some "No storage provider configured") None None).

End WithEnvironment.

(** A result object reports a failure with its reason when [success] is
    false and it carries an [error] message, as the [catch] blocks of the
    provider functions and the last branch of [uploadFile] build it. *)
Definition reportsFailureReason (o : outcome) : Prop :=
  success o = false /\ is_Some (error o).

(** The providers currently configured, in the order [deleteFile] visits
    them, with the call each one receives. *)
Definition configuredDeletes (env : ProcessEnv) (key : string) (options : Options)
  : list effect :=
  (if s3Configured env
   then [S3DeleteObject (bucketOrDefault env (bucket options)) key] else [])
  ++ (if cloudinaryConfigured env then [CloudinaryDestroy key] else []).

Definition isSdkCall (e : effect) : bool :=
  match e with
  | ConsoleError _ _ => false
  | _ => true
  end.

End Storage.

(** ** The video record ([videoSchema]) *)

Inductive Status := uploading | processing | ready | error.

#[global] Instance Status_eq_dec : EqDecision Status.
Proof. solve_decision. Defined.

Module Format.
Record t := mk {
  quality : option string;
  url : option string;
  size : option Z;
  bitrate : option Z
}.
#[global] Instance eq_dec : EqDecision t.
Proof. solve_decision. Defined.
End Format.

Module VideoInfo.
Record t := mk {
  width : option Z;
  height : option Z;
  codec : option string;
  fps : option Z
}.
#[global] Instance eq_dec : EqDecision t.
Proof. solve_decision. Defined.
End VideoInfo.

Module Video.

Record t := mk {
  id : string;
  title : string;
  description : string;
  originalFilename : option string;
  status : Status;
  jobId : option string;
  thumbnail : option string;
  duration : option Z;
  formats : list Format.t;
  videoInfo : option VideoInfo.t;
  createdAt : Z;
  updatedAt : Z
}.

#[global] Instance eq_dec : EqDecision t.
Proof. solve_decision. Defined.

(** Assignments [video.<path> = x]. *)
Definition set_title (x : string) (v : t) : t :=
  mk (id v) x (description v) (originalFilename v) (status v) (jobId v)
     (thumbnail v) (duration v) (formats v) (videoInfo v) (createdAt v) (updatedAt v).
Definition set_description (x : string) (v : t) : t :=
  mk (id v) (title v) x (originalFilename v) (status v) (jobId v)
     (thumbnail v) (duration v) (formats v) (videoInfo v) (createdAt v) (updatedAt v).
Definition set_status (x : Status) (v : t) : t :=
  mk (id v) (title v) (description v) (originalFilename v) x (jobId v)
     (thumbnail v) (duration v) (formats v) (videoInfo v) (createdAt v) (updatedAt v).
Definition set_jobId (x : option string) (v : t) : t :=
  mk (id v) (title v) (description v) (originalFilename v) (status v) x
     (thumbnail v) (duration v) (formats v) (videoInfo v) (createdAt v) (updatedAt v).
Definition set_thumbnail (x : option string) (v : t) : t :=
  mk (id v) (title v) (description v) (originalFilename v) (status v) (jobId v)
     x (duration v) (formats v) (videoInfo v) (createdAt v) (updatedAt v).
Definition set_duration (x : option Z) (v : t) : t :=
  mk (id v) (title v) (description v) (originalFilename v) (status v) (jobId v)
     (thumbnail v) x (formats v) (videoInfo v) (createdAt v) (updatedAt v).
Definition set_formats (x : list Format.t) (v : t) : t :=
  mk (id v) (title v) (description v) (originalFilename v) (status v) (jobId v)
     (thumbnail v) (duration v) x (videoInfo v) (createdAt v) (updatedAt v).
Definition set_videoInfo (x : option VideoInfo.t) (v : t) : t :=
  mk (id v) (title v) (description v) (originalFilename v) (status v) (jobId v)
     (thumbnail v) (duration v) (formats v) x (createdAt v) (updatedAt v).
Definition set_updatedAt (x : Z) (v : t) : t :=
  mk (id v) (title v) (description v) (originalFilename v) (status v) (jobId v)
     (thumbnail v) (duration v) (formats v) (videoInfo v) (createdAt v) x.

(** [new Video({ id, title, description, originalFilename, status })] at
    time [now]: the schema defaults fill the other paths. *)
Definition create (now : Z) (id' title' description' : string)
    (originalFilename' : option string) (status' : Status) : t :=
  mk id' title' description' originalFilename' status' None None None [] None now now.

(** A Mongoose document: the current values, the values it had when it
    was loaded or last saved ([None] for a document that was never saved),
    and its version key [__v]. *)
Record document := mkDoc {
  cur : t;
  base : option t;
  version : Z
}.

(** What [save()] stores for a document that exists: the paths whose value
    differs from the loaded one are written over the stored record, the
    others are left as stored. *)
Definition pick {A} `{EqDecision A} (f : t -> A) (b c p : t) : A :=
  if decide (f c = f b) then f p else f c.

Definition merge (b c p : t) : t :=
  mk (id p) (pick title b c p) (pick description b c p)
     (pick originalFilename b c p) (pick status b c p) (pick jobId b c p)
     (pick thumbnail b c p) (pick duration b c p) (pick formats b c p)
     (pick videoInfo b c p) (pick createdAt b c p) (pick updatedAt b c p).

End Video.

(** ** The Encoding Engine's answers *)

Module EncodedFile.
(** An element of [encoded_files]; [extra] holds the properties the server
    does not read. *)
Record t := mk {
  quality : option string;
  url : option string;
  size : option Z;
  bitrate : option Z;
  extra : list (string * string)
}.
End EncodedFile.

Module Engine.

(** [jobData.data] *)
Record JobData := mkJobData {
  encoded_files : option (list EncodedFile.t);
  thumbnail_url : option string;
  duration : option Z;
  video_info : option VideoInfo.t
}.

(** [jobResponse.data]; [data] is [None] when the property is missing or
    [null]. *)
Record Job := mkJob {
  status : string;
  data : option JobData
}.

(** [processingResponse.data] *)
Record Submitted := mkSubmitted { job_id : option string }.

(** An axios call that settles: after [latency] milliseconds it is
    rejected with a message ([inl]) or fulfilled ([inr]). The server gives
    axios no timeout, so a call may also never settle; the operations of
    [Server] built on this type are the operations run to their end, and
    [Server.checkProcessingJobsPending] is the sweep in front of calls that
    never settle. *)
Record reply (A : Type) := mkReply {
  latency : Z;
  settled : string + A
}.
Arguments mkReply {A} latency settled.
Arguments latency {A} r.
Arguments settled {A} r.

(** The processor service as the server sees it: [POST /process] for an
    uploaded file and [GET /job/<jobId>]. *)
Record t := mk {
  process : string -> reply Submitted;
  job : string -> reply Job
}.

End Engine.

(** ** The API server *)

Module Server.

(** What the server does to the outside: requests to the processor, writes
    to the [videos] collection (with the stored record before and after),
    removed files and console output. *)
Inductive event :=
| AxiosPost (path originalname : string)
| AxiosGet (jobId : string)
| DbWrite (before : option Video.t) (after : Video.t)
| Unlink (path : string)
| ConsoleError (label detail : string)
| ConsoleLog (message : string).

(** The collection (one record per [id], which carries a unique index), the
    files of the upload directory, the wall clock, the events so far, and
    the version key [__v] of each stored document. *)
Record world := mkWorld {
  db : gmap string Video.t;
  disk : gset string;
  clock : Z;
  out : list event;
  revs : gmap string Z
}.

Definition set_db (x : gmap string Video.t) (w : world) : world :=
  mkWorld x (disk w) (clock w) (out w) (revs w).
Definition set_disk (x : gset string) (w : world) : world :=
  mkWorld (db w) x (clock w) (out w) (revs w).
Definition set_clock (x : Z) (w : world) : world :=
  mkWorld (db w) (disk w) x (out w) (revs w).
Definition set_out (x : list event) (w : world) : world :=
  mkWorld (db w) (disk w) (clock w) x (revs w).
Definition set_revs (x : gmap string Z) (w : world) : world :=
  mkWorld (db w) (disk w) (clock w) (out w) x.

(** The [__v] of the document stored under [id]. *)
Definition versionOf (w : world) (id : string) : Z := default 0 (revs w !! id).

(** [req.file] and [req.body] of an upload, and the body of an update. *)
Record File := mkFile { path : string; originalname : string }.
Record Body := mkBody { title : option string; description : option string }.
Record UploadRequest := mkUpload { file : option File; body : Body }.

(** The JSON answers of the routes. *)
Inductive response :=
| ResError (code : Z) (message : string)
| ResUploaded (id title description : string) (status : Status)
    (jobId : option string) (message : string)
| ResStatus (id : string) (status : Status) (jobId : option string) (updatedAt : Z)
| ResVideo (video : Video.t).

#[local] Abbreviation W := (Eff.M world).
#[local] Abbreviation D := (Eff.M (Video.document * world)).

#[local] Open Scope eff_scope.

Definition emit (e : event) : W unit :=
  Eff.modify (fun w => set_out (out w ++ [e]) w).

(** [new Date()] / [Date.now] *)
Definition now : W Z := Eff.gets clock.

(** [Video.findOne({ id })] *)
Definition findOne (id : string) : W (option Video.document) :=
  Eff.gets (fun w => (fun v => Video.mkDoc v (Some v) (versionOf w id)) <$> db w !! id).

(** [Video.find({ status: 'processing' })] *)
Definition findProcessing : W (list Video.document) :=
  Eff.gets (fun w =>
    (fun kv : string * Video.t => Video.mkDoc kv.2 (Some kv.2) (versionOf w kv.1))
      <$> filter (fun kv : string * Video.t => Video.status kv.2 = processing)
                 (map_to_list (db w))).

(** [fs.existsSync] and [fs.unlinkSync] *)
Definition existsSync (p : string) : W bool :=
  Eff.gets (fun w => bool_decide (p ∈ disk w)).

Definition unlinkSync (p : string) : W unit :=
  present <- existsSync p ;;
  if present
  then Eff.modify (fun w => set_disk (disk w ∖ {[p]}) w) ;; emit (Unlink p)
  else Eff.throw "ENOENT: no such file or directory".

(** [video.<path> = x] on the document in scope. *)
Definition setv (f : Video.t -> Video.t) : D unit :=
  Eff.assign (fun d => Video.mkDoc (f (Video.cur d)) (Video.base d) (Video.version d)).

(** The validators of the schema that can fail: [id] and [title] are
    [required], which an empty string does not satisfy. Every path of a new
    document is validated; a loaded document holds stored values, which
    passed the validators when they were saved, so that only a path that
    was assigned since can fail. *)
Definition assigned {A} `{EqDecision A} (f : Video.t -> A) (d : Video.document) : bool :=
  match Video.base d with
  | None => true
  | Some b => bool_decide (f (Video.cur d) <> f b)
  end.

Definition invalidPaths (d : Video.document) : list string :=
  (if assigned Video.id d && String.eqb (Video.id (Video.cur d)) "" then ["id"] else [])
  ++ (if assigned Video.title d && String.eqb (Video.title (Video.cur d)) ""
      then ["title"] else []).

Definition validationMessage (paths : list string) : string :=
  "Video validation failed: "
  +:+ String.concat ", " (map (fun p => p +:+ ": Path `" +:+ p +:+ "` is required.") paths).

(** The update of a loaded document carries its version when the array
    [formats] was replaced ([$set] of an array): it then applies only to a
    stored document of the same [__v], and increments it. *)
Definition versioned (d : Video.document) : bool :=
  match Video.base d with
  | Some b => bool_decide (Video.formats (Video.cur d) <> Video.formats b)
  | None => false
  end.

(** [await video.save()]: the document is validated; a new document is
    inserted with [__v] 0 (the unique index on [id] rejects a duplicate); a
    loaded one has its modified paths written over the stored record, unless
    nothing is modified (no update is sent), the record is gone, or the
    update carries a version that the stored document no longer has. *)
Definition save : D unit :=
  d <- Eff.local (fun d => d) ;;
  let c := Video.cur d in
  match invalidPaths d with
  | _ :: _ => Eff.throw (validationMessage (invalidPaths d))
  | [] =>
      stored <- Eff.outer (Eff.gets (fun w => db w !! Video.id c)) ;;
      v <- Eff.outer (Eff.gets (fun w => versionOf w (Video.id c))) ;;
      match Video.base d, stored with
      | None, Some _ => Eff.throw "E11000 duplicate key error"
      | None, None =>
          Eff.outer (Eff.modify (fun w =>
            set_revs (<[Video.id c := 0]> (revs w))
              (set_db (<[Video.id c := c]> (db w)) w))) ;;
          Eff.outer (emit (DbWrite None c)) ;;
          Eff.assign (fun _ => Video.mkDoc c (Some c) 0)
      | Some b, None =>
          Eff.throw (if versioned d
                     then "VersionError: No matching document found"
                     else "DocumentNotFoundError")
      | Some b, Some p =>
          if bool_decide (c = b) then Eff.ret tt
          else if versioned d && negb (v =? Video.version d)
          then Eff.throw "VersionError: No matching document found"
          else
            let u := Video.merge b c p in
            Eff.outer (Eff.modify (fun w =>
              set_revs (if versioned d then <[Video.id u := v + 1]> (revs w) else revs w)
                (set_db (<[Video.id u := u]> (db w)) w))) ;;
            Eff.outer (emit (DbWrite (Some p) u)) ;;
            Eff.assign (fun _ =>
              Video.mkDoc c (Some c)
                (if versioned d then Video.version d + 1 else Video.version d))
      end
  end.

(** [file => ({ quality, url, size, bitrate })] *)
Definition toFormat (f : EncodedFile.t) : Format.t :=
  Format.mk (EncodedFile.quality f) (EncodedFile.url f)
            (EncodedFile.size f) (EncodedFile.bitrate f).

Section WithProcessor.

Variable engine : Engine.t.

(** A request to the processor takes its time and then settles. *)
Definition settle {A} (r : Engine.reply A) : W A :=
  Eff.modify (fun w => set_clock (clock w + Engine.latency r) w) ;;
  match Engine.settled r with
  | inl message => Eff.throw message
  | inr a => Eff.ret a
  end.

(** [axios.post(`${VIDEO_PROCESSOR_URL}/process`, formData, ...)] *)
Definition axiosPost (f : File) : W Engine.Submitted :=
  emit (AxiosPost (path f) (originalname f)) ;;
  settle (Engine.process engine (path f)).

(** [axios.get(`${VIDEO_PROCESSOR_URL}/job/${video.jobId}`)] *)
Definition axiosGet (jobId : string) : W Engine.Job :=
  emit (AxiosGet jobId) ;;
  settle (Engine.job engine jobId).

(** The update of a record from the processor's answer, written twice in
    the server: in the status route (lines 249-269) and in
    [checkProcessingJobs] (lines 345-368), where each branch ends with a
    [console.log]; [announce] tells the two copies apart. *)
Definition reconcile (announce : bool) (jobData : Engine.Job) : D unit :=
  match String.eqb (Engine.status jobData) "completed", Engine.data jobData with
  | true, Some d =>
      setv (Video.set_status ready) ;;
      setv (Video.set_thumbnail (Engine.thumbnail_url d)) ;;
      setv (Video.set_duration (Engine.duration d)) ;;
      setv (Video.set_videoInfo (Engine.video_info d)) ;;
      formats <-
        match Engine.encoded_files d with
        | Some files => Eff.ret (map toFormat files)
        | None => Eff.throw "TypeError: Cannot read properties of undefined (reading 'map')"
        end ;;
      setv (Video.set_formats formats) ;;
      t <- Eff.outer now ;;
      setv (Video.set_updatedAt t) ;;
      save ;;
      v <- Eff.local Video.cur ;;
      Eff.when announce
        (Eff.outer (emit (ConsoleLog ("Video " +:+ Video.id v +:+ " processing completed"))))
  | _, _ =>
      if String.eqb (Engine.status jobData) "error" then
        setv (Video.set_status error) ;;
        t <- Eff.outer now ;;
        setv (Video.set_updatedAt t) ;;
        save ;;
        v <- Eff.local Video.cur ;;
        Eff.when announce
          (Eff.outer (emit (ConsoleLog ("Video " +:+ Video.id v +:+ " processing failed"))))
      else Eff.ret tt
  end.

(** *** [POST /api/videos/upload] *)

(** Lines 170-172. [FormData] is not imported, so it is the global of the
    runtime (Node 18 and later), whose [append] takes a string or a [Blob]:
    given the stream of [fs.createReadStream] and a file name it throws a
    [TypeError]. (Where the global is missing, [new FormData()] throws a
    [ReferenceError] on the line before.) The stream of line 171 is never
    read; what becomes of it once the handler has unlinked the file is not
    part of the model. *)
Definition appendError : string :=
  "Failed to execute 'append' on 'FormData': parameter 2 is not of type 'Blob'".

Definition formDataAppend (f : File) : W unit := Eff.throw appendError.

(** Lines 169-217: the form is built, the file goes to the processor and
    the record follows. *)
Definition sendToProcessor (f : File) : D response :=
  Eff.outer (formDataAppend f) ;;
  Eff.tryCatch
    (processingResponse <- Eff.outer (axiosPost f) ;;
     setv (Video.set_jobId (Engine.job_id processingResponse)) ;;
     setv (Video.set_status processing) ;;
     save ;;
     Eff.outer (unlinkSync (path f)) ;;
     v <- Eff.local Video.cur ;;
     Eff.ret (ResUploaded (Video.id v) (Video.title v) (Video.description v)
                (Video.status v) (Video.jobId v)
                "Video uploaded successfully and is being processed"))
    (fun processingError =>
       Eff.outer (emit (ConsoleError "Error sending video to processor:" processingError)) ;;
       setv (Video.set_status error) ;;
       save ;;
       present <- Eff.outer (existsSync (path f)) ;;
       Eff.when present (Eff.outer (unlinkSync (path f))) ;;
       Eff.ret (ResError 500 "Failed to start video processing")).

(** The route handler; [videoId] is what [uuidv4()] returns. *)
Definition uploadHandler (videoId : string) (req : UploadRequest) : W response :=
  Eff.tryCatch
    (match file req with
     | None => Eff.ret (ResError 400 "No video file provided")
     | Some f =>
         let title' := default "" (title (body req)) in
         if negb (Js.truthy (title (body req)))
            || (String.length (Js.trim title') =? 0)%nat
         then Eff.ret (ResError 400 "Title is required")
         else
           t <- now ;;
           Eff.scoped
             (Video.mkDoc
                (Video.create t videoId (Js.trim title')
                   (default "" (Js.trim <$> description (body req)))
                   (Some (originalname f)) uploading)
                None 0)
             (save ;; sendToProcessor f)
     end)
    (fun error =>
       emit (ConsoleError "Error uploading video:" error) ;;
       match file req with
       | Some f =>
           present <- existsSync (path f) ;;
           Eff.when present (unlinkSync (path f))
       | None => Eff.ret tt
       end ;;
       Eff.ret (ResError 500 "Failed to upload video")).

(** [upload.single('video')]: multer has stored the file under [req.file.path]
    when the handler runs. *)
Definition multerSingle (req : UploadRequest) : W unit :=
  match file req with
  | Some f => Eff.modify (fun w => set_disk ({[path f]} ∪ disk w) w)
  | None => Eff.ret tt
  end.

Definition postVideosUpload (videoId : string) (req : UploadRequest) : W response :=
  multerSingle req ;; uploadHandler videoId req.

(** *** [GET /api/videos/:id/status] *)

(** Lines 239-281, with [video] in scope. *)
Definition statusOf : D response :=
  v <- Eff.local Video.cur ;;
  (if bool_decide (Video.status v = processing) && Js.truthy (Video.jobId v)
   then
     Eff.tryCatch
       (jobResponse <- Eff.outer (axiosGet (default "" (Video.jobId v))) ;;
        reconcile false jobResponse)
       (fun jobError =>
          Eff.outer (emit (ConsoleError "Error checking job status:" jobError)))
   else Eff.ret tt) ;;
  v <- Eff.local Video.cur ;;
  Eff.ret (ResStatus (Video.id v) (Video.status v) (Video.jobId v) (Video.updatedAt v)).

Definition getVideoStatus (id : string) : W response :=
  Eff.tryCatch
    (video <- findOne id ;;
     match video with
     | None => Eff.ret (ResError 404 "Video not found")
     | Some d => Eff.scoped d statusOf
     end)
    (fun error =>
       emit (ConsoleError "Error checking video status:" error) ;;
       Eff.ret (ResError 500 "Failed to check video status")).

(** *** [PUT /api/videos/:id] *)

Definition updateOf (b : Body) : D response :=
  (if Js.truthy (title b)
   then setv (Video.set_title (Js.trim (default "" (title b))))
   else Eff.ret tt) ;;
  match description b with
  | Some d => setv (Video.set_description (Js.trim d))
  | None => Eff.ret tt
  end ;;
  t <- Eff.outer now ;;
  setv (Video.set_updatedAt t) ;;
  save ;;
  v <- Eff.local Video.cur ;;
  Eff.ret (ResVideo v).

Definition putVideo (id : string) (b : Body) : W response :=
  Eff.tryCatch
    (video <- findOne id ;;
     match video with
     | None => Eff.ret (ResError 404 "Video not found")
     | Some d => Eff.scoped d (updateOf b)
     end)
    (fun error =>
       emit (ConsoleError "Error updating video:" error) ;;
       Eff.ret (ResError 500 "Failed to update video")).

(** *** [checkProcessingJobs] *)

(** The body of the [for] loop (lines 337-373), with [video] in scope. *)
Definition checkOne : D unit :=
  v <- Eff.local Video.cur ;;
  if Js.truthy (Video.jobId v)
  then
    Eff.tryCatch
      (jobResponse <- Eff.outer (axiosGet (default "" (Video.jobId v))) ;;
       reconcile true jobResponse)
      (fun jobError =>
         Eff.outer (emit (ConsoleError
           ("Error checking job " +:+ default "" (Video.jobId v) +:+ ":") jobError)))
  else Eff.ret tt.

Definition checkLoaded (processingVideos : list Video.document) : W unit :=
  Eff.forOf processingVideos (fun d => Eff.scoped d checkOne).

Definition checkProcessingJobs : W unit :=
  Eff.tryCatch
    (processingVideos <- findProcessing ;;
     checkLoaded processingVideos)
    (fun error => emit (ConsoleError "Error in background job checker:" error)).

(** The same sweep when a request may never settle. [axios.get] is given
    no timeout, so the [await] of line 339 then does not return and the loop
    goes no further; [pending j] tells whether the request about job [j] is
    such a one. The result is [None] for a sweep that does not return. *)
Definition awaited (pending : string -> bool) (d : Video.document) : bool :=
  Js.truthy (Video.jobId (Video.cur d))
  && pending (default "" (Video.jobId (Video.cur d))).

Fixpoint checkLoadedPending (pending : string -> bool)
    (processingVideos : list Video.document) (w : world)
  : Eff.result (option unit) * world :=
  match processingVideos with
  | [] => (Eff.Ok (Some tt), w)
  | d :: rest =>
      if awaited pending d
      then (Eff.Ok None, snd (emit (AxiosGet (default "" (Video.jobId (Video.cur d)))) w))
      else
        match Eff.scoped d checkOne w with
        | (Eff.Ok _, w') => checkLoadedPending pending rest w'
        | (Eff.Thrown e, w') => (Eff.Thrown e, w')
        end
  end.

Definition checkProcessingJobsPending (pending : string -> bool) (w : world)
  : option unit * world :=
  match findProcessing w with
  | (Eff.Ok processingVideos, w1) =>
      match checkLoadedPending pending processingVideos w1 with
      | (Eff.Ok r, w') => (r, w')
      | (Eff.Thrown e, w') =>
          (Some tt, snd (emit (ConsoleError "Error in background job checker:" e) w'))
      end
  | (Eff.Thrown e, w1) =>
      (Some tt, snd (emit (ConsoleError "Error in background job checker:" e) w1))
  end.

End WithProcessor.

End Server.

(** ** The read and delete routes of the server *)

Module Catalog.

(** The JSON answers of these routes. *)
Inductive response :=
| Videos (videos : list Video.t)
| OneVideo (video : Video.t)
| Message (message : string)
| Failure (code : Z) (error : string).

#[local] Abbreviation W := (Eff.M Server.world).

#[local] Open Scope eff_scope.

(** The order of [sort({ createdAt: -1 })]: newer records first. *)
Definition newerFirst (a b : Video.t) : Prop :=
  Video.createdAt b <= Video.createdAt a.

#[global] Instance newerFirst_dec (a b : Video.t) : Decision (newerFirst a b).
Proof. unfold newerFirst. apply _. Defined.

(** [Video.find().sort({ createdAt: -1 })] *)
Definition findSorted : W (list Video.t) :=
  Eff.gets (fun w => merge_sort newerFirst (snd <$> map_to_list (Server.db w))).

(** [Video.deleteOne({ id })] *)
Definition deleteOne (id : string) : W unit :=
  Eff.modify (fun w =>
    Server.set_revs (delete id (Server.revs w)) (Server.set_db (delete id (Server.db w)) w)).

(** [GET /api/videos] *)
Definition getVideos : W response :=
  Eff.tryCatch
    (videos <- findSorted ;;
     Eff.ret (Videos videos))
    (fun error =>
       Server.emit (Server.ConsoleError "Error fetching videos:" error) ;;
       Eff.ret (Failure 500 "Failed to fetch videos")).

(** [GET /api/videos/:id] *)
Definition getVideo (id : string) : W response :=
  Eff.tryCatch
    (video <- Server.findOne id ;;
     match video with
     | None => Eff.ret (Failure 404 "Video not found")
     | Some d => Eff.ret (OneVideo (Video.cur d))
     end)
    (fun error =>
       Server.emit (Server.ConsoleError "Error fetching video:" error) ;;
       Eff.ret (Failure 500 "Failed to fetch video")).

(** [DELETE /api/videos/:id]; the files in storage are left alone (the
    source has a TODO there). *)
Definition deleteVideo (id : string) : W response :=
  Eff.tryCatch
    (video <- Server.findOne id ;;
     match video with
     | None => Eff.ret (Failure 404 "Video not found")
     | Some _ =>
         deleteOne id ;;
         Eff.ret (Message "Video deleted successfully")
     end)
    (fun error =>
       Server.emit (Server.ConsoleError "Error deleting video:" error) ;;
       Eff.ret (Failure 500 "Failed to delete video")).

End Catalog.

(** ** The upload middleware and the error handler *)

Module Multer.

(** [file] as multer hands it to the callbacks of the configuration. *)
Record File := mkFile {
  fieldname : string;
  originalname : string;
  mimetype : string
}.

Definition allowedTypes : list string :=
  ["video/mp4"; "video/avi"; "video/quicktime"; "video/x-msvideo"; "video/webm"].

(** [fileFilter]: [cb(null, true)] or [cb(new Error(...))]. *)
Definition fileFilter (file : File) : string + bool :=
  if bool_decide (mimetype file ∈ allowedTypes)
  then inr true
  else inl "Invalid file type. Only video files are allowed.".

(** [filename]; [now] is [Date.now()] and [random] is
    [Math.round(Math.random() * 1E9)], both non-negative integers, which
    print in decimal. *)
Definition filename (now random : N) (file : File) : string :=
  let uniqueSuffix := pretty now +:+ "-" +:+ pretty random in
  fieldname file +:+ "-" +:+ uniqueSuffix +:+ Path.extname (originalname file).

(** What reaches the error-handling middleware. *)
Inductive error :=
| MulterError (code message : string)
| Error (message : string).

Definition message (e : error) : string :=
  match e with
  | MulterError _ m => m
  | Error m => m
  end.

#[local] Open Scope eff_scope.

(** [app.use((error, req, res, next) => ...)] *)
Definition errorMiddleware (e : error) : Eff.M Server.world Server.response :=
  let tooLarge :=
    match e with
    | MulterError code _ => String.eqb code "LIMIT_FILE_SIZE"
    | Error _ => false
    end in
  if tooLarge
  then Eff.ret (Server.ResError 400 "File too large. Maximum size is 2GB.")
  else Server.emit (Server.ConsoleError "Unhandled error:" (message e)) ;;
       Eff.ret (Server.ResError 500 "Internal server error").

(** A part that [fileFilter] refuses: multer passes the error to [next] and
    Express hands it to the error-handling middleware; an accepted part goes
    on to the storage and the route ([None]). *)
Definition filtered (file : File) : Eff.M Server.world (option Server.response) :=
  match fileFilter file with
  | inl m => r <- errorMiddleware (Error m) ;; Eff.ret (Some r)
  | inr _ => Eff.ret None
  end.

End Multer.

(** ** Uploads to storage and streaming URLs *)

Module Uploads.

(** The values of an options object. *)
Inductive value :=
| Str (s : string)
| Num (n : Z).

#[global] Instance value_eq_dec : EqDecision value.
Proof. solve_decision. Defined.

Definition truthy (v : option value) : bool :=
  match v with
  | None => false
  | Some (Str s) => Js.truthy (Some s)
  | Some (Num n) => negb (n =? 0)
  end.

(** [params] of [s3.upload]. *)
Record S3Params := mkParams {
  Bucket : option value;
  Key : string;
  Body : string;
  ContentType : string;
  ACL : string
}.

(** What [s3.upload(params).promise()] resolves with. *)
Record S3Uploaded := mkS3Uploaded {
  Location : option string;
  UploadedKey : option string;
  UploadedBucket : option string
}.

(** What [cloudinary.uploader.upload] resolves with. *)
Record CloudinaryUploaded := mkCloudinaryUploaded {
  secure_url : option string;
  public_id : option string;
  format : option string;
  duration : option Z;
  width : option Z;
  height : option Z;
  bytes : option Z
}.

(** Calls into [fs] and the two SDKs, and console output. *)
Inductive effect :=
| ReadFileSync (path : string)
| S3Upload (params : S3Params)
| CloudinaryUpload (file : string) (options : gmap string value)
| ConsoleError (label message : string).

(** What the file system and the providers answer: a rejection or error
    message ([inl]) or a result ([inr]); [cloudinary_url] builds a URL
    without a request. *)
Record Sdk := mkSdk {
  readFileSync : string -> string + string;
  s3_upload : S3Params -> string + S3Uploaded;
  cloudinary_upload : string -> gmap string value -> string + CloudinaryUploaded;
  cloudinary_url : string -> string
}.

(** The result objects of the upload functions; a key the object literal
    does not have is [None]. *)
Record outcome := mkOutcome {
  success : bool;
  error : option string;
  url : option string;
  key : option string;
  bucket : option string;
  publicId : option string;
  oformat : option string;
  oduration : option Z;
  owidth : option Z;
  oheight : option Z;
  obytes : option Z
}.

Definition failed (message : string) : outcome :=
  mkOutcome false (Some message) None None None None None None None None None.

(** An entry of the object [generateStreamingUrls] returns. *)
Record StreamingUrl := mkStreamingUrl {
  surl : string;
  stype : string
}.

(** A value inside a template string or used as a property key. *)
Definition interpolate (s : option string) : string := default "undefined" s.

(** [obj[key] = value] on an object literal, as far as its own properties
    go: the key ['__proto__'] reaches the prototype accessor and adds no
    property. *)
Definition assignOwn {A} (k : string) (x : A) (o : gmap string A) : gmap string A :=
  if String.eqb k "__proto__" then o else <[k := x]> o.

Section WithEnvironment.

Variable env : Storage.ProcessEnv.
Variable sdk : Sdk.

#[local] Abbreviation M := (Eff.M (list effect)).

#[local] Open Scope eff_scope.

Definition emit (e : effect) : M unit := Eff.modify (fun t => t ++ [e]).

Definition settle {A} (r : string + A) : M A :=
  match r with
  | inl message => Eff.throw message
  | inr a => Eff.ret a
  end.

(** The default parameter [bucket = process.env.S3_BUCKET]. *)
Definition bucketOrDefault (b : option value) : option value :=
  match b with
  | Some x => Some x
  | None => Str <$> Storage.S3_BUCKET env
  end.

Definition uploadToS3 (filePath s3Key : string) (b : option value) : M outcome :=
  let bucket := bucketOrDefault b in
  Eff.tryCatch
    ((if negb (Js.truthy (Storage.AWS_ACCESS_KEY_ID env)) || negb (truthy bucket)
      then Eff.throw "AWS S3 not configured" else Eff.ret tt) ;;
     fileContent <- (emit (ReadFileSync filePath) ;; settle (readFileSync sdk filePath)) ;;
     let contentType := Storage.getContentType filePath in
     let params := mkParams bucket s3Key fileContent contentType "public-read" in
     result <- (emit (S3Upload params) ;; settle (s3_upload sdk params)) ;;
     Eff.ret (mkOutcome true None (Location result) (UploadedKey result)
                (UploadedBucket result) None None None None None None))
    (fun message =>
       emit (ConsoleError "S3 upload error:" message) ;;
       Eff.ret (failed message)).

(** [{ public_id: publicId, resource_type: 'video', chunk_size: 20000000,
    ...options }]: the keys of [options] come last and win. *)
Definition defaultOptions (publicId : string) (options : gmap string value)
  : gmap string value :=
  options ∪ <["public_id" := Str publicId]>
              (<["resource_type" := Str "video"]>
                 (<["chunk_size" := Num 20000000]> ∅)).

Definition uploadToCloudinary (filePath publicId : string) (options : gmap string value)
  : M outcome :=
  Eff.tryCatch
    ((if negb (Js.truthy (Storage.CLOUDINARY_CLOUD_NAME env))
      then Eff.throw "Cloudinary not configured" else Eff.ret tt) ;;
     let opts := defaultOptions publicId options in
     result <- (emit (CloudinaryUpload filePath opts) ;;
                settle (cloudinary_upload sdk filePath opts)) ;;
     Eff.ret (mkOutcome true None (secure_url result) None None (public_id result)
                (format result) (duration result) (width result) (height result)
                (bytes result)))
    (fun message =>
       emit (ConsoleError "Cloudinary upload error:" message) ;;
       Eff.ret (failed message)).

(** [uploadFile]: S3 when it is configured, else Cloudinary. *)
Definition uploadFile (filePath key' : string) (options : gmap string value) : M outcome :=
  if Storage.s3Configured env then uploadToS3 filePath key' (options !! "bucket")
  else if Storage.cloudinaryConfigured env then uploadToCloudinary filePath key' options
  else Eff.ret (failed "No storage provider configured").

(** [generateStreamingUrls]: [streamingUrls[format.quality] = ...] for each
    format, in order. *)
Definition streamingEntry (videoId : string) (f : Format.t) : option StreamingUrl :=
  let quality := interpolate (Format.quality f) in
  if Storage.s3Configured env then
    Some (mkStreamingUrl
            ("https://" +:+ interpolate (Storage.S3_BUCKET env)
             +:+ ".s3.amazonaws.com/videos/" +:+ videoId +:+ "_" +:+ quality +:+ ".mp4")
            "application/x-mpegURL")
  else if Storage.cloudinaryConfigured env then
    Some (mkStreamingUrl (cloudinary_url sdk (videoId +:+ "_" +:+ quality)) "video/mp4")
  else None.

Definition generateStreamingUrls (videoId : string) (formats : list Format.t)
  : gmap string StreamingUrl :=
  fold_left
    (fun streamingUrls f =>
       match streamingEntry videoId f with
       | Some entry => assignOwn (interpolate (Format.quality f)) entry streamingUrls
       | None => streamingUrls
       end)
    formats ∅.

End WithEnvironment.

Definition isS3Upload (e : effect) : bool :=
  match e with
  | S3Upload _ => true
  | _ => false
  end.

Definition isCloudinaryUpload (e : effect) : bool :=
  match e with
  | CloudinaryUpload _ _ => true
  | _ => false
  end.

Definition isReadFile (e : effect) : bool :=
  match e with
  | ReadFileSync _ => true
  | _ => false
  end.

End Uploads.

(** * Vocabulary of the properties *)

(** A character that is neither a dot nor a separator. *)
Definition plain (c : ascii) : Prop := c <> Path.dot /\ c <> Path.slash.

(** The extensions the specification lists, with the type the table gives
    each of them. *)
Definition coveredTypes : list (string * string) :=
  [ ("mp4", "video/mp4"); ("avi", "video/x-msvideo"); ("mov", "video/quicktime");
    ("wmv", "video/x-ms-wmv"); ("flv", "video/x-flv"); ("webm", "video/webm");
    ("mkv", "video/x-matroska"); ("jpg", "image/jpeg"); ("jpeg", "image/jpeg");
    ("png", "image/png"); ("gif", "image/gif") ].

(** What each configured provider answers to a delete of [key], in the
    order [deleteFile] asks them: the result object of [deleteFromS3] and
    the one of [deleteFromCloudinary]. *)
Definition s3Outcome (sdk : Storage.Sdk) (b : option string) (key : string)
  : Storage.outcome :=
  match Storage.s3_deleteObject sdk b key with
  | None => Storage.mkOutcome true None None None
  | Some message => Storage.mkOutcome false (Some message) None None
  end.

Definition cloudinaryOutcome (sdk : Storage.Sdk) (key : string) : Storage.outcome :=
  match Storage.cloudinary_destroy sdk key with
  | inl r => Storage.mkOutcome (String.eqb r "ok") None (Some r) None
  | inr message => Storage.mkOutcome false (Some message) None None
  end.

Definition providerOutcomes (env : Storage.ProcessEnv) (sdk : Storage.Sdk)
    (key : string) (options : Storage.Options) : list Storage.outcome :=
  (if Storage.s3Configured env
   then [s3Outcome sdk (Storage.bucketOrDefault env (Storage.bucket options)) key]
   else [])
  ++ (if Storage.cloudinaryConfigured env then [cloudinaryOutcome sdk key] else []).

(** The record that the update from a processor answer assigns before it
    is saved at time [t]: the ready record of a completed job with its data,
    the error record of a failed one; nothing for any other answer. *)
Definition completedRecord (t : Z) (d : Engine.JobData) (files : list EncodedFile.t)
    (v : Video.t) : Video.t :=
  Video.mk (Video.id v) (Video.title v) (Video.description v) (Video.originalFilename v)
    ready (Video.jobId v) (Engine.thumbnail_url d) (Engine.duration d)
    (map (fun f => Format.mk (EncodedFile.quality f) (EncodedFile.url f)
                     (EncodedFile.size f) (EncodedFile.bitrate f)) files)
    (Engine.video_info d) (Video.createdAt v) t.

Definition failedRecord (t : Z) (v : Video.t) : Video.t :=
  Video.mk (Video.id v) (Video.title v) (Video.description v) (Video.originalFilename v)
    error (Video.jobId v) (Video.thumbnail v) (Video.duration v) (Video.formats v)
    (Video.videoInfo v) (Video.createdAt v) t.

Definition reconciled (t : Z) (job : Engine.Job) (v : Video.t) : option Video.t :=
  match String.eqb (Engine.status job) "completed", Engine.data job with
  | true, Some d =>
      match Engine.encoded_files d with
      | Some files => Some (completedRecord t d files v)
      | None => None
      end
  | _, _ =>
      if String.eqb (Engine.status job) "error" then Some (failedRecord t v) else None
  end.

(** The world once a request to the processor has settled. *)
Definition afterRequest (e : Server.event) (latency : Z) (w : Server.world) : Server.world :=
  Server.mkWorld (Server.db w) (Server.disk w) (Server.clock w + latency)
    (Server.out w ++ [e]) (Server.revs w).

(** The world once [save()] has inserted [v]. *)
Definition inserted (v : Video.t) (w : Server.world) : Server.world :=
  Server.mkWorld (<[Video.id v := v]> (Server.db w)) (Server.disk w) (Server.clock w)
    (Server.out w ++ [Server.DbWrite None v]) (<[Video.id v := 0]> (Server.revs w)).

(** The world once [save()] has written [v] over the stored record [p];
    [bump] tells whether the update carried the version. *)
Definition updated (bump : bool) (p v : Video.t) (w : Server.world) : Server.world :=
  Server.mkWorld (<[Video.id v := v]> (Server.db w)) (Server.disk w) (Server.clock w)
    (Server.out w ++ [Server.DbWrite (Some p) v])
    (if bump then <[Video.id v := Server.versionOf w (Video.id v) + 1]> (Server.revs w)
     else Server.revs w).

(** The world once [e] is added to the events. *)
Definition logged (e : Server.event) (w : Server.world) : Server.world :=
  Server.set_out (Server.out w ++ [e]) w.

(** A document as [findOne] and [find] return it, with its version. *)
Definition loaded (v : Video.t) (n : Z) : Video.document := Video.mkDoc v (Some v) n.

(** The document [findOne] and [find] return for the stored record [v]. *)
Definition loadedFrom (w : Server.world) (v : Video.t) : Video.document :=
  loaded v (Server.versionOf w (Video.id v)).

(** Every record is stored under its own [id]. *)
Definition keyed (m : gmap string Video.t) : Prop :=
  map_Forall (fun k v => Video.id v = k) m.

(** The edges of the life cycle. *)
Inductive edge : Status -> Status -> Prop :=
| edge_dispatched : edge uploading processing
| edge_rejected : edge uploading error
| edge_completed : edge processing ready
| edge_failed : edge processing error.

(** A write that respects the life cycle: a record is created in
    [uploading]; a stored record keeps its status or follows an edge. *)
Definition lawful (e : Server.event) : Prop :=
  match e with
  | Server.DbWrite None after => Video.status after = uploading
  | Server.DbWrite (Some before) after =>
      Video.status after = Video.status before
      \/ edge (Video.status before) (Video.status after)
  | _ => True
  end.

Definition terminal (s : Status) : Prop := s = ready \/ s = error.

(** The job ids the server asked the processor about. *)
Definition engineQueries (evs : list Server.event) : list string :=
  omap (fun e => match e with Server.AxiosGet j => Some j | _ => None end) evs.

(** The [try]/[catch] around the processor query, as both the status route
    and [checkProcessingJobs] have it; [label] is the text of the
    [console.error]. *)
Definition tryQuery (engine : Engine.t) (announce : bool) (label j : string)
  : Eff.M (Video.document * Server.world) unit :=
  Eff.tryCatch
    (Eff.bind (Eff.outer (Server.axiosGet engine j))
       (fun jobResponse => Server.reconcile announce jobResponse))
    (fun jobError => Eff.outer (Server.emit (Server.ConsoleError label jobError))).

(** What happens inside the server: a write to the collection or console
    output. *)
Definition internal (e : Server.event) : Prop :=
  match e with
  | Server.DbWrite _ _ | Server.ConsoleError _ _ | Server.ConsoleLog _ => True
  | _ => False
  end.

(** Console output. *)
Definition isConsole (e : Server.event) : Prop :=
  match e with
  | Server.ConsoleError _ _ | Server.ConsoleLog _ => True
  | _ => False
  end.

(** The world once [fs.unlinkSync(p)] has removed [p]. *)
Definition afterUnlink (p : string) (w : Server.world) : Server.world :=
  Server.mkWorld (Server.db w) (Server.disk w ∖ {[p]}) (Server.clock w)
    (Server.out w ++ [Server.Unlink p]) (Server.revs w).

(** The world in which the upload handler starts: multer has stored the
    file. *)
Definition received (f : Server.File) (w : Server.world) : Server.world :=
  Server.set_disk ({[Server.path f]} ∪ Server.disk w) w.

(** An upload that passes the checks of the handler: it carries a file and
    a title that is not blank. *)
Definition accepted (req : Server.UploadRequest) (f : Server.File) : Prop :=
  Server.file req = Some f
  /\ Js.truthy (Server.title (Server.body req)) = true
  /\ String.length (Js.trim (default "" (Server.title (Server.body req)))) <> 0%nat.

(** The record the upload handler creates at time [t]. *)
Definition created (t : Z) (videoId : string) (req : Server.UploadRequest)
    (f : Server.File) : Video.t :=
  Video.create t videoId
    (Js.trim (default "" (Server.title (Server.body req))))
    (default "" (Js.trim <$> Server.description (Server.body req)))
    (Some (Server.originalname f)) uploading.

(** The answer of the processor about job [j], as an update of [v] at the
    time the answer arrives when the query is sent at [t]. *)
Definition answered (engine : Engine.t) (j : string) (t : Z) (v : Video.t) : Video.t :=
  let r := Engine.job engine j in
  match Engine.settled r with
  | inl _ => v
  | inr job => default v (reconciled (t + Engine.latency r) job v)
  end.

(** The stored record once [checkProcessingJobs] has visited the loaded
    record [v] at time [t]: the update from the processor's answer when
    the record has a job and there is an update to make, [v] itself
    otherwise. *)
Definition polled (engine : Engine.t) (t : Z) (v : Video.t) : Video.t :=
  if Js.truthy (Video.jobId v)
  then answered engine (default "" (Video.jobId v)) t v
  else v.

(** The text of the [console.log] of [checkProcessingJobs] after a write. *)
Definition announcement (job : Engine.Job) (id : string) : string :=
  "Video " +:+ id
  +:+ (if String.eqb (Engine.status job) "completed"
       then " processing completed" else " processing failed").

(** The text of the [console.error] of [checkProcessingJobs]. *)
Definition checkLabel (j : string) : string := "Error checking job " +:+ j +:+ ":".

(** The records [Video.find({ status: 'processing' })] returns. *)
Definition processingOf (m : gmap string Video.t) : list Video.t :=
  snd <$> filter (fun kv : string * Video.t => Video.status kv.2 = processing)
                 (map_to_list m).

(** The operations that write to the collection: the upload route (with
    the id [uuidv4] draws), the status route, the update route and one run
    of [checkProcessingJobs]. *)
Inductive operation :=
| Upload (videoId : string) (req : Server.UploadRequest)
| QueryStatus (id : string)
| UpdateMetadata (id : string) (body : Server.Body)
| Sweep.

Definition run (engine : Engine.t) (op : operation) (w : Server.world) : Server.world :=
  match op with
  | Upload videoId req => snd (Server.postVideosUpload engine videoId req w)
  | QueryStatus id => snd (Server.getVideoStatus engine id w)
  | UpdateMetadata id body => snd (Server.putVideo id body w)
  | Sweep => snd (Server.checkProcessingJobs engine w)
  end.

(** The record the update route assigns at time [t]. *)
Definition updatedRecord (t : Z) (b : Server.Body) (v : Video.t) : Video.t :=
  let v1 := if Js.truthy (Server.title b)
            then Video.set_title (Js.trim (default "" (Server.title b))) v else v in
  let v2 := match Server.description b with
            | Some d => Video.set_description (Js.trim d) v1
            | None => v1
            end in
  Video.set_updatedAt t v2.

(** The title the update route would store is refused: it is assigned and
    empty. *)
Definition blankTitle (b : Server.Body) (v : Video.t) : bool :=
  Js.truthy (Server.title b)
  && String.eqb (Js.trim (default "" (Server.title b))) ""
  && negb (String.eqb (Video.title v) "").

(** A step of the system that respects the life cycle: records stay under
    their ids, every write is lawful, every stored record stays stored and
    keeps its status or follows an edge, and a record that appears is in
    [uploading]. *)
Definition respects (w w' : Server.world) : Prop :=
  keyed (Server.db w')
  /\ (exists evs, Server.out w' = Server.out w ++ evs /\ Forall lawful evs)
  /\ (forall id v, Server.db w !! id = Some v ->
        exists v', Server.db w' !! id = Some v'
                   /\ (Video.status v' = Video.status v
                       \/ edge (Video.status v) (Video.status v')))
  /\ (forall id v', Server.db w !! id = None -> Server.db w' !! id = Some v' ->
        Video.status v' = uploading).

(** One path of reconciliation resumed on the document [d] it had loaded:
    the body of the [for] loop of [checkProcessingJobs] ([viaSweep]) or the
    status route after its [findOne]. *)
Definition reapply (engine : Engine.t) (viaSweep : bool) (d : Video.document)
    (w : Server.world) : Server.world :=
  if viaSweep
  then snd (Eff.scoped d (Server.checkOne engine) w)
  else snd (Eff.scoped d (Server.statusOf engine) w).

(** The text of the [console.error] of a resumed path about job [j]. *)
Definition pathLabel (viaSweep : bool) (j : string) : string :=
  if viaSweep then checkLabel j else "Error checking job status:".

(** A run of the system: operations, each against the processor as it
    answers at that moment, and time that passes in between. *)
Inductive step :=
| Do (engine : Engine.t) (op : operation)
| Wait (ms : Z).

Definition runStep (w : Server.world) (s : step) : Server.world :=
  match s with
  | Do engine op => run engine op w
  | Wait ms => Server.set_clock (Server.clock w + ms) w
  end.

Definition runAll (steps : list step) (w : Server.world) : Server.world :=
  fold_left runStep steps w.

(** *** Sample data *)

Definition clip : Video.t :=
  Video.mk "v1" "Clip" "" (Some "clip.mp4") processing (Some "job-42")
    None None [] None 1000 1000.

(** A record in [processing] without a [jobId]. *)
Definition stuck : Video.t :=
  Video.mk "v2" "Stuck" "" (Some "stuck.mp4") processing None
    None None [] None 1100 1100.

Definition world0 : Server.world :=
  Server.mkWorld (<["v1" := clip]> (<["v2" := stuck]> ∅)) ∅ 2000 [] ∅.

Definition doneFiles : list EncodedFile.t :=
  [ EncodedFile.mk (Some "480p") (Some "https://cdn/v1_480p.mp4")
      (Some 1000) (Some 800) [];
    EncodedFile.mk (Some "720p") (Some "https://cdn/v1_720p.mp4")
      (Some 2000) (Some 1500) [] ].

Definition doneData : Engine.JobData :=
  Engine.mkJobData (Some doneFiles) (Some "https://cdn/v1.jpg") (Some 12)
    (Some (VideoInfo.mk (Some 1280) (Some 720) (Some "h264") (Some 30))).

Definition doneJob : Engine.Job := Engine.mkJob "completed" (Some doneData).

(** A processor that accepts every file as job [job-42] after 500 ms and
    reports every job completed after 20 ms. *)
Definition doneEngine : Engine.t :=
  Engine.mk (fun _ => Engine.mkReply 500 (inr (Engine.mkSubmitted (Some "job-42"))))
            (fun _ => Engine.mkReply 20 (inr doneJob)).

(** A processor that cannot be reached: every request fails after 30 s. *)
Definition downEngine : Engine.t :=
  Engine.mk (fun _ => Engine.mkReply 30000 (inl "timeout of 30000ms exceeded"))
            (fun _ => Engine.mkReply 30000 (inl "timeout of 30000ms exceeded")).

(** A third record, whose job the processor cannot answer about. *)
Definition other : Video.t :=
  Video.mk "v3" "Other" "" (Some "other.mp4") processing (Some "job-7")
    None None [] None 1200 1200.

Definition world1 : Server.world :=
  Server.mkWorld (<["v3" := other]> (<["v1" := clip]> (<["v2" := stuck]> ∅))) ∅ 2000 [] ∅.

(** A processor that reports [job-42] completed after 20 ms and fails on
    every other job after 30 s. *)
Definition mixedEngine : Engine.t :=
  Engine.mk (fun _ => Engine.mkReply 500 (inr (Engine.mkSubmitted (Some "job-42"))))
            (fun j => if String.eqb j "job-42"
                      then Engine.mkReply 20 (inr doneJob)
                      else Engine.mkReply 30000 (inl "timeout of 30000ms exceeded")).

Definition clipUpload : Server.UploadRequest :=
  Server.mkUpload (Some (Server.mkFile "uploads/video-1.mp4" "clip.mp4"))
    (Server.mkBody (Some "Clip") None).

Definition emptyWorld : Server.world := Server.mkWorld ∅ ∅ 1000 [] ∅.

(** ** Vocabulary of the further properties *)

(** The requests the server sent to the processor to submit a file. *)
Definition submissions (evs : list Server.event) : list string :=
  omap (fun e => match e with Server.AxiosPost p _ => Some p | _ => None end) evs.

(** A record in [processing] that has no job to ask about. *)
Definition orphan (v : Video.t) : Prop :=
  Video.status v = processing /\ Js.truthy (Video.jobId v) = false.

(** A processor whose answers take no negative time. *)
Definition punctual (engine : Engine.t) : Prop :=
  forall x, 0 <= Engine.latency (Engine.process engine x)
            /\ 0 <= Engine.latency (Engine.job engine x).

(** Time does not run backwards in a run. *)
Definition forward (s : step) : Prop :=
  match s with
  | Do engine _ => punctual engine
  | Wait ms => 0 <= ms
  end.

(** No record is dated after the clock, nor updated before it was
    created. *)
Definition dated (w : Server.world) : Prop :=
  map_Forall (fun _ v => Video.createdAt v <= Video.updatedAt v
                         /\ Video.updatedAt v <= Server.clock w) (Server.db w).

(** The jobs one sweep asks about: those of the loaded records that have
    one, in the order of the loop. *)
Definition jobsOf (vs : list Video.t) : list string :=
  flat_map (fun v => if Js.truthy (Video.jobId v)
                     then [default "" (Video.jobId v)] else []) vs.

(** A record that is ready. *)
Definition readyClip : Video.t :=
  completedRecord 1500 doneData doneFiles clip.

Definition worldReady : Server.world :=
  Server.mkWorld (<["v1" := readyClip]> ∅) ∅ 2000 [] (<["v1" := 1]> ∅).

(** Answers of the processor: a job still running, a failed job, and a
    completed job whose data lacks [encoded_files]. *)
Definition runningJob : Engine.Job := Engine.mkJob "processing" None.
Definition failedJob : Engine.Job := Engine.mkJob "error" None.
Definition brokenJob : Engine.Job :=
  Engine.mkJob "completed"
    (Some (Engine.mkJobData None (Some "https://cdn/v1.jpg") (Some 12) None)).

(** A completed job that produced no file. *)
Definition bareJob : Engine.Job :=
  Engine.mkJob "completed"
    (Some (Engine.mkJobData (Some []) (Some "https://cdn/v1.jpg") (Some 12) None)).

Definition answering (job : Engine.Job) : Engine.t :=
  Engine.mk (fun _ => Engine.mkReply 500 (inr (Engine.mkSubmitted None)))
            (fun _ => Engine.mkReply 20 (inr job)).

(** The qualities of a list of formats, as property keys. *)
Definition qualities (formats : list Format.t) : list string :=
  (fun f => Uploads.interpolate (Format.quality f)) <$> formats.

(** The streaming entry of a quality alone. *)
Definition streamFor (env : Storage.ProcessEnv) (sdk : Uploads.Sdk) (videoId q : string)
  : option Uploads.StreamingUrl :=
  Uploads.streamingEntry env sdk videoId (Format.mk (Some q) None None None).

(** The events of an upload that are requests to a provider. *)
Definition isRequest (e : Uploads.effect) : bool :=
  Uploads.isS3Upload e || Uploads.isCloudinaryUpload e.


(** The request [uploadToS3] sends for a file it could read. *)
Definition s3Request (env : Storage.ProcessEnv) (filePath s3Key : string)
    (b : option Uploads.value) (content : string) : Uploads.S3Params :=
  Uploads.mkParams (Uploads.bucketOrDefault env b) s3Key content
    (Storage.getContentType filePath) "public-read".

(** The decimal digits. *)
Definition digit (c : ascii) : Prop := In c (list_ascii_of_string "0123456789").

(** Sample data: an environment with S3 and Cloudinary, one with Cloudinary
    only, and providers that accept every upload. *)
Definition bothEnv : Storage.ProcessEnv :=
  Storage.mkEnv (Some "AKIA") (Some "media") (Some "cloud").

Definition cloudEnv : Storage.ProcessEnv :=
  Storage.mkEnv None None (Some "cloud").

Definition okSdk : Uploads.Sdk :=
  Uploads.mkSdk
    (fun p => inr ("bytes of " +:+ p))
    (fun params =>
       inr (Uploads.mkS3Uploaded
              (Some ("https://media.s3.amazonaws.com/" +:+ Uploads.Key params))
              (Some (Uploads.Key params)) (Some "media")))
    (fun file options =>
       inr (Uploads.mkCloudinaryUploaded (Some ("https://res.cloudinary.com/" +:+ file))
              None (Some "mp4") (Some 12) (Some 1280) (Some 720) (Some 4096)))
    (fun publicId => "https://res.cloudinary.com/cloud/video/upload/" +:+ publicId +:+ ".mp4").

Definition readyFormats : list Format.t :=
  [ Format.mk (Some "480p") (Some "https://cdn/v1_480p.mp4") (Some 1000) (Some 800);
    Format.mk (Some "720p") (Some "https://cdn/v1_720p.mp4") (Some 2000) (Some 1500) ].

(** * Properties *)

(** ** Strings and [path.extname] *)

Section Strings.

Lemma chars_app (a b : string) :
  list_ascii_of_string (a +:+ b) = list_ascii_of_string a ++ list_ascii_of_string b.
Proof. induction a as [|c a IH]; simpl; [reflexivity | now rewrite IH]. Qed.

Lemma chars_length (a : string) :
  length (list_ascii_of_string a) = String.length a.
Proof. induction a as [|c a IH]; simpl; [reflexivity | now rewrite IH]. Qed.

Lemma substring_all (b : string) : String.substring 0 (String.length b) b = b.
Proof. induction b as [|c b IH]; simpl; [reflexivity | now rewrite IH]. Qed.

Lemma substring_suffix (a b : string) :
  String.substring (String.length a) (String.length b) (a +:+ b) = b.
Proof. induction a as [|c a IH]; simpl; [apply substring_all | exact IH]. Qed.

Lemma lower_dot (c : ascii) : Js.lower c = Path.dot -> c = Path.dot.
Proof.
  destruct c as [[] [] [] [] [] [] [] []]; vm_compute; intros H;
    first [reflexivity | discriminate H].
Qed.

Lemma lower_slash (c : ascii) : Js.lower c = Path.slash -> c = Path.slash.
Proof.
  destruct c as [[] [] [] [] [] [] [] []]; vm_compute; intros H;
    first [reflexivity | discriminate H].
Qed.

End Strings.

Section Extname.

Lemma visit_first (i : Z) (c : ascii) :
  plain c -> Path.visit i c Path.scan0 = Path.mkScan (-1) 0 (i + 1) false 0.
Proof.
  intros [Hd Hs]. unfold Path.visit, Path.scan0; simpl.
  destruct (Ascii.eqb_spec c Path.dot); [contradiction | reflexivity].
Qed.

Lemma loop_plain (re rest : list ascii) (e : Z) :
  Forall plain re -> e <> -1 ->
  Path.extname_loop (re ++ rest) (Path.mkScan (-1) 0 e false 0)
  = Path.extname_loop rest (Path.mkScan (-1) 0 e false 0).
Proof.
  intros Hre He. induction Hre as [|c re [Hd Hs] _ IH]; [reflexivity|].
  cbn [app Path.extname_loop].
  destruct (Ascii.eqb_spec c Path.slash); [contradiction|].
  replace (Path.visit _ c _) with (Path.mkScan (-1) 0 e false 0); [exact IH|].
  unfold Path.visit; simpl.
  destruct (Z.eqb_spec e (-1)); [contradiction|].
  destruct (Ascii.eqb_spec c Path.dot); [contradiction | reflexivity].
Qed.

(** Once a dot and the end of the name are found and a character was seen
    to the left of the dot, the rest of the scan keeps them. *)
Lemma loop_settled (rs : list ascii) (s : Path.scan) :
  0 <= Path.startDot s -> 0 <= Path.end_ s ->
  (Path.preDotState s = 1 \/ Path.preDotState s = -1) ->
  let s' := Path.extname_loop rs s in
  Path.startDot s' = Path.startDot s /\ Path.end_ s' = Path.end_ s
  /\ (Path.preDotState s' = 1 \/ Path.preDotState s' = -1).
Proof.
  revert s. induction rs as [|c rs IH]; intros s Hd He Hp; [now cbn|].
  cbn [Path.extname_loop].
  destruct (Ascii.eqb c Path.slash).
  - destruct (negb (Path.matchedSlash s)); [now cbn | now apply IH].
  - cbn zeta.
    assert (Hv : Path.startDot (Path.visit (Z.of_nat (length rs)) c s) = Path.startDot s
                 /\ Path.end_ (Path.visit (Z.of_nat (length rs)) c s) = Path.end_ s
                 /\ (Path.preDotState (Path.visit (Z.of_nat (length rs)) c s) = 1
                     \/ Path.preDotState (Path.visit (Z.of_nat (length rs)) c s) = -1)).
    { unfold Path.visit.
      destruct (Z.eqb_spec (Path.end_ s) (-1)); [lia|].
      destruct (Ascii.eqb c Path.dot).
      - destruct (Z.eqb_spec (Path.startDot s) (-1)); [lia|].
        destruct (Z.eqb_spec (Path.preDotState s) 1); cbn; auto.
      - destruct (Z.eqb_spec (Path.startDot s) (-1)); [lia|]. cbn; auto. }
    destruct Hv as (H1 & H2 & H3).
    specialize (IH (Path.visit (Z.of_nat (length rs)) c s)).
    cbn zeta in IH. rewrite H1, H2 in IH. apply IH; assumption.
Qed.

(** The scan of [front ++ [last] ++ "." ++ ext], given reversed: the
    extension [re] is not empty and has no dot or separator, and [last] is
    not a separator. *)
Lemma loop_name (re rf : list ascii) (last : ascii) :
  re <> [] -> Forall plain re -> last <> Path.slash ->
  let s' := Path.extname_loop (re ++ Path.dot :: last :: rf) Path.scan0 in
  Path.startDot s' = Z.of_nat (length rf) + 1
  /\ Path.end_ s' = Z.of_nat (length rf) + 2 + Z.of_nat (length re)
  /\ (Path.preDotState s' = 1 \/ Path.preDotState s' = -1).
Proof.
  intros Hne Hall Hlast. destruct re as [|r0 rr]; [contradiction|]. clear Hne.
  cbn zeta. cbn [app Path.extname_loop].
  inversion Hall as [|? ? [Hr0d Hr0s] Hrr]; subst.
  destruct (Ascii.eqb_spec r0 Path.slash); [contradiction|].
  rewrite visit_first by (split; assumption).
  rewrite loop_plain; [| exact Hrr | lia].
  set (endAt := Z.of_nat (length (rr ++ Path.dot :: last :: rf)) + 1).
  assert (HE : endAt = Z.of_nat (length rf) + 2 + Z.of_nat (length (r0 :: rr))).
  { unfold endAt. rewrite length_app. cbn [length]. lia. }
  cbn [Path.extname_loop].
  replace (Ascii.eqb Path.dot Path.slash) with false by reflexivity.
  set (dotAt := Z.of_nat (length (last :: rf))).
  assert (Hn : dotAt = Z.of_nat (length rf) + 1) by (unfold dotAt; cbn [length]; lia).
  assert (Hvis : Path.visit dotAt Path.dot (Path.mkScan (-1) 0 endAt false 0)
                 = Path.mkScan dotAt 0 endAt false 0).
  { unfold Path.visit; cbn.
    destruct (Z.eqb_spec endAt (-1)); [lia | reflexivity]. }
  rewrite Hvis.
  destruct (Ascii.eqb_spec last Path.slash); [contradiction|].
  set (s1 := Path.visit (Z.of_nat (length rf)) last (Path.mkScan dotAt 0 endAt false 0)).
  assert (Hs1 : Path.startDot s1 = dotAt /\ Path.end_ s1 = endAt
                /\ (Path.preDotState s1 = 1 \/ Path.preDotState s1 = -1)).
  { unfold s1, Path.visit; cbn.
    destruct (Z.eqb_spec endAt (-1)); [lia|].
    destruct (Ascii.eqb last Path.dot); cbn;
      (destruct (Z.eqb_spec dotAt (-1)); [lia|]); cbn; auto. }
  destruct Hs1 as (Hd1 & He1 & Hp1).
  destruct (loop_settled rf s1) as (Hd & He & Hp); [lia | lia | exact Hp1 |].
  cbn zeta in Hd, He, Hp. rewrite Hd, He, Hd1, He1. repeat split; [lia | lia | exact Hp].
Qed.

(** [path.extname] of a name made of a non-empty stem that does not end in
    a separator, a dot and a non-empty extension without dots and
    separators. *)
Lemma extname_stem_ext (stem ext : string) (last : ascii) (front : list ascii) :
  list_ascii_of_string stem = front ++ [last] -> last <> Path.slash ->
  ext <> "" -> Forall plain (list_ascii_of_string ext) ->
  Path.extname (stem +:+ "." +:+ ext) = "." +:+ ext.
Proof.
  intros Hstem Hlast Hne Hplain. unfold Path.extname.
  assert (Hrev : rev (list_ascii_of_string (stem +:+ "." +:+ ext))
                 = rev (list_ascii_of_string ext) ++ Path.dot :: last :: rev front).
  { rewrite chars_app, Hstem.
    change ("." +:+ ext) with (String Path.dot ext).
    cbn [list_ascii_of_string]. rewrite rev_app_distr. cbn [rev].
    rewrite rev_app_distr. cbn [rev app]. rewrite <- app_assoc. reflexivity. }
  rewrite Hrev. clear Hrev.
  destruct (loop_name (rev (list_ascii_of_string ext)) (rev front) last)
    as (Hd & He & Hp).
  { intros H. apply (f_equal (@length ascii)) in H.
    rewrite length_rev, chars_length in H. destruct ext; [contradiction | discriminate]. }
  { apply Forall_rev. exact Hplain. }
  { exact Hlast. }
  cbn zeta in Hd, He, Hp. rewrite Hd, He.
  rewrite !length_rev, chars_length.
  assert (Hlen : (0 < String.length ext)%nat).
  { destruct ext; [contradiction | cbn; lia]. }
  assert (Hstemlen : String.length stem = S (length front)).
  { rewrite <- chars_length, Hstem, length_app. cbn [length]. lia. }
  destruct (Z.eqb_spec (Z.of_nat (length front) + 1) (-1)); [lia|].
  destruct (Z.eqb_spec (Z.of_nat (length front) + 2 + Z.of_nat (String.length ext)) (-1));
    [lia|].
  replace ((Path.preDotState _ =? 0)) with false
    by (destruct Hp as [-> | ->]; reflexivity).
  destruct (Z.eqb_spec (Z.of_nat (length front) + 1)
              (Z.of_nat (length front) + 2 + Z.of_nat (String.length ext) - 1)); [lia|].
  rewrite andb_false_r. cbn [orb andb].
  unfold Js.slice.
  replace (Z.to_nat (Z.of_nat (length front) + 1)) with (String.length stem)
    by (clear -Hstemlen; lia).
  replace (Z.to_nat _) with (String.length ("." +:+ ext))
    by (change (String.length ("." +:+ ext)) with (S (String.length ext)); lia).
  apply (substring_suffix stem ("." +:+ ext)).
Qed.

End Extname.

(** ** [getContentType] *)

Section ContentType.

Lemma toLowerCase_app (a b : string) :
  Js.toLowerCase (a +:+ b) = Js.toLowerCase a +:+ Js.toLowerCase b.
Proof. induction a as [|c a IH]; simpl; [reflexivity | now rewrite IH]. Qed.

Lemma plain_of_lower (e : string) :
  Forall plain (list_ascii_of_string (Js.toLowerCase e)) ->
  Forall plain (list_ascii_of_string e).
Proof.
  induction e as [|c e IH]; simpl; intros H; [constructor|].
  inversion H as [|? ? [Hd Hs] Hrest]; subst. constructor; [| now apply IH].
  split; intros ->; [apply Hd | apply Hs]; reflexivity.
Qed.

Lemma nonempty_of_lower (e : string) : Js.toLowerCase e <> "" -> e <> "".
Proof. intros H ->. now apply H. Qed.

(** The table decides the answer: its values are non-empty strings, so the
    [||] only acts on a missing key. *)
Lemma getContentType_lookup (p : string) :
  Storage.getContentType p
  = default "application/octet-stream"
      (Storage.contentTypes !! Js.toLowerCase (Path.extname p)).
Proof.
  unfold Storage.getContentType. cbn zeta.
  destruct (Storage.contentTypes !! Js.toLowerCase (Path.extname p)) as [t|] eqn:E;
    [| reflexivity].
  assert (Hin : (Js.toLowerCase (Path.extname p), t)
                ∈ map_to_list Storage.contentTypes)
    by now apply elem_of_map_to_list.
  revert Hin. generalize (Js.toLowerCase (Path.extname p)). intros k Hin.
  assert (Hall : Forall (fun kv : string * string => Js.truthy (Some kv.2) = true)
                   (map_to_list Storage.contentTypes)).
  { vm_compute. repeat constructor. }
  rewrite Forall_forall in Hall. specialize (Hall _ Hin). cbn in Hall.
  cbn. destruct t; [discriminate | reflexivity].
Qed.

End ContentType.

(** C7, as the code has it: [getContentType] takes a file path and looks up
    [path.extname] of it, lower-cased. For every name [stem.ext] whose stem is
    not empty and does not end in a separator and whose extension is, in any
    letter case, one of mp4, avi, mov, wmv, flv, webm, mkv, jpg, jpeg, png and
    gif, it returns the type of the table; every path whose lower-cased
    extension is not a key of the table gets ['application/octet-stream'];
    and a bare [".MP4"] or [".xyz"] has no extension for [path.extname], so
    both get ['application/octet-stream'], while ["clip.MP4"] gets
    ['video/mp4']. *)
Theorem getContentType_by_extension :
  (forall (stem ext ty : string) (front : list ascii) (last : ascii),
      list_ascii_of_string stem = front ++ [last] ->
      last <> Path.slash ->
      In (Js.toLowerCase ext, ty) coveredTypes ->
      Storage.getContentType (stem +:+ "." +:+ ext) = ty)
  /\ (forall p : string,
         Storage.contentTypes !! Js.toLowerCase (Path.extname p) = None ->
         Storage.getContentType p = "application/octet-stream")
  /\ Storage.getContentType "clip.MP4" = "video/mp4"
  /\ Storage.getContentType ".MP4" = "application/octet-stream"
  /\ Storage.getContentType ".xyz" = "application/octet-stream".
Proof.
  split; [| split; [| repeat split; vm_compute; reflexivity]].
  - intros stem ext ty front last Hstem Hlast Hin.
    assert (Hext : Path.extname (stem +:+ "." +:+ ext) = "." +:+ ext
                   /\ Storage.contentTypes !! ("." +:+ Js.toLowerCase ext) = Some ty).
    { cbn [In coveredTypes] in Hin.
      repeat (destruct Hin as [Hin | Hin];
        [ injection Hin as Hl Hty; subst ty; split;
          [ apply (extname_stem_ext stem ext last front Hstem Hlast);
            [ apply nonempty_of_lower; rewrite <- Hl; discriminate
            | apply plain_of_lower; rewrite <- Hl; cbn;
              repeat constructor; discriminate ]
          | rewrite <- Hl; vm_compute; reflexivity ]
        | ]).
      contradiction. }
    destruct Hext as [Hx Hty].
    rewrite getContentType_lookup, Hx.
    change ("." +:+ ext) with (String Path.dot ext). cbn [Js.toLowerCase].
    change (Js.lower Path.dot) with Path.dot.
    change (String Path.dot (Js.toLowerCase ext)) with ("." +:+ Js.toLowerCase ext).
    now rewrite Hty.
  - intros p Hnone. now rewrite getContentType_lookup, Hnone.
Qed.

(** A use of the theorem: ["videos/Clip.WebM"]. *)
Lemma getContentType_by_extension_witness :
  Storage.getContentType ("videos/Clip" +:+ "." +:+ "WebM") = "video/webm".
Proof.
  apply (proj1 getContentType_by_extension "videos/Clip" "WebM" "video/webm"
           (list_ascii_of_string "videos/Cli") "p"%char).
  - reflexivity.
  - discriminate.
  - vm_compute. tauto.
Defined.

(** C7 as stated fails: [getContentType(".MP4")] is not ['video/mp4']. *)
Lemma getContentType_dot_MP4 : Storage.getContentType ".MP4" <> "video/mp4".
Proof. vm_compute. discriminate. Qed.

(** ** [deleteFile] *)

Section DeleteFile.

Variable env : Storage.ProcessEnv.
Variable sdk : Storage.Sdk.

Lemma deleteFromS3_run (key : string) (b : option string) (t : list Storage.effect) :
  exists evs,
    Storage.deleteFromS3 env sdk key b t
    = (Eff.Ok (s3Outcome sdk (Storage.bucketOrDefault env b) key), t ++ evs)
    /\ filter (fun e => Storage.isSdkCall e = true) evs
       = [Storage.S3DeleteObject (Storage.bucketOrDefault env b) key].
Proof.
  unfold Storage.deleteFromS3, Storage.s3DeleteObject, s3Outcome, Eff.tryCatch,
    Eff.bind, Storage.emit, Eff.modify, Eff.ret, Eff.throw.
  destruct (Storage.s3_deleteObject sdk (Storage.bucketOrDefault env b) key) as [m|].
  - eexists [_; _]. split; [now rewrite <- app_assoc | reflexivity].
  - eexists [_]. split; reflexivity.
Qed.

Lemma deleteFromCloudinary_run (key : string) (t : list Storage.effect) :
  exists evs,
    Storage.deleteFromCloudinary sdk key t
    = (Eff.Ok (cloudinaryOutcome sdk key), t ++ evs)
    /\ filter (fun e => Storage.isSdkCall e = true) evs = [Storage.CloudinaryDestroy key].
Proof.
  unfold Storage.deleteFromCloudinary, Storage.cloudinaryDestroy, cloudinaryOutcome,
    Eff.tryCatch, Eff.bind, Storage.emit, Eff.modify, Eff.ret, Eff.throw.
  destruct (Storage.cloudinary_destroy sdk key) as [r|m].
  - eexists [_]. split; reflexivity.
  - eexists [_; _]. split; [now rewrite <- app_assoc | reflexivity].
Qed.

(** [uploadFile] has a branch of its own for the case in which no provider
    is configured, and names the reason there. *)
Lemma uploadFile_unconfigured
    (uploadToS3 : string -> string -> option string -> Eff.M (list Storage.effect) Storage.outcome)
    (uploadToCloudinary : string -> string -> Storage.Options ->
                          Eff.M (list Storage.effect) Storage.outcome)
    (filePath key : string) (options : Storage.Options) (t : list Storage.effect) :
  Storage.s3Configured env = false ->
  Storage.cloudinaryConfigured env = false ->
  exists o,
    Storage.uploadFile env uploadToS3 uploadToCloudinary filePath key options t
    = (Eff.Ok o, t)
    /\ Storage.reportsFailureReason o.
Proof.
  intros HA HB. unfold Storage.uploadFile. rewrite HA, HB.
  eexists. split; [reflexivity|]. split; [reflexivity | now eexists].
Qed.

End DeleteFile.

(** C6, as the code has it: for every key, [deleteFile] asks every
    configured provider once, in order (S3, then Cloudinary); [results]
    holds the result object of each of them; [success] is true exactly when
    one of these has [success] true; the returned object never carries an
    [error]; and with no provider configured it is [{ success: false,
    results: [] }], with no call made. *)
Theorem deleteFile_aggregate (env : Storage.ProcessEnv) (sdk : Storage.Sdk)
    (key : string) (options : Storage.Options) (t : list Storage.effect) :
  exists (o : Storage.outcome) (evs : list Storage.effect),
    Storage.deleteFile env sdk key options t = (Eff.Ok o, t ++ evs)
    /\ filter (fun e => Storage.isSdkCall e = true) evs
       = Storage.configuredDeletes env key options
    /\ Storage.results o = Some (providerOutcomes env sdk key options)
    /\ (Storage.success o = true
        <-> exists r, In r (providerOutcomes env sdk key options)
                      /\ Storage.success r = true)
    /\ Storage.error o = None
    /\ (Storage.s3Configured env = false ->
        Storage.cloudinaryConfigured env = false ->
        o = Storage.mkOutcome false None None (Some []) /\ evs = []).
Proof.
  unfold Storage.deleteFile, Storage.configuredDeletes, providerOutcomes.
  destruct (Storage.s3Configured env) eqn:HA;
    destruct (Storage.cloudinaryConfigured env) eqn:HB; unfold Eff.bind, Eff.ret.
  - destruct (deleteFromS3_run env sdk key (Storage.bucket options) t) as (e1 & -> & F1).
    destruct (deleteFromCloudinary_run sdk key (t ++ e1)) as (e2 & -> & F2).
    eexists _, (e1 ++ e2). split; [now rewrite app_assoc|].
    split; [now rewrite filter_app, F1, F2|].
    split; [reflexivity|]. split; [| split; [reflexivity | discriminate]].
    cbn [Storage.success app]. rewrite existsb_exists. reflexivity.
  - destruct (deleteFromS3_run env sdk key (Storage.bucket options) t) as (e1 & -> & F1).
    eexists _, e1. split; [reflexivity|].
    split; [now rewrite app_nil_r|].
    split; [reflexivity|]. split; [| split; [reflexivity | discriminate]].
    cbn [Storage.success app]. rewrite existsb_exists. reflexivity.
  - destruct (deleteFromCloudinary_run sdk key t) as (e2 & -> & F2).
    eexists _, e2. split; [reflexivity|].
    split; [exact F2|].
    split; [reflexivity|]. split; [| split; [reflexivity | discriminate]].
    cbn [Storage.success app]. rewrite existsb_exists. reflexivity.
  - eexists _, []. split; [now rewrite app_nil_r|].
    split; [reflexivity|]. split; [reflexivity|].
    split; [| split; [reflexivity | intros _ _; split; reflexivity]].
    cbn. split; [discriminate | intros (r & [] & _)].
Qed.

(** C6 as stated fails in its last part: with no provider configured the
    object [deleteFile] returns has no failure reason, configuration or
    other. *)
Lemma deleteFile_unconfigured_reports_nothing :
  exists o,
    fst (Storage.deleteFile (Storage.mkEnv None None None)
           (Storage.mkSdk (fun _ _ => None) (fun _ => inl "ok"))
           "videos/abc" (Storage.mkOptions None) [])
    = Eff.Ok o
    /\ ~ Storage.reportsFailureReason o.
Proof.
  eexists. split; [vm_compute; reflexivity|].
  intros [_ [m Hm]]. discriminate Hm.
Qed.

(** ** Running the server's building blocks *)

Section Run.

Variable engine : Engine.t.

#[local] Arguments Server.invalidPaths : simpl never.
#[local] Arguments Server.versioned : simpl never.
#[local] Arguments Server.validationMessage : simpl never.

#[local] Ltac eff :=
  unfold Server.save, Server.setv, Server.axiosGet, Server.axiosPost, Server.settle,
    Server.unlinkSync, Server.existsSync, Server.findOne, Server.now, Server.emit,
    Server.formDataAppend,
    Eff.scoped, Eff.outer, Eff.local, Eff.assign, Eff.when, Eff.tryCatch, Eff.bind,
    Eff.ret, Eff.throw, Eff.gets, Eff.modify.

Lemma merge_loaded (v v' : Video.t) :
  Video.id v' = Video.id v -> Video.merge v v' v = v'.
Proof.
  intros Hid. destruct v, v'; cbn in *; subst. unfold Video.merge, Video.pick; cbn.
  repeat case_decide; subst; reflexivity.
Qed.

Lemma reconciled_id (t : Z) (job : Engine.Job) (v v' : Video.t) :
  reconciled t job v = Some v' -> Video.id v' = Video.id v.
Proof.
  unfold reconciled.
  destruct (String.eqb (Engine.status job) "completed"), (Engine.data job) as [d|];
    try destruct (Engine.encoded_files d);
    try destruct (String.eqb (Engine.status job) "error");
    intros H; inversion H; reflexivity.
Qed.

Lemma reconciled_title (t : Z) (job : Engine.Job) (v v' : Video.t) :
  reconciled t job v = Some v' -> Video.title v' = Video.title v.
Proof.
  unfold reconciled.
  destruct (String.eqb (Engine.status job) "completed"), (Engine.data job) as [d|];
    try destruct (Engine.encoded_files d);
    try destruct (String.eqb (Engine.status job) "error");
    intros H; inversion H; reflexivity.
Qed.

(** *** [save()] by cases *)

Lemma invalidPaths_kept (c b : Video.t) (n : Z) :
  Video.id c = Video.id b -> Video.title c = Video.title b ->
  Server.invalidPaths (Video.mkDoc c (Some b) n) = [].
Proof.
  intros Hid Ht. unfold Server.invalidPaths, Server.assigned. cbn.
  rewrite !bool_decide_eq_false_2 by (intros H; apply H; assumption). reflexivity.
Qed.

Lemma save_invalid (d : Video.document) (w : Server.world) :
  Server.invalidPaths d <> [] ->
  Server.save (d, w)
  = (Eff.Thrown (Server.validationMessage (Server.invalidPaths d)), (d, w)).
Proof.
  intros Hbad. eff. cbn. destruct (Server.invalidPaths d); [contradiction |].
  destruct d; reflexivity.
Qed.

Lemma save_new (d : Video.document) (w : Server.world) :
  Video.base d = None -> Server.invalidPaths d = [] ->
  Server.db w !! Video.id (Video.cur d) = None ->
  Server.save (d, w) = (Eff.Ok tt, (loaded (Video.cur d) 0, inserted (Video.cur d) w)).
Proof. intros Hb Hok Hp. eff. cbn. rewrite Hok. cbn. rewrite Hb, Hp. reflexivity. Qed.

Lemma save_taken (d : Video.document) (w : Server.world) (p : Video.t) :
  Video.base d = None -> Server.invalidPaths d = [] ->
  Server.db w !! Video.id (Video.cur d) = Some p ->
  Server.save (d, w) = (Eff.Thrown "E11000 duplicate key error", (d, w)).
Proof. intros Hb Hok Hp. eff. cbn. rewrite Hok. cbn. rewrite Hb, Hp. destruct d; reflexivity. Qed.

Lemma save_same (v p : Video.t) (n : Z) (w : Server.world) :
  Server.db w !! Video.id v = Some p ->
  Server.save (loaded v n, w) = (Eff.Ok tt, (loaded v n, w)).
Proof.
  intros Hp. unfold loaded. eff. cbn. rewrite invalidPaths_kept by reflexivity. cbn. rewrite Hp.
  rewrite bool_decide_eq_true_2 by reflexivity. reflexivity.
Qed.

(** A document whose record is gone. *)
Lemma save_gone (d : Video.document) (w : Server.world) (b : Video.t) :
  Video.base d = Some b -> Server.invalidPaths d = [] ->
  Server.db w !! Video.id (Video.cur d) = None ->
  exists e, Server.save (d, w) = (Eff.Thrown e, (d, w)).
Proof.
  intros Hb Hok Hp. eff. cbn. rewrite Hok. cbn. rewrite Hb, Hp. destruct d; eexists; reflexivity.
Qed.

(** An update that carries a version the stored document no longer has. *)
Lemma save_refused (d : Video.document) (w : Server.world) (b p : Video.t) :
  Video.base d = Some b -> Server.invalidPaths d = [] ->
  Video.cur d <> b ->
  Server.db w !! Video.id (Video.cur d) = Some p ->
  Server.versioned d = true ->
  Server.versionOf w (Video.id (Video.cur d)) <> Video.version d ->
  Server.save (d, w) = (Eff.Thrown "VersionError: No matching document found", (d, w)).
Proof.
  intros Hb Hok Hne Hp Hv Hn. eff. cbn. rewrite Hok. cbn. rewrite Hb, Hp.
  rewrite bool_decide_eq_false_2 by exact Hne. rewrite Hv.
  apply Z.eqb_neq in Hn. rewrite Hn. destruct d; reflexivity.
Qed.

(** An update that lands. *)
Lemma save_stored (d : Video.document) (w : Server.world) (b p : Video.t) :
  Video.base d = Some b -> Server.invalidPaths d = [] ->
  Video.cur d <> b ->
  Server.db w !! Video.id (Video.cur d) = Some p ->
  Video.id p = Video.id (Video.cur d) ->
  (Server.versioned d = true ->
   Server.versionOf w (Video.id (Video.cur d)) = Video.version d) ->
  Server.save (d, w)
  = (Eff.Ok tt,
     (loaded (Video.cur d)
        (if Server.versioned d then Video.version d + 1 else Video.version d),
      updated (Server.versioned d) p (Video.merge b (Video.cur d) p) w)).
Proof.
  intros Hb Hok Hne Hp Hid Hv. eff. cbn. rewrite Hok. cbn. rewrite Hb, Hp.
  rewrite bool_decide_eq_false_2 by exact Hne.
  destruct (Server.versioned d) eqn:Hver.
  - rewrite Hv by reflexivity. rewrite Z.eqb_refl. cbn.
    unfold updated, loaded, Server.set_revs, Server.set_db, Server.set_out. cbn.
    rewrite Hid, Hv by reflexivity. reflexivity.
  - cbn. reflexivity.
Qed.

(** What [save()] does to the outside, whatever the document: at most one
    write, and nothing else. *)
Lemma save_events (d : Video.document) (w : Server.world) :
  exists r d' w' evs,
    Server.save (d, w) = (r, (d', w'))
    /\ Server.out w' = Server.out w ++ evs
    /\ Forall internal evs
    /\ Server.disk w' = Server.disk w
    /\ Server.clock w' = Server.clock w
    /\ Video.id (Video.cur d') = Video.id (Video.cur d)
    /\ Video.jobId (Video.cur d') = Video.jobId (Video.cur d).
Proof.
  eff. cbn.
  destruct (Server.invalidPaths d); cbn;
    [| eexists _, _, _, []; split; [reflexivity |]; rewrite app_nil_r;
       repeat split; constructor].
  destruct (Video.base d) as [b|], (Server.db w !! Video.id (Video.cur d)) as [p|]; cbn.
  - destruct (bool_decide (Video.cur d = b)); cbn.
    { eexists _, _, _, []; split; [reflexivity |]; rewrite app_nil_r;
        repeat split; constructor. }
    destruct (Server.versioned d
              && negb (Server.versionOf w (Video.id (Video.cur d)) =? Video.version d)); cbn.
    { eexists _, _, _, []; split; [reflexivity |]; rewrite app_nil_r;
        repeat split; constructor. }
    eexists _, _, _, [_]; split; [reflexivity |].
    repeat split; repeat first [exact I | constructor].
  - eexists _, _, _, []; split; [reflexivity |]; rewrite app_nil_r;
      repeat split; constructor.
  - eexists _, _, _, []; split; [reflexivity |]; rewrite app_nil_r;
      repeat split; constructor.
  - eexists _, _, _, [_]; split; [reflexivity |].
    repeat split; repeat first [exact I | constructor].
Qed.

(** *** The update from the processor's answer *)

#[local] Arguments Server.save : simpl never.

#[local] Ltac eff' :=
  unfold Server.setv, Server.axiosGet, Server.axiosPost, Server.settle,
    Server.unlinkSync, Server.existsSync, Server.findOne, Server.now, Server.emit,
    Server.formDataAppend,
    Eff.scoped, Eff.outer, Eff.local, Eff.assign, Eff.when, Eff.tryCatch, Eff.bind,
    Eff.ret, Eff.throw, Eff.gets, Eff.modify.

(** An answer that asks for an update: the assignments, then [save()]. *)
Lemma reconcile_save (announce : bool) (job : Engine.Job) (d : Video.document)
    (w : Server.world) (v' : Video.t) :
  reconciled (Server.clock w) job (Video.cur d) = Some v' ->
  Server.reconcile announce job (d, w)
  = let '(r, (d', w')) :=
      Server.save (Video.mkDoc v' (Video.base d) (Video.version d), w) in
    match r with
    | Eff.Ok _ =>
        (Eff.Ok tt,
         (d', if announce
              then logged (Server.ConsoleLog (announcement job (Video.id (Video.cur d')))) w'
              else w'))
    | Eff.Thrown e => (Eff.Thrown e, (d', w'))
    end.
Proof.
  intros Hrec. unfold reconciled in Hrec. unfold Server.reconcile, announcement.
  destruct (String.eqb (Engine.status job) "completed") eqn:Hc,
    (Engine.data job) as [jd|];
    try destruct (Engine.encoded_files jd) as [files|];
    try destruct (String.eqb (Engine.status job) "error") eqn:He;
    try discriminate Hrec; injection Hrec as <-.
  all: try (apply String.eqb_eq in Hc; rewrite Hc in He; discriminate He).
  all: eff'; cbn.
  all: match goal with
       | |- ?L = ?R =>
           match R with
           | context [Server.save ?y] =>
               match L with
               | context [Server.save ?x] => change x with y
               end
           end
       end.
  all: match goal with
       | |- context [Server.save ?x] =>
           destruct (Server.save x) as [[[]|e] [d' w']]
       end.
  all: destruct announce; reflexivity.
Qed.

(** An answer that asks for no update: the world is left as it is,
    whether the update returns or throws. *)
Lemma reconcile_idle (announce : bool) (job : Engine.Job) (d : Video.document)
    (w : Server.world) :
  reconciled (Server.clock w) job (Video.cur d) = None ->
  exists r d',
    Server.reconcile announce job (d, w) = (r, (d', w))
    /\ Video.id (Video.cur d') = Video.id (Video.cur d)
    /\ Video.jobId (Video.cur d') = Video.jobId (Video.cur d)
    /\ (r = Eff.Ok tt -> d' = d).
Proof.
  intros Hrec. unfold reconciled in Hrec. unfold Server.reconcile.
  destruct (String.eqb (Engine.status job) "completed"), (Engine.data job) as [jd|];
    try destruct (Engine.encoded_files jd) as [files|];
    try destruct (String.eqb (Engine.status job) "error");
    try discriminate Hrec.
  all: try (exists (Eff.Ok tt), d; repeat split; destruct d; reflexivity).
  all: eexists (Eff.Thrown _), _; eff'; cbn; split; [reflexivity|];
    repeat split; discriminate.
Qed.

(** *** The guarded query *)

Lemma tryQuery_run (announce : bool) (label j : string) (d : Video.document)
    (w : Server.world) :
  tryQuery engine announce label j (d, w)
  = let w1 := afterRequest (Server.AxiosGet j) (Engine.latency (Engine.job engine j)) w in
    match Engine.settled (Engine.job engine j) with
    | inl m => (Eff.Ok tt, (d, logged (Server.ConsoleError label m) w1))
    | inr job =>
        let '(r, (d', w')) := Server.reconcile announce job (d, w1) in
        match r with
        | Eff.Ok _ => (Eff.Ok tt, (d', w'))
        | Eff.Thrown e => (Eff.Ok tt, (d', logged (Server.ConsoleError label e) w'))
        end
    end.
Proof.
  unfold tryQuery, Eff.tryCatch, Eff.bind at 1, Eff.outer at 1, Server.axiosGet,
    Eff.bind at 1, Server.emit at 1, Eff.modify at 1, Server.settle, Eff.bind at 1,
    Eff.modify at 1.
  cbn [fst snd]. cbn zeta.
  change (Server.set_clock _ _)
    with (afterRequest (Server.AxiosGet j) (Engine.latency (Engine.job engine j)) w).
  destruct (Engine.settled (Engine.job engine j)) as [m|job].
  - destruct d; reflexivity.
  - unfold Eff.ret at 1. cbn [fst snd].
    destruct (Server.reconcile announce job (_, _)) as [[[]|e] [d' w']]; reflexivity.
Qed.

Lemma tryQuery_rejected (announce : bool) (label j m : string) (d : Video.document)
    (w : Server.world) :
  Engine.settled (Engine.job engine j) = inl m ->
  tryQuery engine announce label j (d, w)
  = (Eff.Ok tt,
     (d, logged (Server.ConsoleError label m)
           (afterRequest (Server.AxiosGet j) (Engine.latency (Engine.job engine j)) w))).
Proof. intros Hm. rewrite tryQuery_run. cbn zeta. now rewrite Hm. Qed.

Lemma tryQuery_idle (announce : bool) (label j : string) (job : Engine.Job)
    (d : Video.document) (w : Server.world) :
  Engine.settled (Engine.job engine j) = inr job ->
  reconciled (Server.clock w + Engine.latency (Engine.job engine j)) job (Video.cur d)
  = None ->
  let w1 := afterRequest (Server.AxiosGet j) (Engine.latency (Engine.job engine j)) w in
  exists d' tail,
    tryQuery engine announce label j (d, w)
    = (Eff.Ok tt, (d', Server.set_out (Server.out w1 ++ tail) w1))
    /\ Forall isConsole tail
    /\ Video.id (Video.cur d') = Video.id (Video.cur d)
    /\ Video.jobId (Video.cur d') = Video.jobId (Video.cur d).
Proof.
  intros Hjob Hrec w1.
  destruct (reconcile_idle announce job d w1 Hrec) as (r & d' & Hrun & Hid & Hj & Hr).
  rewrite tryQuery_run. cbn zeta. rewrite Hjob. fold w1. rewrite Hrun.
  destruct r as [[]|e].
  - exists d', []. split; [| split; [constructor | split; assumption]].
    unfold Server.set_out, w1, afterRequest. cbn. now rewrite app_nil_r.
  - exists d', [Server.ConsoleError label e].
    split; [reflexivity | split; [repeat first [exact I | constructor] | split; assumption]].
Qed.

(** The tail of console output of an update that was saved. *)
Lemma tryQuery_saved (announce : bool) (label j : string) (job : Engine.Job)
    (d d' : Video.document) (w w' : Server.world) (v' : Video.t) :
  Engine.settled (Engine.job engine j) = inr job ->
  reconciled (Server.clock w + Engine.latency (Engine.job engine j)) job (Video.cur d)
  = Some v' ->
  let w1 := afterRequest (Server.AxiosGet j) (Engine.latency (Engine.job engine j)) w in
  Server.save (Video.mkDoc v' (Video.base d) (Video.version d), w1) = (Eff.Ok tt, (d', w')) ->
  tryQuery engine announce label j (d, w)
  = (Eff.Ok tt,
     (d', if announce
          then logged (Server.ConsoleLog (announcement job (Video.id (Video.cur d')))) w'
          else w')).
Proof.
  intros Hjob Hrec w1 Hsave. rewrite tryQuery_run. cbn zeta. rewrite Hjob. fold w1.
  rewrite (reconcile_save announce job d w1 v' Hrec), Hsave. reflexivity.
Qed.

(** An update whose [save()] throws: the error is caught and logged. *)
Lemma tryQuery_thrown (announce : bool) (label j e : string) (job : Engine.Job)
    (d d' : Video.document) (w w' : Server.world) (v' : Video.t) :
  Engine.settled (Engine.job engine j) = inr job ->
  reconciled (Server.clock w + Engine.latency (Engine.job engine j)) job (Video.cur d)
  = Some v' ->
  let w1 := afterRequest (Server.AxiosGet j) (Engine.latency (Engine.job engine j)) w in
  Server.save (Video.mkDoc v' (Video.base d) (Video.version d), w1)
  = (Eff.Thrown e, (d', w')) ->
  tryQuery engine announce label j (d, w)
  = (Eff.Ok tt, (d', logged (Server.ConsoleError label e) w')).
Proof.
  intros Hjob Hrec w1 Hsave. rewrite tryQuery_run. cbn zeta. rewrite Hjob. fold w1.
  rewrite (reconcile_save announce job d w1 v' Hrec), Hsave. reflexivity.
Qed.

Lemma internal_queries (evs : list Server.event) :
  Forall internal evs -> engineQueries evs = [] /\ submissions evs = [].
Proof.
  induction 1 as [|e evs He _ [IH1 IH2]]; [now split |].
  destruct e; try contradiction; split; cbn; assumption.
Qed.

Lemma engineQueries_app (a b : list Server.event) :
  engineQueries (a ++ b) = engineQueries a ++ engineQueries b.
Proof. unfold engineQueries. apply omap_app. Qed.

Lemma submissions_app (a b : list Server.event) :
  submissions (a ++ b) = submissions a ++ submissions b.
Proof. unfold submissions. apply omap_app. Qed.

(** Whatever the processor answers and whatever the document, the guarded
    query returns, asks once, about [j], and apart from that writes to the
    collection or to the console only. *)
Lemma tryQuery_events (announce : bool) (label j : string) (d : Video.document)
    (w : Server.world) :
  exists d' w' evs,
    tryQuery engine announce label j (d, w) = (Eff.Ok tt, (d', w'))
    /\ Server.out w' = Server.out w ++ Server.AxiosGet j :: evs
    /\ Forall internal evs
    /\ Server.disk w' = Server.disk w
    /\ Server.clock w' = Server.clock w + Engine.latency (Engine.job engine j).
Proof.
  rewrite tryQuery_run. cbn zeta.
  set (w1 := afterRequest _ _ w).
  destruct (Engine.settled (Engine.job engine j)) as [m|job].
  { eexists _, _, [_]. split; [reflexivity |]. cbn. rewrite <- app_assoc.
    repeat split. repeat first [exact I | constructor]. }
  destruct (reconciled (Server.clock w1) job (Video.cur d)) as [v'|] eqn:Hrec.
  - rewrite (reconcile_save announce job d w1 v' Hrec).
    destruct (save_events (Video.mkDoc v' (Video.base d) (Video.version d)) w1)
      as (r & d' & w' & evs & -> & Hout & Hint & Hdisk & Hclock & _).
    destruct r as [[]|e]; [destruct announce |].
    + eexists _, _, (evs ++ [_]). split; [reflexivity |]. cbn.
      rewrite Hout, Hdisk, Hclock. cbn. rewrite <- !app_assoc.
      repeat split. apply Forall_app. split; [exact Hint |].
      repeat first [exact I | constructor].
    + eexists _, _, evs. split; [reflexivity |].
      rewrite Hout, Hdisk, Hclock. cbn. rewrite <- !app_assoc. repeat split. exact Hint.
    + eexists _, _, (evs ++ [_]). split; [reflexivity |]. cbn.
      rewrite Hout, Hdisk, Hclock. cbn. rewrite <- !app_assoc.
      repeat split. apply Forall_app. split; [exact Hint |].
      repeat first [exact I | constructor].
  - destruct (reconcile_idle announce job d w1 Hrec) as (r & d' & -> & _).
    destruct r as [[]|e].
    + eexists _, _, []. split; [reflexivity |]. repeat split. constructor.
    + eexists _, _, [_]. split; [reflexivity |]. cbn. rewrite <- app_assoc.
      repeat split. repeat first [exact I | constructor].
Qed.

Lemma tryQuery_queries (announce : bool) (label j : string) (d : Video.document)
    (w : Server.world) :
  let w' := snd (snd (tryQuery engine announce label j (d, w))) in
  engineQueries (Server.out w') = engineQueries (Server.out w) ++ [j]
  /\ Server.disk w' = Server.disk w.
Proof.
  destruct (tryQuery_events announce label j d w)
    as (d' & w' & evs & -> & Hout & Hint & Hdisk & _).
  cbn [snd]. rewrite Hout, engineQueries_app.
  change (engineQueries (Server.AxiosGet j :: evs)) with (j :: engineQueries evs).
  now rewrite (proj1 (internal_queries evs Hint)).
Qed.

(** The status route once the document is loaded, by cases. *)
Lemma statusOf_skip (d : Video.document) (w : Server.world) :
  bool_decide (Video.status (Video.cur d) = processing)
  && Js.truthy (Video.jobId (Video.cur d)) = false ->
  Server.statusOf engine (d, w)
  = (Eff.Ok (Server.ResStatus (Video.id (Video.cur d)) (Video.status (Video.cur d))
               (Video.jobId (Video.cur d)) (Video.updatedAt (Video.cur d))),
     (d, w)).
Proof.
  intros Hg. unfold Server.statusOf, Eff.bind at 1, Eff.local at 1. cbn.
  rewrite Hg. destruct d. reflexivity.
Qed.

Lemma statusOf_query (d : Video.document) (w : Server.world) (j : string) :
  Video.status (Video.cur d) = processing ->
  Video.jobId (Video.cur d) = Some j -> Js.truthy (Some j) = true ->
  Server.statusOf engine (d, w)
  = let '(_, (d', w')) := tryQuery engine false "Error checking job status:" j (d, w) in
    (Eff.Ok (Server.ResStatus (Video.id (Video.cur d')) (Video.status (Video.cur d'))
               (Video.jobId (Video.cur d')) (Video.updatedAt (Video.cur d'))),
     (d', w')).
Proof.
  intros Hs Hj Ht. unfold Server.statusOf, Eff.bind at 1, Eff.local at 1. cbn.
  rewrite Hs, Hj, Ht. change (default "" (Some j)) with j.
  rewrite bool_decide_eq_true_2 by reflexivity. cbn [andb].
  unfold Eff.bind at 1. fold (tryQuery engine false "Error checking job status:" j).
  destruct (tryQuery_events false "Error checking job status:" j d w)
    as (d' & w' & evs & -> & _). reflexivity.
Qed.

(** The route itself, for a stored record. *)
Lemma getVideoStatus_found (id : string) (v : Video.t) (w : Server.world) :
  Server.db w !! id = Some v ->
  Server.getVideoStatus engine id w
  = let '(r, (_, w')) := Server.statusOf engine (loaded v (Server.versionOf w id), w) in
    match r with
    | Eff.Ok a => (Eff.Ok a, w')
    | Eff.Thrown e =>
        (Eff.Ok (Server.ResError 500 "Failed to check video status"),
         logged (Server.ConsoleError "Error checking video status:" e) w')
    end.
Proof.
  intros Hv. unfold Server.getVideoStatus, Eff.tryCatch, Eff.bind at 1, Server.findOne,
    Eff.gets. rewrite Hv. cbn [fmap option_fmap option_map]. unfold Eff.scoped.
  fold (loaded v (Server.versionOf w id)).
  destruct (Server.statusOf engine (loaded v (Server.versionOf w id), w))
    as [[a|e] [d' w']]; reflexivity.
Qed.

(** *** The upload route *)

Lemma created_valid (t : Z) (videoId : string) (req : Server.UploadRequest)
    (f : Server.File) :
  accepted req f ->
  Server.invalidPaths (Video.mkDoc (created t videoId req f) None 0)
  = if String.eqb videoId "" then ["id"] else [].
Proof.
  intros (_ & _ & Hl). unfold Server.invalidPaths, Server.assigned, created. cbn.
  destruct (Js.trim (default "" (Server.title (Server.body req)))); [contradiction |].
  cbn. now rewrite app_nil_r.
Qed.

(** An accepted upload: the record is created when the id is fresh, the
    form cannot be built, and the outer [catch] answers. *)
Lemma postVideosUpload_run (videoId : string) (req : Server.UploadRequest)
    (f : Server.File) (w : Server.world) :
  accepted req f ->
  let v0 := created (Server.clock w) videoId req f in
  let '(m, w1) :=
    if String.eqb videoId "" then (Server.validationMessage ["id"], received f w)
    else match Server.db w !! videoId with
         | Some _ => ("E11000 duplicate key error", received f w)
         | None => (Server.appendError, inserted v0 (received f w))
         end in
  Server.postVideosUpload engine videoId req w
  = (Eff.Ok (Server.ResError 500 "Failed to upload video"),
     afterUnlink (Server.path f)
       (logged (Server.ConsoleError "Error uploading video:" m) w1)).
Proof.
  intros Hacc. pose proof Hacc as (Hf & Ht & Hl). cbn zeta.
  unfold Server.postVideosUpload, Server.multerSingle, Server.uploadHandler.
  rewrite Hf. unfold Eff.bind at 1, Eff.modify at 1. unfold Eff.tryCatch at 1.
  rewrite Ht. cbn [negb orb].
  destruct (Nat.eqb_spec (String.length (Js.trim (default "" (Server.title (Server.body req))))) 0)
    as [E|_]; [contradiction|].
  unfold Eff.bind at 1, Server.now at 1, Eff.gets at 1, Eff.scoped.
  fold (created (Server.clock w) videoId req f).
  set (v0 := created (Server.clock w) videoId req f).
  fold (received f w).
  unfold Eff.bind at 1.
  change (Server.save (_, received f w))
    with (Server.save (Video.mkDoc v0 None 0, received f w)).
  pose proof (created_valid (Server.clock w) videoId req f Hacc) as Hval. fold v0 in Hval.
  destruct (String.eqb videoId "") eqn:Hid.
  { rewrite save_invalid by (rewrite Hval; discriminate). rewrite Hval.
    eff. cbn. rewrite !bool_decide_eq_true_2 by (cbn; set_solver). reflexivity. }
  destruct (Server.db w !! videoId) as [p|] eqn:Hdb.
  { rewrite (save_taken (Video.mkDoc v0 None 0) (received f w) p eq_refl Hval Hdb).
    eff. cbn. rewrite !bool_decide_eq_true_2 by (cbn; set_solver). reflexivity. }
  rewrite (save_new (Video.mkDoc v0 None 0) (received f w) eq_refl Hval Hdb).
  unfold Server.sendToProcessor.
  eff. cbn. rewrite !bool_decide_eq_true_2 by (cbn; set_solver). reflexivity.
Qed.

End Run.

(** ** One step of the sweep *)

Section Sweep.

Variable engine : Engine.t.

Lemma reconciled_status (t : Z) (job : Engine.Job) (v v' : Video.t) :
  reconciled t job v = Some v' -> Video.status v' = ready \/ Video.status v' = error.
Proof.
  unfold reconciled.
  destruct (String.eqb (Engine.status job) "completed"), (Engine.data job) as [d|];
    try destruct (Engine.encoded_files d);
    try destruct (String.eqb (Engine.status job) "error");
    intros H; inversion H; cbn; auto.
Qed.

Lemma console_internal (tail : list Server.event) :
  Forall isConsole tail -> Forall internal tail.
Proof.
  induction 1 as [|e tail He _ IH]; constructor; [| exact IH].
  destruct e; try contradiction; exact I.
Qed.

Lemma console_lawful (tail : list Server.event) :
  Forall isConsole tail -> Forall lawful tail.
Proof.
  induction 1 as [|e tail He _ IH]; constructor; [| exact IH].
  destruct e; try contradiction; exact I.
Qed.

Lemma checkOne_skip (d : Video.document) (w : Server.world) :
  Js.truthy (Video.jobId (Video.cur d)) = false ->
  Server.checkOne engine (d, w) = (Eff.Ok tt, (d, w)).
Proof.
  intros Hj. unfold Server.checkOne, Eff.bind at 1, Eff.local at 1. cbn [fst].
  rewrite Hj. destruct d. reflexivity.
Qed.

Lemma checkOne_query (d : Video.document) (w : Server.world) (j : string) :
  Video.jobId (Video.cur d) = Some j -> Js.truthy (Some j) = true ->
  Server.checkOne engine (d, w) = tryQuery engine true (checkLabel j) j (d, w).
Proof.
  intros Hj Ht. unfold Server.checkOne, Eff.bind at 1, Eff.local at 1. cbn [fst].
  rewrite Hj, Ht. change (default "" (Some j)) with j. destruct d. reflexivity.
Qed.

(** The guarded query on a document whose stored copy is still the loaded
    one, at the version it was loaded with. *)
Lemma tryQuery_loaded (announce : bool) (label j : string) (v : Video.t) (n : Z)
    (w : Server.world) :
  Server.db w !! Video.id v = Some v ->
  Server.versionOf w (Video.id v) = n ->
  exists d' w' evs,
    tryQuery engine announce label j (loaded v n, w) = (Eff.Ok tt, (d', w'))
    /\ Server.out w' = Server.out w ++ evs
    /\ Server.disk w' = Server.disk w
    /\ Server.db w' = <[Video.id v := answered engine j (Server.clock w) v]> (Server.db w)
    /\ (forall k, k <> Video.id v -> Server.revs w' !! k = Server.revs w !! k)
    /\ (Video.status v = processing -> Forall lawful evs)
    /\ engineQueries evs = [j]
    /\ submissions evs = []
    /\ Server.clock w' = Server.clock w + Engine.latency (Engine.job engine j)
    /\ (forall m, Engine.settled (Engine.job engine j) = inl m ->
                  In (Server.ConsoleError label m) evs).
Proof.
  intros Hv Hn. unfold answered. cbn zeta.
  set (lat := Engine.latency (Engine.job engine j)).
  set (w1 := afterRequest (Server.AxiosGet j) lat w).
  destruct (Engine.settled (Engine.job engine j)) as [m|job] eqn:Hset.
  - rewrite (tryQuery_rejected engine announce label j m (loaded v n) w Hset).
    eexists _, _, [_; _]. split; [reflexivity|].
    split; [cbn; now rewrite <- app_assoc|].
    split; [reflexivity|]. split; [cbn; now rewrite insert_id|].
    split; [reflexivity|].
    split; [intros _; repeat constructor|]. split; [reflexivity|].
    split; [reflexivity|]. split; [reflexivity|].
    intros m' Hm'. injection Hm' as <-. right. now left.
  - destruct (reconciled (Server.clock w + lat) job v) as [v'|] eqn:Hrec.
    + pose proof (reconciled_id _ _ _ _ Hrec) as Hid.
      pose proof (reconciled_title _ _ _ _ Hrec) as Htitle.
      destruct (decide (v' = v)) as [-> | Hne].
      * rewrite (tryQuery_saved engine announce label j job (loaded v n) (loaded v n)
                   w w1 v Hset Hrec).
        2:{ apply (save_same v v n w1). exact Hv. }
        destruct announce.
        -- eexists _, _, [_; _]. split; [reflexivity|].
           split; [cbn; now rewrite <- app_assoc|].
           split; [reflexivity|]. split; [cbn; now rewrite insert_id|].
           split; [reflexivity|].
           split; [intros _; repeat constructor|]. split; [reflexivity|].
           split; [reflexivity|]. split; [reflexivity|].
           intros m' Hm'. discriminate.
        -- eexists _, _, [_]. split; [reflexivity|].
           split; [reflexivity|].
           split; [reflexivity|]. split; [cbn; now rewrite insert_id|].
           split; [reflexivity|].
           split; [intros _; repeat constructor|]. split; [reflexivity|].
           split; [reflexivity|]. split; [reflexivity|].
           intros m' Hm'. discriminate.
      * assert (Hsave : Server.save (Video.mkDoc v' (Some v) n, w1)
                        = (Eff.Ok tt,
                           (loaded v' (if Server.versioned (Video.mkDoc v' (Some v) n)
                                       then n + 1 else n),
                            updated (Server.versioned (Video.mkDoc v' (Some v) n)) v v' w1))).
        { rewrite (save_stored (Video.mkDoc v' (Some v) n) w1 v v).
          - cbn [Video.cur Video.version]. now rewrite merge_loaded.
          - reflexivity.
          - now apply invalidPaths_kept.
          - exact Hne.
          - cbn. now rewrite Hid.
          - cbn. now symmetry.
          - intros _. cbn. rewrite Hid. exact Hn. }
        rewrite (tryQuery_saved engine announce label j job (loaded v n) _ w _ v'
                   Hset Hrec Hsave).
        set (bump := Server.versioned _).
        assert (Hrevs : forall k, k <> Video.id v ->
                   Server.revs (updated bump v v' w1) !! k = Server.revs w !! k).
        { intros k Hk. unfold updated. destruct bump; cbn; [| reflexivity].
          rewrite Hid. now apply lookup_insert_ne. }
        assert (Hlaw : Video.status v = processing ->
                       lawful (Server.DbWrite (Some v) v')).
        { intros Hs. cbn. right. rewrite Hs.
          destruct (reconciled_status _ _ _ _ Hrec) as [-> | ->]; constructor. }
        destruct announce.
        -- eexists _, _, [_; _; _]. split; [reflexivity|].
           split; [cbn; now rewrite <- !app_assoc|].
           split; [reflexivity|]. split; [cbn; now rewrite Hid|].
           split; [exact Hrevs|].
           split; [intros Hs; constructor; [exact I |];
                   constructor; [now apply Hlaw |]; repeat first [exact I | constructor] |].
           split; [reflexivity|].
           split; [reflexivity|]. split; [reflexivity|].
           intros m' Hm'. discriminate.
        -- eexists _, _, [_; _]. split; [reflexivity|].
           split; [cbn; now rewrite <- !app_assoc|].
           split; [reflexivity|]. split; [cbn; now rewrite Hid|].
           split; [exact Hrevs|].
           split; [intros Hs; constructor; [exact I |];
                   constructor; [now apply Hlaw |]; repeat first [exact I | constructor] |].
           split; [reflexivity|].
           split; [reflexivity|]. split; [reflexivity|].
           intros m' Hm'. discriminate.
    + destruct (tryQuery_idle engine announce label j job (loaded v n) w Hset Hrec)
        as (d' & tail & Hrun & Htail & _).
      rewrite Hrun. eexists _, _, (_ :: tail). split; [reflexivity|].
      split; [cbn; now rewrite <- app_assoc|].
      split; [reflexivity|]. split; [cbn; now rewrite insert_id|].
      split; [reflexivity|].
      split; [intros _; constructor; [exact I | now apply console_lawful] |].
      pose proof (internal_queries tail (console_internal tail Htail)) as [Hq Hs].
      split; [change (engineQueries (Server.AxiosGet j :: tail))
                with (j :: engineQueries tail); now rewrite Hq |].
      split; [exact Hs |]. split; [reflexivity |].
      intros m' Hm'. discriminate.
Qed.

Lemma polled_answered (t : Z) (v : Video.t) (j : string) :
  Video.jobId v = Some j -> Js.truthy (Some j) = true ->
  polled engine t v = answered engine j t v.
Proof. intros Hj Ht. unfold polled. rewrite Hj, Ht. reflexivity. Qed.

(** The visit of one loaded record whose stored copy is still the loaded
    one. *)
Lemma checkOne_loaded (v : Video.t) (n : Z) (w : Server.world) :
  Server.db w !! Video.id v = Some v ->
  Server.versionOf w (Video.id v) = n ->
  exists w' evs,
    Eff.scoped (loaded v n) (Server.checkOne engine) w = (Eff.Ok tt, w')
    /\ Server.out w' = Server.out w ++ evs
    /\ Server.disk w' = Server.disk w
    /\ Server.db w' = <[Video.id v := polled engine (Server.clock w) v]> (Server.db w)
    /\ (forall k, k <> Video.id v -> Server.revs w' !! k = Server.revs w !! k)
    /\ (Video.status v = processing -> Forall lawful evs)
    /\ engineQueries evs
       = (if Js.truthy (Video.jobId v) then [default "" (Video.jobId v)] else [])
    /\ submissions evs = []
    /\ Server.clock w'
       = Server.clock w
         + (if Js.truthy (Video.jobId v)
            then Engine.latency (Engine.job engine (default "" (Video.jobId v))) else 0)
    /\ (forall j m, Video.jobId v = Some j -> Js.truthy (Some j) = true ->
                    Engine.settled (Engine.job engine j) = inl m ->
                    In (Server.ConsoleError (checkLabel j) m) evs).
Proof.
  intros Hv Hn. unfold Eff.scoped.
  destruct (Js.truthy (Video.jobId v)) eqn:Ht.
  2:{ rewrite checkOne_skip by exact Ht. exists w, [].
      split; [reflexivity|]. split; [now rewrite app_nil_r|].
      split; [reflexivity|].
      split; [unfold polled; rewrite Ht; now rewrite insert_id|].
      split; [reflexivity|].
      split; [intros _; constructor|]. split; [reflexivity|].
      split; [reflexivity|]. split; [lia|].
      intros j m Hj Htj. rewrite Hj in Ht. congruence. }
  destruct (Video.jobId v) as [j|] eqn:Hj; [| discriminate Ht].
  rewrite (checkOne_query (loaded v n) w j Hj Ht).
  destruct (tryQuery_loaded true (checkLabel j) j v n w Hv Hn)
    as (d' & w' & evs & Hrun & Hout & Hdisk & Hdb & Hrevs & Hlaw & Hq & Hsub & Hclock & Hlog).
  rewrite Hrun. exists w', evs. split; [reflexivity|]. split; [exact Hout|].
  split; [exact Hdisk|].
  split; [now rewrite (polled_answered _ _ j Hj Ht)|].
  split; [exact Hrevs|].
  split; [exact Hlaw|]. split; [exact Hq|]. split; [exact Hsub|].
  split; [exact Hclock|].
  intros j' m Hj' _ Hm. injection Hj' as <-. now apply Hlog.
Qed.

(** The loop over the records loaded from [w0], as long as their stored
    copies are the loaded ones. *)
Lemma checkLoaded_run (vs : list Video.t) (w0 w : Server.world) :
  NoDup (Video.id <$> vs) ->
  (forall v, v ∈ vs ->
     Server.db w !! Video.id v = Some v
     /\ Server.revs w !! Video.id v = Server.revs w0 !! Video.id v) ->
  exists w' evs,
    Server.checkLoaded engine (loadedFrom w0 <$> vs) w = (Eff.Ok tt, w')
    /\ Server.out w' = Server.out w ++ evs
    /\ Server.disk w' = Server.disk w
    /\ (forall k, k ∉ Video.id <$> vs ->
          Server.db w' !! k = Server.db w !! k /\ Server.revs w' !! k = Server.revs w !! k)
    /\ (forall v, v ∈ vs -> exists t, Server.db w' !! Video.id v = Some (polled engine t v))
    /\ ((forall v, v ∈ vs -> Video.status v = processing) -> Forall lawful evs)
    /\ engineQueries evs = jobsOf vs
    /\ submissions evs = []
    /\ (forall v j m, v ∈ vs -> Video.jobId v = Some j -> Js.truthy (Some j) = true ->
                      Engine.settled (Engine.job engine j) = inl m ->
                      In (Server.ConsoleError (checkLabel j) m) evs).
Proof.
  revert w. induction vs as [|v vs IH]; intros w Hnd Hdb.
  { exists w, []. split; [reflexivity|]. split; [now rewrite app_nil_r|].
    split; [reflexivity|]. split; [now split|].
    split; [intros v Hin; inversion Hin|]. split; [constructor|].
    split; [reflexivity|]. split; [reflexivity|].
    intros v j m Hin; inversion Hin. }
  rewrite fmap_cons in Hnd. apply NoDup_cons in Hnd as [Hfresh Hnd].
  destruct (checkOne_loaded v (Server.versionOf w0 (Video.id v)) w)
    as (w1 & evs1 & Hrun1 & Hout1 & Hdisk1 & Hdb1 & Hrevs1 & Hlaw1 & Hq1 & Hsub1 & _ & Hlog1).
  { apply Hdb. left. }
  { unfold Server.versionOf. f_equal. apply Hdb. left. }
  assert (Hdb' : forall v', v' ∈ vs ->
             Server.db w1 !! Video.id v' = Some v'
             /\ Server.revs w1 !! Video.id v' = Server.revs w0 !! Video.id v').
  { intros v' Hin.
    assert (Hne : Video.id v' <> Video.id v).
    { intros E. apply Hfresh. rewrite <- E. now apply list_elem_of_fmap_2. }
    rewrite Hdb1, lookup_insert_ne by (intros E; now apply Hne).
    rewrite (Hrevs1 _ Hne). apply Hdb. now right. }
  destruct (IH w1 Hnd Hdb')
    as (w' & evs & Hrun & Hout & Hdisk & Hoth & Hvis & Hlaw & Hq & Hsub & Hlog).
  exists w', (evs1 ++ evs).
  split.
  { unfold Server.checkLoaded in *. rewrite fmap_cons. cbn [Eff.forOf].
    unfold Eff.bind at 1. unfold loadedFrom at 1. rewrite Hrun1. exact Hrun. }
  split; [now rewrite Hout, Hout1, app_assoc|].
  split; [now rewrite Hdisk, Hdisk1|].
  split.
  { intros k Hk. rewrite fmap_cons in Hk. apply not_elem_of_cons in Hk as [Hne Hk].
    destruct (Hoth k Hk) as [-> ->]. rewrite Hdb1, (Hrevs1 _ Hne).
    split; [now apply lookup_insert_ne | reflexivity]. }
  split.
  { intros v' Hin. apply elem_of_cons in Hin as [-> | Hin]; [| now apply Hvis].
    exists (Server.clock w). rewrite (proj1 (Hoth _ Hfresh)), Hdb1. apply lookup_insert_eq. }
  split.
  { intros Hall. apply Forall_app. split.
    - apply Hlaw1, Hall. left.
    - apply Hlaw. intros v' Hin. apply Hall. now right. }
  split.
  { rewrite engineQueries_app, Hq1, Hq. reflexivity. }
  split.
  { rewrite submissions_app, Hsub1, Hsub. reflexivity. }
  intros v' j m Hin Hj Ht Hm. apply in_or_app.
  apply elem_of_cons in Hin as [-> | Hin].
  - left. now apply Hlog1.
  - right. now apply (Hlog v').
Qed.

(** What [find] loads from a collection whose records sit under their own
    ids. *)
Lemma processingOf_spec (m : gmap string Video.t) (v : Video.t) :
  keyed m ->
  v ∈ processingOf m <-> m !! Video.id v = Some v /\ Video.status v = processing.
Proof.
  intros Hk. unfold processingOf. rewrite list_elem_of_fmap. split.
  - intros ([k v'] & -> & Hin). apply list_elem_of_filter in Hin as [Hs Hin].
    apply elem_of_map_to_list in Hin. cbn in *.
    rewrite (Hk k v' Hin). split; assumption.
  - intros [Hv Hs]. exists (Video.id v, v). split; [reflexivity|].
    apply list_elem_of_filter. split; [exact Hs | now apply elem_of_map_to_list].
Qed.

Lemma processingOf_NoDup (m : gmap string Video.t) :
  keyed m -> NoDup (Video.id <$> processingOf m).
Proof.
  intros Hk. unfold processingOf. rewrite <- list_fmap_compose.
  set (l := filter _ _).
  assert (Heq : Video.id ∘ snd <$> l = fst <$> l).
  { apply list_fmap_ext. intros i [k v] Hi. cbn.
    apply list_elem_of_lookup_2 in Hi. apply list_elem_of_filter in Hi as [_ Hi].
    apply elem_of_map_to_list in Hi. exact (Hk k v Hi). }
  rewrite Heq. apply (sublist_NoDup _ ((map_to_list m).*1)).
  - apply NoDup_fst_map_to_list.
  - apply fmap_sublist. apply sublist_filter.
Qed.

Lemma findProcessing_run (w : Server.world) :
  keyed (Server.db w) ->
  Server.findProcessing w = (Eff.Ok (loadedFrom w <$> processingOf (Server.db w)), w).
Proof.
  intros Hk. unfold Server.findProcessing, Eff.gets, processingOf.
  rewrite <- list_fmap_compose. f_equal. f_equal.
  apply list_fmap_ext. intros i [k v] Hi. cbn.
  apply list_elem_of_lookup_2 in Hi. apply list_elem_of_filter in Hi as [_ Hi].
  apply elem_of_map_to_list in Hi. unfold loadedFrom, loaded. now rewrite (Hk k v Hi).
Qed.

Lemma checkProcessingJobs_run (w w' : Server.world) :
  keyed (Server.db w) ->
  Server.checkLoaded engine (loadedFrom w <$> processingOf (Server.db w)) w
  = (Eff.Ok tt, w') ->
  Server.checkProcessingJobs engine w = (Eff.Ok tt, w').
Proof.
  intros Hk Hrun. unfold Server.checkProcessingJobs, Eff.tryCatch, Eff.bind.
  now rewrite (findProcessing_run w Hk), Hrun.
Qed.

(** One sweep over a collection whose records sit under their ids. *)
Lemma sweep_run (w : Server.world) :
  keyed (Server.db w) ->
  let vs := processingOf (Server.db w) in
  exists w' evs,
    Server.checkProcessingJobs engine w = (Eff.Ok tt, w')
    /\ Server.out w' = Server.out w ++ evs
    /\ Server.disk w' = Server.disk w
    /\ (forall k, k ∉ Video.id <$> vs ->
          Server.db w' !! k = Server.db w !! k /\ Server.revs w' !! k = Server.revs w !! k)
    /\ (forall v, v ∈ vs -> exists t, Server.db w' !! Video.id v = Some (polled engine t v))
    /\ Forall lawful evs
    /\ engineQueries evs = jobsOf vs
    /\ submissions evs = []
    /\ (forall v j m, v ∈ vs -> Video.jobId v = Some j -> Js.truthy (Some j) = true ->
                      Engine.settled (Engine.job engine j) = inl m ->
                      In (Server.ConsoleError (checkLabel j) m) evs).
Proof.
  intros Hk vs.
  destruct (checkLoaded_run vs w w (processingOf_NoDup _ Hk))
    as (w' & evs & Hrun & Hout & Hdisk & Hoth & Hvis & Hlaw & Hq & Hsub & Hlog).
  { intros v Hin. apply processingOf_spec in Hin as [Hv _]; [| exact Hk]. now split. }
  exists w', evs. split; [now apply checkProcessingJobs_run |].
  split; [exact Hout |]. split; [exact Hdisk |]. split; [exact Hoth |].
  split; [exact Hvis |]. split.
  { apply Hlaw. intros v Hin. now apply processingOf_spec in Hin as [_ Hs]. }
  split; [exact Hq |]. split; [exact Hsub |]. exact Hlog.
Qed.

End Sweep.

(** ** The status route *)

(** C10: for a stored record in [processing] whose [jobId] is unset (or
    empty), the status route answers with the stored status and leaves the
    world as it was: no request to the processor, no write, no log. *)
Theorem status_query_without_job (engine : Engine.t) (w : Server.world)
    (id : string) (v : Video.t) :
  Server.db w !! id = Some v ->
  Video.status v = processing ->
  Js.truthy (Video.jobId v) = false ->
  Server.getVideoStatus engine id w
  = (Eff.Ok (Server.ResStatus (Video.id v) processing (Video.jobId v) (Video.updatedAt v)),
     w).
Proof.
  intros Hv Hs Hj. rewrite (getVideoStatus_found engine id v w Hv).
  rewrite statusOf_skip; cbn; [now rewrite Hs | now rewrite Hj, andb_false_r].
Qed.

(** C8, as the code has it: for a stored record in [processing] with a
    non-empty [jobId], the status route sends one query to the processor,
    for that job, whatever the answer; when the query is rejected the route
    logs the error, leaves collection and files as they were, and answers
    with the stored status. *)
Theorem status_query_engine_error (engine : Engine.t) (w : Server.world)
    (id j : string) (v : Video.t) :
  Server.db w !! id = Some v ->
  Video.status v = processing ->
  Video.jobId v = Some j ->
  Js.truthy (Some j) = true ->
  let r := Server.getVideoStatus engine id w in
  engineQueries (Server.out (snd r)) = engineQueries (Server.out w) ++ [j]
  /\ (forall m : string,
         Engine.settled (Engine.job engine j) = inl m ->
         fst r = Eff.Ok (Server.ResStatus (Video.id v) processing (Some j)
                           (Video.updatedAt v))
         /\ Server.out (snd r)
            = Server.out w ++ [Server.AxiosGet j;
                               Server.ConsoleError "Error checking job status:" m]
         /\ Server.db (snd r) = Server.db w
         /\ Server.disk (snd r) = Server.disk w).
Proof.
  intros Hv Hs Hj Ht. cbn zeta. rewrite (getVideoStatus_found engine id v w Hv).
  set (d := loaded v (Server.versionOf w id)).
  rewrite (statusOf_query engine d w j Hs Hj Ht). split.
  - pose proof (tryQuery_queries engine false "Error checking job status:" j d w) as [Hq _].
    cbn zeta in Hq.
    destruct (tryQuery engine false "Error checking job status:" j (d, w))
      as [r [d' w']].
    exact Hq.
  - intros m Hm.
    rewrite (tryQuery_rejected engine false _ j m d w Hm). cbn.
    rewrite Hs, Hj, <- app_assoc. repeat split; reflexivity.
Qed.

(** A use of C10: the record [stuck] of [world0]. *)
Lemma status_query_without_job_witness :
  Server.getVideoStatus downEngine "v2" world0
  = (Eff.Ok (Server.ResStatus "v2" processing None 1100), world0).
Proof.
  apply (status_query_without_job downEngine world0 "v2" stuck).
  - vm_compute. reflexivity.
  - reflexivity.
  - reflexivity.
Defined.

(** A use of C8: the record [clip] of [world0] while the processor is down. *)
Lemma status_query_engine_error_witness :
  let r := Server.getVideoStatus downEngine "v1" world0 in
  engineQueries (Server.out (snd r)) = engineQueries (Server.out world0) ++ ["job-42"]
  /\ (forall m : string,
         Engine.settled (Engine.job downEngine "job-42") = inl m ->
         fst r = Eff.Ok (Server.ResStatus "v1" processing (Some "job-42") 1000)
         /\ Server.out (snd r)
            = Server.out world0
              ++ [Server.AxiosGet "job-42";
                  Server.ConsoleError "Error checking job status:" m]
         /\ Server.db (snd r) = Server.db world0
         /\ Server.disk (snd r) = Server.disk world0).
Proof.
  apply (status_query_engine_error downEngine world0 "v1" "job-42" clip).
  - vm_compute. reflexivity.
  - reflexivity.
  - reflexivity.
  - reflexivity.
Defined.

(** C8 as stated fails for a record in [processing] without a [jobId]: the
    status route sends no query to the processor. *)
Lemma status_query_unset_job_sends_nothing :
  Server.db world0 !! "v2" = Some stuck
  /\ Video.status stuck = processing
  /\ engineQueries (Server.out (snd (Server.getVideoStatus doneEngine "v2" world0))) = [].
Proof. repeat split; vm_compute; reflexivity. Qed.

(** ** The upload route *)

Lemma unlinked_gone (p : string) (w : Server.world) :
  p ∉ Server.disk (afterUnlink p w).
Proof.
  cbn. intros H. apply elem_of_difference in H as [_ H].
  apply H. now apply elem_of_singleton.
Qed.

(** C3, what the code does: for an accepted upload with a fresh id (an id
    drawn by [uuidv4] is not empty), in front of a processor that would
    reject the submission, the route does not get as far as the
    submission: building the form throws, the outer [catch]
    answers 500 ['Failed to upload video'], and the record created before
    stays stored in [uploading], with no [jobId] and the dates of its
    creation; nothing is sent to the processor and no time is spent on it.
    The uploaded file is removed. *)
Theorem upload_rejected (engine : Engine.t) (w : Server.world) (videoId m : string)
    (req : Server.UploadRequest) (f : Server.File) :
  accepted req f ->
  videoId <> "" ->
  Server.db w !! videoId = None ->
  Engine.settled (Engine.process engine (Server.path f)) = inl m ->
  let r := Server.postVideosUpload engine videoId req w in
  fst r = Eff.Ok (Server.ResError 500 "Failed to upload video")
  /\ Server.db (snd r)
     = <[videoId :=
           Video.mk videoId (Js.trim (default "" (Server.title (Server.body req))))
             (default "" (Js.trim <$> Server.description (Server.body req)))
             (Some (Server.originalname f)) uploading None None None [] None
             (Server.clock w) (Server.clock w)]> (Server.db w)
  /\ (Server.path f ∉ Server.disk (snd r))
  /\ submissions (Server.out (snd r)) = submissions (Server.out w)
  /\ Server.clock (snd r) = Server.clock w.
Proof.
  intros Hacc Hid Hfresh Hm. cbn zeta.
  pose proof (postVideosUpload_run engine videoId req f w Hacc) as Hrun. cbn zeta in Hrun.
  apply String.eqb_neq in Hid. rewrite Hid, Hfresh in Hrun. rewrite Hrun.
  split; [reflexivity |]. split; [reflexivity |].
  split; [apply unlinked_gone |]. split; [| reflexivity].
  cbn. rewrite !submissions_app. cbn. now rewrite !app_nil_r.
Qed.

(** The upload of [clip.mp4] at 1000 ms while the processor is down. *)
Lemma upload_rejected_witness :
  let r := Server.postVideosUpload downEngine "v9" clipUpload emptyWorld in
  fst r = Eff.Ok (Server.ResError 500 "Failed to upload video")
  /\ Server.db (snd r)
     = <["v9" := Video.mk "v9" "Clip" "" (Some "clip.mp4") uploading None None None []
                   None 1000 1000]> (Server.db emptyWorld)
  /\ ("uploads/video-1.mp4" ∉ Server.disk (snd r))
  /\ submissions (Server.out (snd r)) = submissions (Server.out emptyWorld)
  /\ Server.clock (snd r) = Server.clock emptyWorld.
Proof.
  apply (upload_rejected downEngine emptyWorld "v9" "timeout of 30000ms exceeded"
           clipUpload (Server.mkFile "uploads/video-1.mp4" "clip.mp4")).
  - repeat split; [vm_compute; discriminate].
  - discriminate.
  - reflexivity.
  - reflexivity.
Defined.

(** C4, what the code does: for an accepted upload with a fresh id (an id
    drawn by [uuidv4] is not empty), in front of a processor that would
    accept the submission as job [j], the route does not get as far as the
    submission: building the form throws, the
    outer [catch] answers 500 ['Failed to upload video'], and the record
    created before stays stored in [uploading], without [jobId] and with the
    dates of its creation; nothing is sent to the processor. The uploaded
    file is removed. *)
Theorem upload_submitted (engine : Engine.t) (w : Server.world) (videoId j : string)
    (req : Server.UploadRequest) (f : Server.File) :
  accepted req f ->
  videoId <> "" ->
  Server.db w !! videoId = None ->
  Engine.settled (Engine.process engine (Server.path f))
  = inr (Engine.mkSubmitted (Some j)) ->
  let r := Server.postVideosUpload engine videoId req w in
  fst r = Eff.Ok (Server.ResError 500 "Failed to upload video")
  /\ (exists v,
        Server.db (snd r) !! videoId = Some v
        /\ Video.status v = uploading
        /\ Video.jobId v = None
        /\ Video.updatedAt v = Server.clock w)
  /\ (Server.path f ∉ Server.disk (snd r))
  /\ submissions (Server.out (snd r)) = submissions (Server.out w)
  /\ Server.clock (snd r) = Server.clock w.
Proof.
  intros Hacc Hid Hfresh Hm. cbn zeta.
  pose proof (postVideosUpload_run engine videoId req f w Hacc) as Hrun. cbn zeta in Hrun.
  apply String.eqb_neq in Hid. rewrite Hid, Hfresh in Hrun. rewrite Hrun.
  split; [reflexivity |].
  split; [eexists; split; [cbn; apply lookup_insert_eq | repeat split] |].
  split; [apply unlinked_gone |]. split; [| reflexivity].
  cbn. rewrite !submissions_app. cbn. now rewrite !app_nil_r.
Qed.

(** The upload of [clip.mp4] at 1000 ms, in front of a processor that
    accepts every file as [job-42]. *)
Lemma upload_submitted_witness :
  let r := Server.postVideosUpload doneEngine "v9" clipUpload emptyWorld in
  fst r = Eff.Ok (Server.ResError 500 "Failed to upload video")
  /\ (exists v,
        Server.db (snd r) !! "v9" = Some v
        /\ Video.status v = uploading
        /\ Video.jobId v = None
        /\ Video.updatedAt v = 1000)
  /\ ("uploads/video-1.mp4" ∉ Server.disk (snd r))
  /\ submissions (Server.out (snd r)) = submissions (Server.out emptyWorld)
  /\ Server.clock (snd r) = Server.clock emptyWorld.
Proof.
  apply (upload_submitted doneEngine emptyWorld "v9" "job-42"
           clipUpload (Server.mkFile "uploads/video-1.mp4" "clip.mp4")).
  - repeat split; [vm_compute; discriminate].
  - discriminate.
  - reflexivity.
  - reflexivity.
Defined.

(** ** The background sweep *)

Section Pending.

Variable engine : Engine.t.
Variable pending : string -> bool.

(** When no request of the sweep is pending, the loop is the loop. *)
Lemma checkLoadedPending_settled (docs : list Video.document) (w : Server.world) :
  Forall (fun d => Server.awaited pending d = false) docs ->
  Server.checkLoadedPending engine pending docs w
  = match Server.checkLoaded engine docs w with
    | (Eff.Ok _, w') => (Eff.Ok (Some tt), w')
    | (Eff.Thrown e, w') => (Eff.Thrown e, w')
    end.
Proof.
  intros H. revert w. induction H as [|d docs Hd _ IH]; intros w; [reflexivity|].
  cbn [Server.checkLoadedPending]. rewrite Hd. unfold Server.checkLoaded.
  cbn [Eff.forOf]. unfold Eff.bind at 1.
  destruct (Eff.scoped d (Server.checkOne engine) w) as [[[]|e] w1];
    [apply IH | reflexivity].
Qed.

(** The loop stops at the first pending request, once it is sent. *)
Lemma checkLoadedPending_stalled (before after : list Video.document)
    (d : Video.document) (w w1 : Server.world) :
  Forall (fun d => Server.awaited pending d = false) before ->
  Server.awaited pending d = true ->
  Server.checkLoaded engine before w = (Eff.Ok tt, w1) ->
  Server.checkLoadedPending engine pending (before ++ d :: after) w
  = (Eff.Ok None,
     logged (Server.AxiosGet (default "" (Video.jobId (Video.cur d)))) w1).
Proof.
  intros H Hd. revert w. induction H as [|b before Hb _ IH]; intros w Hrun.
  - injection Hrun as <-. cbn [app Server.checkLoadedPending]. now rewrite Hd.
  - cbn [app Server.checkLoadedPending]. rewrite Hb.
    unfold Server.checkLoaded in Hrun. cbn [Eff.forOf] in Hrun.
    unfold Eff.bind at 1 in Hrun.
    destruct (Eff.scoped b (Server.checkOne engine) w) as [[[]|e] w2];
      [now apply IH | discriminate Hrun].
Qed.

(** With every request settling, the sweep is [checkProcessingJobs]. *)
Lemma checkProcessingJobsPending_settled (w : Server.world) :
  (forall j, pending j = false) ->
  Server.checkProcessingJobsPending engine pending w
  = (Some tt, snd (Server.checkProcessingJobs engine w)).
Proof.
  intros Hp.
  unfold Server.checkProcessingJobsPending, Server.checkProcessingJobs, Eff.tryCatch,
    Eff.bind at 1, Server.findProcessing, Eff.gets. cbn [fst snd].
  rewrite checkLoadedPending_settled.
  - destruct (Server.checkLoaded engine _ w) as [[[]|e] w']; reflexivity.
  - apply Forall_forall. intros d _. unfold Server.awaited. rewrite Hp. apply andb_false_r.
Qed.

End Pending.

Lemma jobsOf_In (vs : list Video.t) (v : Video.t) (j : string) :
  v ∈ vs -> Video.jobId v = Some j -> Js.truthy (Some j) = true -> In j (jobsOf vs).
Proof.
  intros Hin Hj Ht. unfold jobsOf. apply in_flat_map. exists v.
  split; [now apply list_elem_of_In |]. rewrite Hj, Ht. now left.
Qed.

(** C9, as the code has it. One run of [checkProcessingJobs] over a
    collection whose records sit under their own ids, where [pending] tells
    which requests to the processor never settle (the code gives
    [axios.get] no timeout). When no request of the run is pending, the run
    returns, and for every record it loaded (every stored record in
    [processing]), whatever the processor answers about the others: a
    record without a job is left as it was; the query for a record's job is
    sent; when that query is rejected, the rejection is logged and the
    record stays as it was; when it is answered, the stored record is the
    update from that answer (or the record itself when the answer asks for
    none). When the request for the job of a loaded record is pending, the
    run does not return: the records before it in the loop have been
    queried, the pending request is the last one sent, and that record and
    every record after it in the loop stay as they were. *)
Theorem sweep_isolates_failures (engine : Engine.t) (pending : string -> bool)
    (w : Server.world) :
  keyed (Server.db w) ->
  let r := Server.checkProcessingJobsPending engine pending w in
  let vs := processingOf (Server.db w) in
  ((forall v, v ∈ vs -> Server.awaited pending (loadedFrom w v) = false) ->
   exists evs,
     fst r = Some tt
     /\ Server.out (snd r) = Server.out w ++ evs
     /\ forall (id : string) (v : Video.t),
          Server.db w !! id = Some v ->
          Video.status v = processing ->
          (Js.truthy (Video.jobId v) = false -> Server.db (snd r) !! id = Some v)
          /\ forall j : string,
               Video.jobId v = Some j -> Js.truthy (Some j) = true ->
               In j (engineQueries evs)
               /\ (forall m, Engine.settled (Engine.job engine j) = inl m ->
                             In (Server.ConsoleError (checkLabel j) m) evs
                             /\ Server.db (snd r) !! id = Some v)
               /\ (forall job, Engine.settled (Engine.job engine j) = inr job ->
                               exists t, Server.db (snd r) !! id
                                         = Some (default v (reconciled t job v))))
  /\ (forall (before after : list Video.t) (v : Video.t),
         vs = before ++ v :: after ->
         (forall u, u ∈ before -> Server.awaited pending (loadedFrom w u) = false) ->
         Server.awaited pending (loadedFrom w v) = true ->
         exists evs,
           fst r = None
           /\ Server.out (snd r) = Server.out w ++ evs
           /\ engineQueries evs = jobsOf before ++ [default "" (Video.jobId v)]
           /\ forall u, u ∈ v :: after -> Server.db (snd r) !! Video.id u = Some u).
Proof.
  intros Hk. cbn zeta. unfold Server.checkProcessingJobsPending.
  rewrite (findProcessing_run w Hk). split.
  - intros Hsettle.
    rewrite checkLoadedPending_settled
      by (apply Forall_fmap, Forall_forall; intros v Hin; now apply Hsettle).
    destruct (checkLoaded_run engine (processingOf (Server.db w)) w w
                (processingOf_NoDup _ Hk))
      as (w' & evs & Hrun & Hout & _ & _ & Hvis & _ & Hq & _ & Hlog).
    { intros v Hin. apply processingOf_spec in Hin as [Hv _]; [| exact Hk]. now split. }
    rewrite Hrun. exists evs. split; [reflexivity|]. split; [exact Hout|].
    intros id v Hv Hs. cbn [snd].
    assert (Hid : Video.id v = id) by exact (Hk id v Hv).
    assert (Hin : v ∈ processingOf (Server.db w)).
    { apply processingOf_spec; [exact Hk|]. rewrite Hid. split; assumption. }
    destruct (Hvis v Hin) as (t & Ht').
    rewrite Hid in Ht'. unfold polled in Ht'. split.
    + intros Hj. now rewrite Hj in Ht'.
    + intros j Hj Ht. rewrite Hj, Ht in Ht'.
      change (default "" (Some j)) with j in Ht'. unfold answered in Ht'. cbn zeta in Ht'.
      split; [rewrite Hq; now apply (jobsOf_In _ v)|]. split.
      * intros m Hm. split; [now apply (Hlog v)|]. now rewrite Hm in Ht'.
      * intros job Hjob. rewrite Hjob in Ht'. eexists. exact Ht'.
  - intros before after v Hsplit Hbefore Hv.
    pose proof (processingOf_NoDup _ Hk) as Hnd.
    assert (Hstored : forall u, u ∈ processingOf (Server.db w) ->
                                Server.db w !! Video.id u = Some u).
    { intros u Hin. now apply processingOf_spec in Hin as [Hu _]. }
    rewrite Hsplit in Hnd, Hstored |- *.
    rewrite fmap_app in Hnd. apply NoDup_app in Hnd as (Hnd & Hapart & _).
    destruct (checkLoaded_run engine before w w Hnd)
      as (w1 & evs & Hrun & Hout & _ & Hoth & _ & _ & Hq & _).
    { intros u Hin. split; [| reflexivity]. apply Hstored, elem_of_app. now left. }
    rewrite fmap_app, fmap_cons.
    rewrite (checkLoadedPending_stalled engine pending _ _ _ w w1);
      [| apply Forall_fmap, Forall_forall; intros u Hin; now apply Hbefore
       | exact Hv | exact Hrun].
    exists (evs ++ [Server.AxiosGet (default "" (Video.jobId v))]).
    split; [reflexivity|]. split; [cbn; now rewrite Hout, app_assoc|].
    split; [rewrite engineQueries_app, Hq; reflexivity|].
    intros u Hu. cbn [snd logged Server.set_out Server.db].
    assert (Hfresh : Video.id u ∉ Video.id <$> before).
    { intros Hin. apply (Hapart _ Hin). now apply list_elem_of_fmap_2. }
    rewrite (proj1 (Hoth (Video.id u) Hfresh)).
    apply Hstored, elem_of_app. now right.
Qed.

(** ** The life cycle *)

Section LifeCycle.

Variable engine : Engine.t.

Lemma respects_same (w w' : Server.world) (evs : list Server.event) :
  keyed (Server.db w) ->
  Server.db w' = Server.db w ->
  Server.out w' = Server.out w ++ evs ->
  Forall lawful evs ->
  respects w w'.
Proof.
  intros Hk Hdb Hout Hlaw. unfold respects. rewrite Hdb.
  split; [exact Hk|]. split; [now exists evs|]. split.
  - intros id v Hv. exists v. split; [exact Hv | now left].
  - intros id v' Hnone Hsome. congruence.
Qed.

Lemma respects_insert (w w' : Server.world) (evs : list Server.event) (v v' : Video.t) :
  keyed (Server.db w) ->
  Server.db w !! Video.id v = Some v ->
  Video.id v' = Video.id v ->
  Video.status v' = Video.status v \/ edge (Video.status v) (Video.status v') ->
  Server.db w' = <[Video.id v := v']> (Server.db w) ->
  Server.out w' = Server.out w ++ evs ->
  Forall lawful evs ->
  respects w w'.
Proof.
  intros Hk Hv Hid Hst Hdb Hout Hlaw. unfold respects. rewrite Hdb.
  split; [apply map_Forall_insert_2; assumption|]. split; [now exists evs|]. split.
  - intros id x Hx. destruct (decide (Video.id v = id)) as [<-|Hne].
    + exists v'. rewrite lookup_insert_eq. split; [reflexivity|]. congruence.
    + exists x. rewrite lookup_insert_ne by exact Hne. split; [exact Hx | now left].
  - intros id x Hnone Hx. destruct (decide (Video.id v = id)) as [<-|Hne]; [congruence|].
    rewrite lookup_insert_ne in Hx by exact Hne. congruence.
Qed.

Lemma answered_id (j : string) (t : Z) (v : Video.t) :
  Video.id (answered engine j t v) = Video.id v.
Proof.
  unfold answered. cbn zeta.
  destruct (Engine.settled (Engine.job engine j)) as [m|job]; [reflexivity|].
  destruct (reconciled _ job v) as [v'|] eqn:E; [| reflexivity].
  exact (reconciled_id _ _ _ _ E).
Qed.

Lemma answered_status (j : string) (t : Z) (v : Video.t) :
  Video.status v = processing ->
  Video.status (answered engine j t v) = Video.status v
  \/ edge (Video.status v) (Video.status (answered engine j t v)).
Proof.
  intros Hs. unfold answered. cbn zeta.
  destruct (Engine.settled (Engine.job engine j)) as [m|job]; [now left|].
  destruct (reconciled _ job v) as [v'|] eqn:E; [| now left].
  right. cbn. rewrite Hs.
  destruct (reconciled_status _ _ _ _ E) as [-> | ->]; constructor.
Qed.

(** *** The status route *)

Lemma getVideoStatus_missing (id : string) (w : Server.world) :
  Server.db w !! id = None ->
  Server.getVideoStatus engine id w
  = (Eff.Ok (Server.ResError 404 "Video not found"), w).
Proof.
  intros Hv. unfold Server.getVideoStatus, Eff.tryCatch, Eff.bind, Server.findOne, Eff.gets.
  now rewrite Hv.
Qed.

(** The status route on a record in [processing] with a job, stored under
    its id. *)
Lemma getVideoStatus_query (id j : string) (v : Video.t) (w : Server.world) :
  Server.db w !! id = Some v -> Video.id v = id ->
  Video.status v = processing ->
  Video.jobId v = Some j -> Js.truthy (Some j) = true ->
  exists a w' evs,
    Server.getVideoStatus engine id w = (Eff.Ok a, w')
    /\ Server.out w' = Server.out w ++ evs
    /\ Server.disk w' = Server.disk w
    /\ Server.db w' = <[id := answered engine j (Server.clock w) v]> (Server.db w)
    /\ Forall lawful evs
    /\ engineQueries evs = [j]
    /\ submissions evs = []
    /\ Server.clock w' = Server.clock w + Engine.latency (Engine.job engine j).
Proof.
  intros Hv Hid Hs Hj Ht.
  rewrite (getVideoStatus_found engine id v w Hv).
  rewrite (statusOf_query engine (loaded v (Server.versionOf w id)) w j Hs Hj Ht).
  rewrite <- Hid in Hv |- *.
  destruct (tryQuery_loaded engine false "Error checking job status:" j v _ w Hv eq_refl)
    as (d' & w' & evs & Hrun & Hout & Hdisk & Hdb & _ & Hlaw & Hq & Hsub & Hclock & _).
  rewrite Hrun. eexists _, w', evs. split; [reflexivity|].
  repeat split; try assumption. now apply Hlaw.
Qed.

Lemma status_respects (id : string) (w : Server.world) :
  keyed (Server.db w) -> respects w (snd (Server.getVideoStatus engine id w)).
Proof.
  intros Hk. destruct (Server.db w !! id) as [v|] eqn:Hv.
  2:{ rewrite getVideoStatus_missing by exact Hv.
      apply (respects_same w w []); [exact Hk | reflexivity | now rewrite app_nil_r | constructor]. }
  assert (Hid : Video.id v = id) by exact (Hk id v Hv).
  destruct (bool_decide (Video.status v = processing) && Js.truthy (Video.jobId v)) eqn:Hg.
  2:{ rewrite (getVideoStatus_found engine id v w Hv).
      rewrite statusOf_skip by exact Hg.
      apply (respects_same w w []); [exact Hk | reflexivity | now rewrite app_nil_r | constructor]. }
  apply andb_prop in Hg as [Hs Ht]. apply bool_decide_eq_true_1 in Hs.
  destruct (Video.jobId v) as [j|] eqn:Hj; [| discriminate Ht].
  destruct (getVideoStatus_query id j v w Hv Hid Hs Hj Ht)
    as (a & w' & evs & Hrun & Hout & _ & Hdb & Hlaw & _).
  rewrite Hrun. cbn [snd]. rewrite <- Hid in Hv, Hdb.
  apply (respects_insert w w' evs v (answered engine j (Server.clock w) v));
    auto using answered_id, answered_status.
Qed.

(** *** The update route *)

#[local] Arguments Server.invalidPaths : simpl never.
#[local] Arguments Server.versioned : simpl never.
#[local] Arguments Server.validationMessage : simpl never.
#[local] Arguments Server.save : simpl never.

Lemma updatedRecord_same (t : Z) (b : Server.Body) (v : Video.t) :
  Video.id (updatedRecord t b v) = Video.id v
  /\ Video.status (updatedRecord t b v) = Video.status v
  /\ Video.jobId (updatedRecord t b v) = Video.jobId v
  /\ Video.formats (updatedRecord t b v) = Video.formats v
  /\ Video.createdAt (updatedRecord t b v) = Video.createdAt v
  /\ Video.updatedAt (updatedRecord t b v) = t.
Proof.
  unfold updatedRecord. destruct (Js.truthy (Server.title b)), (Server.description b);
    repeat split; reflexivity.
Qed.

(** The assignments of the update route, then [save()]. *)
Lemma updateOf_run (b : Server.Body) (v : Video.t) (n : Z) (w : Server.world) :
  Server.updateOf b (loaded v n, w)
  = let '(r, (d', w')) :=
      Server.save (Video.mkDoc (updatedRecord (Server.clock w) b v) (Some v) n, w) in
    match r with
    | Eff.Ok _ => (Eff.Ok (Server.ResVideo (Video.cur d')), (d', w'))
    | Eff.Thrown e => (Eff.Thrown e, (d', w'))
    end.
Proof.
  unfold Server.updateOf, updatedRecord, loaded.
  destruct (Js.truthy (Server.title b)), (Server.description b) as [dsc|];
    unfold Server.setv, Server.now, Eff.outer, Eff.local, Eff.assign, Eff.bind, Eff.ret,
      Eff.gets; cbn;
    match goal with
    | |- context [Server.save ?x] => destruct (Server.save x) as [[[]|e] [d' w']]
    end; reflexivity.
Qed.

Lemma updatedRecord_invalid (t n : Z) (b : Server.Body) (v : Video.t) :
  Server.invalidPaths (Video.mkDoc (updatedRecord t b v) (Some v) n)
  = if blankTitle b v then ["title"] else [].
Proof.
  unfold Server.invalidPaths, Server.assigned, blankTitle. cbn [Video.cur Video.base].
  rewrite (proj1 (updatedRecord_same t b v)).
  rewrite bool_decide_eq_false_2 by (intros H; now apply H). cbn [andb app].
  unfold updatedRecord.
  destruct (Js.truthy (Server.title b)), (Server.description b) as [dsc|]; cbn.
  all: try (rewrite bool_decide_eq_false_2 by (intros H; now apply H); reflexivity).
  all: destruct (String.eqb_spec (Js.trim (default "" (Server.title b))) "") as [E|E];
    [| now rewrite andb_false_r].
  all: rewrite E; destruct (String.eqb_spec (Video.title v) "") as [E'|E']; cbn.
  all: try (rewrite bool_decide_eq_false_2 by (intros H; apply H; now rewrite E');
            reflexivity).
  all: rewrite bool_decide_eq_true_2 by (intros H; apply E'; now rewrite H); reflexivity.
Qed.

Lemma putVideo_found (id : string) (b : Server.Body) (v : Video.t) (w : Server.world) :
  Server.db w !! id = Some v -> Video.id v = id ->
  let v' := updatedRecord (Server.clock w) b v in
  Server.putVideo id b w
  = if blankTitle b v
    then (Eff.Ok (Server.ResError 500 "Failed to update video"),
          logged (Server.ConsoleError "Error updating video:"
                    (Server.validationMessage ["title"])) w)
    else if bool_decide (v' = v) then (Eff.Ok (Server.ResVideo v'), w)
    else (Eff.Ok (Server.ResVideo v'), updated false v v' w).
Proof.
  intros Hv Hid. cbn zeta.
  unfold Server.putVideo, Eff.tryCatch, Eff.bind at 1, Server.findOne, Eff.gets.
  rewrite Hv. cbn [fmap option_fmap option_map]. unfold Eff.scoped.
  fold (loaded v (Server.versionOf w id)). rewrite updateOf_run. cbn zeta.
  set (n := Server.versionOf w id). set (v' := updatedRecord (Server.clock w) b v).
  pose proof (updatedRecord_invalid (Server.clock w) n b v) as Hval. fold v' in Hval.
  destruct (updatedRecord_same (Server.clock w) b v) as (Hi & _ & _ & Hf & _). fold v' in Hi, Hf.
  destruct (blankTitle b v).
  { rewrite save_invalid by (rewrite Hval; discriminate). rewrite Hval. reflexivity. }
  case_bool_decide as Heq.
  { rewrite Heq. fold (loaded v n). rewrite <- Hid in Hv.
    rewrite (save_same v v n w Hv). reflexivity. }
  rewrite (save_stored (Video.mkDoc v' (Some v) n) w v v); cbn [Video.cur Video.version].
  - assert (Hver : Server.versioned (Video.mkDoc v' (Some v) n) = false).
    { unfold Server.versioned. cbn. apply bool_decide_eq_false_2. intros H. now apply H. }
    rewrite Hver, merge_loaded by exact Hi. reflexivity.
  - reflexivity.
  - exact Hval.
  - exact Heq.
  - now rewrite Hi, Hid.
  - now symmetry.
  - unfold Server.versioned. cbn. rewrite bool_decide_eq_false_2; [discriminate|].
    intros H. now apply H.
Qed.

Lemma putVideo_missing (id : string) (b : Server.Body) (w : Server.world) :
  Server.db w !! id = None ->
  Server.putVideo id b w = (Eff.Ok (Server.ResError 404 "Video not found"), w).
Proof.
  intros Hv. unfold Server.putVideo, Eff.tryCatch, Eff.bind, Server.findOne, Eff.gets.
  now rewrite Hv.
Qed.

(** The collection after the update route. *)
Lemma putVideo_db (id : string) (b : Server.Body) (w : Server.world) :
  keyed (Server.db w) ->
  let w' := snd (Server.putVideo id b w) in
  exists evs,
    Server.out w' = Server.out w ++ evs
    /\ Forall lawful evs
    /\ engineQueries evs = [] /\ submissions evs = []
    /\ Server.clock w' = Server.clock w
    /\ Server.disk w' = Server.disk w
    /\ (Server.db w' = Server.db w
        \/ exists v, Server.db w !! id = Some v
                     /\ Server.db w'
                        = <[id := updatedRecord (Server.clock w) b v]> (Server.db w)).
Proof.
  intros Hk. cbn zeta. destruct (Server.db w !! id) as [v|] eqn:Hv.
  2:{ rewrite putVideo_missing by exact Hv. exists []. rewrite app_nil_r.
      repeat split; [constructor | now left]. }
  assert (Hid : Video.id v = id) by exact (Hk id v Hv).
  rewrite (putVideo_found id b v w Hv Hid). cbn zeta.
  destruct (updatedRecord_same (Server.clock w) b v) as (Hi & Hs & _).
  destruct (blankTitle b v); [| case_bool_decide].
  - eexists [_]. repeat split; [repeat constructor | now left].
  - exists []. rewrite app_nil_r. repeat split; [constructor | now left].
  - eexists [_]. split; [reflexivity|].
    split; [constructor; [cbn; now left | constructor] |].
    repeat split. right. exists v. split; [reflexivity|].
    unfold updated. cbn [snd Server.db]. now rewrite Hi, Hid.
Qed.

Lemma update_respects (id : string) (b : Server.Body) (w : Server.world) :
  keyed (Server.db w) -> respects w (snd (Server.putVideo id b w)).
Proof.
  intros Hk.
  destruct (putVideo_db id b w Hk) as (evs & Hout & Hlaw & _ & _ & _ & _ & Hdb).
  cbn zeta in *. destruct Hdb as [Hdb | (v & Hv & Hdb)].
  - now apply (respects_same w _ evs).
  - assert (Hid : Video.id v = id) by exact (Hk id v Hv).
    destruct (updatedRecord_same (Server.clock w) b v) as (Hi & Hs & _).
    subst id.
    apply (respects_insert w _ evs v (updatedRecord (Server.clock w) b v));
      try assumption. now left.
Qed.

(** *** The sweep *)

Lemma polled_id (t : Z) (v : Video.t) : Video.id (polled engine t v) = Video.id v.
Proof.
  unfold polled. destruct (Js.truthy (Video.jobId v)); [| reflexivity].
  apply answered_id.
Qed.

Lemma polled_status (t : Z) (v : Video.t) :
  Video.status v = processing ->
  Video.status (polled engine t v) = Video.status v
  \/ edge (Video.status v) (Video.status (polled engine t v)).
Proof.
  intros Hs. unfold polled. destruct (Js.truthy (Video.jobId v)); [| now left].
  now apply answered_status.
Qed.

(** Each key after one sweep. *)
Lemma sweep_keys (w w' : Server.world) :
  keyed (Server.db w) ->
  (forall k, k ∉ Video.id <$> processingOf (Server.db w) ->
             Server.db w' !! k = Server.db w !! k) ->
  (forall v, v ∈ processingOf (Server.db w) ->
             exists t, Server.db w' !! Video.id v = Some (polled engine t v)) ->
  forall k,
    (exists v t, Server.db w !! k = Some v /\ Video.status v = processing
                 /\ Video.id v = k
                 /\ Server.db w' !! k = Some (polled engine t v))
    \/ ((forall v, Server.db w !! k = Some v -> Video.status v <> processing)
        /\ Server.db w' !! k = Server.db w !! k).
Proof.
  intros Hk Hoth Hvis k.
  destruct (decide (k ∈ Video.id <$> processingOf (Server.db w))) as [Hin|Hnin].
  - left. apply list_elem_of_fmap in Hin as (v & -> & Hin).
    destruct (Hvis v Hin) as (t & Ht).
    apply processingOf_spec in Hin as [Hv Hs]; [| exact Hk].
    exists v, t. repeat split; assumption.
  - right. split; [| now apply Hoth].
    intros v Hv Hs. apply Hnin. rewrite <- (Hk k v Hv).
    apply list_elem_of_fmap_2, processingOf_spec; [exact Hk|].
    rewrite (Hk k v Hv). now split.
Qed.

Lemma sweep_respects (w : Server.world) :
  keyed (Server.db w) -> respects w (snd (Server.checkProcessingJobs engine w)).
Proof.
  intros Hk.
  destruct (sweep_run engine w Hk)
    as (w' & evs & Hrun & Hout & _ & Hoth & Hvis & Hlaw & _).
  rewrite Hrun. cbn [snd].
  pose proof (sweep_keys w w' Hk (fun k H => proj1 (Hoth k H)) Hvis) as Hcase.
  unfold respects. split; [| split; [| split]].
  - intros k x Hx. destruct (Hcase k) as [(v & t & _ & _ & Hid & Hw')|[_ Hsame]].
    + rewrite Hw' in Hx. injection Hx as <-. now rewrite polled_id.
    + rewrite Hsame in Hx. exact (Hk k x Hx).
  - exists evs. split; [exact Hout | exact Hlaw].
  - intros k x Hx. destruct (Hcase k) as [(v & t & Hv & Hs & _ & Hw')|[_ Hsame]].
    + rewrite Hv in Hx. injection Hx as <-.
      exists (polled engine t v). split; [exact Hw' | now apply polled_status].
    + exists x. split; [now rewrite Hsame | now left].
  - intros k x Hnone Hx. destruct (Hcase k) as [(v & t & Hv & _)|[_ Hsame]]; congruence.
Qed.

(** *** The upload route *)

(** An upload without a file, or without a title, is answered 400. *)
Lemma postVideosUpload_no_file (videoId : string) (req : Server.UploadRequest)
    (w : Server.world) :
  Server.file req = None ->
  Server.postVideosUpload engine videoId req w
  = (Eff.Ok (Server.ResError 400 "No video file provided"), w).
Proof.
  intros Hf. unfold Server.postVideosUpload, Server.multerSingle, Server.uploadHandler.
  rewrite Hf. reflexivity.
Qed.

Lemma postVideosUpload_no_title (videoId : string) (req : Server.UploadRequest)
    (f : Server.File) (w : Server.world) :
  Server.file req = Some f ->
  negb (Js.truthy (Server.title (Server.body req)))
  || (String.length (Js.trim (default "" (Server.title (Server.body req)))) =? 0)%nat
  = true ->
  Server.postVideosUpload engine videoId req w
  = (Eff.Ok (Server.ResError 400 "Title is required"), received f w).
Proof.
  intros Hf Ht. unfold Server.postVideosUpload, Server.multerSingle, Server.uploadHandler.
  rewrite Hf. unfold Eff.bind at 1, Eff.modify at 1. unfold Eff.tryCatch at 1.
  rewrite Ht. reflexivity.
Qed.

(** The requests the upload route makes of the handler. *)
Lemma upload_cases (req : Server.UploadRequest) :
  Server.file req = None
  \/ (exists f, Server.file req = Some f
                /\ negb (Js.truthy (Server.title (Server.body req)))
                   || (String.length (Js.trim (default "" (Server.title (Server.body req))))
                       =? 0)%nat = true)
  \/ (exists f, accepted req f).
Proof.
  destruct (Server.file req) as [f|] eqn:Hf; [right | now left].
  destruct (negb (Js.truthy (Server.title (Server.body req)))
            || (String.length (Js.trim (default "" (Server.title (Server.body req)))) =? 0)%nat)
    eqn:Ht; [left; now exists f | right].
  apply orb_false_elim in Ht as [Ht Hl]. apply negb_false_iff in Ht.
  apply Nat.eqb_neq in Hl. exists f. repeat split; assumption.
Qed.

(** The world after the upload route: the collection is as it was, or
    holds one more record, in [uploading]; nothing is sent to the
    processor and no time passes. *)
Lemma postVideosUpload_db (videoId : string) (req : Server.UploadRequest)
    (w : Server.world) :
  let w' := snd (Server.postVideosUpload engine videoId req w) in
  exists evs,
    Server.out w' = Server.out w ++ evs
    /\ Forall lawful evs
    /\ engineQueries evs = [] /\ submissions evs = []
    /\ Server.clock w' = Server.clock w
    /\ (Server.db w' = Server.db w
        \/ exists f, accepted req f /\ Server.db w !! videoId = None
                     /\ Server.db w'
                        = <[videoId := created (Server.clock w) videoId req f]> (Server.db w)).
Proof.
  cbn zeta. destruct (upload_cases req) as [Hf | [(f & Hf & Ht) | (f & Hacc)]].
  - rewrite postVideosUpload_no_file by exact Hf. exists []. rewrite app_nil_r.
    repeat split; [constructor | now left].
  - rewrite (postVideosUpload_no_title videoId req f w Hf Ht). exists [].
    cbn. rewrite app_nil_r. repeat split; [constructor | now left].
  - pose proof (postVideosUpload_run engine videoId req f w Hacc) as Hrun.
    cbn zeta in Hrun.
    destruct (String.eqb videoId ""); [| destruct (Server.db w !! videoId) eqn:Hdb];
      rewrite Hrun; cbn.
    + eexists [_; _]. rewrite <- app_assoc. repeat split; [repeat constructor | now left].
    + eexists [_; _]. rewrite <- app_assoc. repeat split; [repeat constructor | now left].
    + eexists [_; _; _]. rewrite <- !app_assoc. split; [reflexivity|].
      split; [repeat first [exact I | reflexivity | constructor] |].
      repeat split. right. exists f. split; [exact Hacc | split; reflexivity].
Qed.

Lemma upload_respects (videoId : string) (req : Server.UploadRequest) (w : Server.world) :
  keyed (Server.db w) ->
  respects w (snd (Server.postVideosUpload engine videoId req w)).
Proof.
  intros Hk.
  destruct (postVideosUpload_db videoId req w) as (evs & Hout & Hlaw & _ & _ & _ & Hdb).
  cbn zeta in *. destruct Hdb as [Hdb | (f & _ & Hfresh & Hdb)].
  - now apply (respects_same w _ evs).
  - unfold respects. rewrite Hdb.
    split; [apply map_Forall_insert_2; [reflexivity | exact Hk] |].
    split; [now exists evs|]. split.
    + intros k x Hx. exists x. rewrite lookup_insert_ne by congruence.
      split; [exact Hx | now left].
    + intros k x Hnone Hx. destruct (decide (videoId = k)) as [<-|Hne].
      * rewrite lookup_insert_eq in Hx. now injection Hx as <-.
      * rewrite lookup_insert_ne in Hx by exact Hne. congruence.
Qed.

End LifeCycle.

Lemma run_respects (engine : Engine.t) (op : operation) (w : Server.world) :
  keyed (Server.db w) -> respects w (run engine op w).
Proof.
  intros Hk. destruct op as [videoId req | id | id b |]; cbn [run].
  - now apply upload_respects.
  - now apply status_respects.
  - now apply update_respects.
  - now apply sweep_respects.
Qed.

(** The states the system reaches from a collection whose records sit
    under their ids keep them so; the empty collection is one. *)
Lemma reachable_keyed (steps : list step) (w : Server.world) :
  keyed (Server.db w) -> keyed (Server.db (runAll steps w)).
Proof.
  revert w. induction steps as [|s steps IH]; intros w Hk; [exact Hk|].
  cbn [runAll fold_left]. apply IH. destruct s as [engine op | ms]; [| exact Hk].
  exact (proj1 (run_respects engine op w Hk)).
Qed.

(** ** A path of reconciliation resumed on the document it had loaded *)

Section Reapply.

Variable engine : Engine.t.

#[local] Arguments Server.invalidPaths : simpl never.
#[local] Arguments Server.versioned : simpl never.
#[local] Arguments Server.validationMessage : simpl never.

Lemma reconciled_timeless (t t' : Z) (job : Engine.Job) (v : Video.t) :
  reconciled t job v = None -> reconciled t' job v = None.
Proof.
  unfold reconciled.
  destruct (String.eqb (Engine.status job) "completed"), (Engine.data job) as [d|];
    try destruct (Engine.encoded_files d);
    try destruct (String.eqb (Engine.status job) "error");
    intros H; try discriminate H; reflexivity.
Qed.

(** What [save()] does to the collection, for a loaded document. *)
Lemma save_db (v v' : Video.t) (n : Z) (w : Server.world) :
  exists r d' w',
    Server.save (Video.mkDoc v' (Some v) n, w) = (r, (d', w'))
    /\ (Server.db w' = Server.db w
        \/ exists p, Server.db w !! Video.id v' = Some p
                     /\ Server.db w' = <[Video.id p := Video.merge v v' p]> (Server.db w)).
Proof.
  unfold Server.save, Eff.outer, Eff.local, Eff.assign, Eff.bind, Eff.ret, Eff.throw,
    Eff.gets, Eff.modify, Server.emit. cbn.
  destruct (Server.invalidPaths _); cbn;
    [| eexists _, _, _; split; [reflexivity | now left]].
  destruct (Server.db w !! Video.id v') as [p|]; cbn;
    [| eexists _, _, _; split; [reflexivity | now left]].
  destruct (bool_decide (v' = v)); cbn;
    [eexists _, _, _; split; [reflexivity | now left] |].
  destruct (Server.versioned _ && negb _); cbn;
    [eexists _, _, _; split; [reflexivity | now left] |].
  eexists _, _, _; split; [reflexivity |]. right. exists p. split; reflexivity.
Qed.

(** The collection after the guarded query, whatever is stored by then. *)
Lemma tryQuery_db (announce : bool) (label j : string) (v : Video.t) (n : Z)
    (w : Server.world) :
  let w' := snd (snd (tryQuery engine announce label j (loaded v n, w))) in
  Server.db w' = Server.db w
  \/ exists p v', Server.db w !! Video.id v = Some p
                  /\ Video.id v' = Video.id v
                  /\ (Video.status v' = ready \/ Video.status v' = error)
                  /\ Server.db w' = <[Video.id p := Video.merge v v' p]> (Server.db w).
Proof.
  cbn zeta. rewrite tryQuery_run. cbn zeta.
  set (w1 := afterRequest _ _ w).
  destruct (Engine.settled (Engine.job engine j)) as [m|job]; [now left |].
  destruct (reconciled (Server.clock w1) job v) as [v'|] eqn:Hrec.
  - rewrite (reconcile_save announce job (loaded v n) w1 v' Hrec).
    cbn [loaded Video.base Video.version].
    destruct (save_db v v' n w1) as (r & d' & w' & -> & Hdb).
    pose proof (reconciled_id _ _ _ _ Hrec) as Hid.
    assert (Hcase : Server.db w' = Server.db w
                    \/ exists p v', Server.db w !! Video.id v = Some p
                         /\ Video.id v' = Video.id v
                         /\ (Video.status v' = ready \/ Video.status v' = error)
                         /\ Server.db w' = <[Video.id p := Video.merge v v' p]> (Server.db w)).
    { destruct Hdb as [Hdb | (p & Hp & Hdb)]; [now left |].
      right. exists p, v'. rewrite Hid in Hp.
      split; [exact Hp |]. split; [exact Hid |].
      split; [exact (reconciled_status _ _ _ _ Hrec) | exact Hdb]. }
    destruct r as [[]|e]; [destruct announce |]; exact Hcase.
  - destruct (reconcile_idle announce job (loaded v n) w1 Hrec) as (r & d' & -> & _).
    left. destruct r as [[]|e]; reflexivity.
Qed.

Lemma reapply_query (viaSweep : bool) (v : Video.t) (n : Z) (w : Server.world)
    (j : string) :
  Video.status v = processing ->
  Video.jobId v = Some j -> Js.truthy (Some j) = true ->
  reapply engine viaSweep (loaded v n) w
  = snd (snd (tryQuery engine viaSweep (pathLabel viaSweep j) j (loaded v n, w))).
Proof.
  intros Hs Hj Ht. unfold reapply, Eff.scoped, pathLabel. destruct viaSweep.
  - rewrite (checkOne_query engine (loaded v n) w j Hj Ht).
    now destruct (tryQuery engine true _ j (loaded v n, w)) as [r [d' w']].
  - rewrite (statusOf_query engine (loaded v n) w j Hs Hj Ht).
    now destruct (tryQuery engine false _ j (loaded v n, w)) as [r [d' w']].
Qed.

(** A path resumed on a document that has no job does nothing; so does the
    status route on a document that is not in [processing]. *)
Lemma reapply_skip (viaSweep : bool) (v : Video.t) (n : Z) (w : Server.world) :
  Js.truthy (Video.jobId v) = false \/ (viaSweep = false /\ Video.status v <> processing) ->
  reapply engine viaSweep (loaded v n) w = w.
Proof.
  intros Hg. unfold reapply, Eff.scoped. destruct viaSweep.
  - destruct Hg as [Hj | [Hf _]]; [| discriminate Hf].
    now rewrite checkOne_skip by exact Hj.
  - rewrite statusOf_skip; [reflexivity |]. cbn.
    destruct Hg as [-> | [_ Hs]]; [apply andb_false_r |].
    now rewrite bool_decide_eq_false_2.
Qed.

Lemma reapply_gate (v : Video.t) (n : Z) (w : Server.world) :
  Video.status v <> processing -> reapply engine false (loaded v n) w = w.
Proof. intros Hs. apply reapply_skip. right. now split. Qed.

Lemma reapply_db (viaSweep : bool) (v : Video.t) (n : Z) (w : Server.world) :
  let w' := reapply engine viaSweep (loaded v n) w in
  Server.db w' = Server.db w
  \/ exists p v', Server.db w !! Video.id v = Some p
                  /\ Video.id v' = Video.id v
                  /\ (Video.status v' = ready \/ Video.status v' = error)
                  /\ Server.db w' = <[Video.id p := Video.merge v v' p]> (Server.db w).
Proof.
  cbn zeta.
  destruct (Js.truthy (Video.jobId v)) eqn:Ht.
  2:{ left. rewrite reapply_skip; [reflexivity | now left]. }
  destruct (Video.jobId v) as [j|] eqn:Hj; [| discriminate Ht].
  destruct viaSweep.
  - unfold reapply, Eff.scoped.
    rewrite (checkOne_query engine (loaded v n) w j Hj Ht).
    pose proof (tryQuery_db true (checkLabel j) j v n w) as H. cbn zeta in H.
    now destruct (tryQuery engine true _ j (loaded v n, w)) as [r [d' w']].
  - destruct (decide (Video.status v = processing)) as [Hs|Hs].
    + rewrite (reapply_query false v n w j Hs Hj Ht). apply tryQuery_db.
    + left. now rewrite reapply_gate.
Qed.

Lemma merge_status (v v' p : Video.t) :
  Video.status (Video.merge v v' p) = Video.status p
  \/ Video.status (Video.merge v v' p) = Video.status v'.
Proof. unfold Video.merge, Video.pick. cbn. case_decide; [now left | now right]. Qed.

(** A resumed path and the life cycle: the record the document was loaded
    from keeps its status or is moved to the status of the answer; nothing
    else changes. *)
Lemma reapply_status (viaSweep : bool) (v : Video.t) (n : Z) (w : Server.world) :
  keyed (Server.db w) ->
  let w' := reapply engine viaSweep (loaded v n) w in
  keyed (Server.db w')
  /\ (forall k, k <> Video.id v -> Server.db w' !! k = Server.db w !! k)
  /\ (Server.db w !! Video.id v = None -> Server.db w' = Server.db w)
  /\ (forall p, Server.db w !! Video.id v = Some p ->
        exists p', Server.db w' !! Video.id v = Some p'
                   /\ (Video.status p' = Video.status p
                       \/ Video.status p' = ready \/ Video.status p' = error)).
Proof.
  intros Hk. cbn zeta.
  destruct (reapply_db viaSweep v n w) as [Hdb | (p & v' & Hp & Hid & Hst & Hdb)];
    cbn zeta in Hdb; rewrite Hdb.
  - split; [exact Hk |]. split; [reflexivity |]. split; [reflexivity |].
    intros p Hp. exists p. split; [exact Hp | now left].
  - assert (Hpid : Video.id p = Video.id v) by exact (Hk _ _ Hp).
    rewrite Hpid.
    split; [apply map_Forall_insert_2; [exact Hpid | exact Hk] |].
    split; [intros k Hne; now apply lookup_insert_ne |].
    split; [intros Hnone; congruence |].
    intros p0 Hp0. rewrite Hp in Hp0. injection Hp0 as <-.
    eexists. split; [apply lookup_insert_eq |].
    destruct (merge_status v v' p) as [-> | ->]; [now left | right; exact Hst].
Qed.

(** *** A stale update that lands, and one that is refused *)

Lemma tryQuery_landed (announce : bool) (label j : string) (job : Engine.Job)
    (v v' p : Video.t) (n : Z) (w : Server.world) :
  Engine.settled (Engine.job engine j) = inr job ->
  reconciled (Server.clock w + Engine.latency (Engine.job engine j)) job v = Some v' ->
  v' <> v ->
  Server.db w !! Video.id v = Some p -> Video.id p = Video.id v ->
  (Video.formats v' <> Video.formats v -> Server.versionOf w (Video.id v) = n) ->
  let bump := bool_decide (Video.formats v' <> Video.formats v) in
  let w1 := afterRequest (Server.AxiosGet j) (Engine.latency (Engine.job engine j)) w in
  let w2 := updated bump p (Video.merge v v' p) w1 in
  tryQuery engine announce label j (loaded v n, w)
  = (Eff.Ok tt,
     (loaded v' (if bump then n + 1 else n),
      if announce
      then logged (Server.ConsoleLog (announcement job (Video.id v'))) w2
      else w2)).
Proof.
  intros Hjob Hrec Hne Hp Hpid Hver. cbn zeta.
  pose proof (reconciled_id _ _ _ _ Hrec) as Hid.
  pose proof (reconciled_title _ _ _ _ Hrec) as Htitle.
  rewrite (tryQuery_saved engine announce label j job (loaded v n)
             (loaded v' (if bool_decide (Video.formats v' <> Video.formats v)
                         then n + 1 else n))
             w (updated (bool_decide (Video.formats v' <> Video.formats v)) p
                  (Video.merge v v' p)
                  (afterRequest (Server.AxiosGet j)
                     (Engine.latency (Engine.job engine j)) w))
             v' Hjob Hrec); [reflexivity |].
  cbn [loaded Video.base Video.version].
  rewrite (save_stored (Video.mkDoc v' (Some v) n) _ v p); cbn [Video.cur Video.version].
  - reflexivity.
  - reflexivity.
  - now apply invalidPaths_kept.
  - exact Hne.
  - cbn. now rewrite Hid.
  - now rewrite Hid.
  - intros Hb. cbn. rewrite Hid. apply Hver.
    unfold Server.versioned in Hb. cbn in Hb. now apply bool_decide_eq_true_1 in Hb.
Qed.

Lemma tryQuery_refused (announce : bool) (label j : string) (job : Engine.Job)
    (v v' p : Video.t) (n : Z) (w : Server.world) :
  Engine.settled (Engine.job engine j) = inr job ->
  reconciled (Server.clock w + Engine.latency (Engine.job engine j)) job v = Some v' ->
  Server.db w !! Video.id v = Some p ->
  Video.formats v' <> Video.formats v ->
  Server.versionOf w (Video.id v) <> n ->
  tryQuery engine announce label j (loaded v n, w)
  = (Eff.Ok tt,
     (Video.mkDoc v' (Some v) n,
      logged (Server.ConsoleError label "VersionError: No matching document found")
        (afterRequest (Server.AxiosGet j) (Engine.latency (Engine.job engine j)) w))).
Proof.
  intros Hjob Hrec Hp Hf Hn.
  pose proof (reconciled_id _ _ _ _ Hrec) as Hid.
  pose proof (reconciled_title _ _ _ _ Hrec) as Htitle.
  apply (tryQuery_thrown engine announce label j _ job (loaded v n)
           (Video.mkDoc v' (Some v) n) w _ v' Hjob Hrec).
  cbn [loaded Video.base Video.version].
  apply (save_refused (Video.mkDoc v' (Some v) n) _ v p); cbn [Video.cur Video.version].
  - reflexivity.
  - now apply invalidPaths_kept.
  - intros E. apply Hf. now rewrite E.
  - cbn. now rewrite Hid.
  - unfold Server.versioned. cbn. now apply bool_decide_eq_true_2.
  - cbn. now rewrite Hid.
Qed.

Lemma reapply_landed (viaSweep : bool) (j : string) (job : Engine.Job)
    (v v' p : Video.t) (n : Z) (w : Server.world) :
  Video.status v = processing ->
  Video.jobId v = Some j -> Js.truthy (Some j) = true ->
  Engine.settled (Engine.job engine j) = inr job ->
  reconciled (Server.clock w + Engine.latency (Engine.job engine j)) job v = Some v' ->
  v' <> v ->
  Server.db w !! Video.id v = Some p -> Video.id p = Video.id v ->
  (Video.formats v' <> Video.formats v -> Server.versionOf w (Video.id v) = n) ->
  let w' := reapply engine viaSweep (loaded v n) w in
  Server.db w' = <[Video.id v := Video.merge v v' p]> (Server.db w)
  /\ Server.clock w' = Server.clock w + Engine.latency (Engine.job engine j)
  /\ Server.versionOf w' (Video.id v)
     = (if bool_decide (Video.formats v' <> Video.formats v)
        then Server.versionOf w (Video.id v) + 1 else Server.versionOf w (Video.id v))
  /\ In (Server.DbWrite (Some p) (Video.merge v v' p)) (Server.out w')
  /\ Server.disk w' = Server.disk w.
Proof.
  intros Hs Hj Ht Hjob Hrec Hne Hp Hpid Hver. cbn zeta.
  rewrite (reapply_query viaSweep v n w j Hs Hj Ht).
  rewrite (tryQuery_landed viaSweep _ j job v v' p n w Hjob Hrec Hne Hp Hpid Hver).
  cbn [snd]. set (bump := bool_decide _).
  assert (Hgoal : forall w2,
            w2 = updated bump p (Video.merge v v' p)
                   (afterRequest (Server.AxiosGet j) (Engine.latency (Engine.job engine j)) w) ->
            Server.db w2 = <[Video.id v := Video.merge v v' p]> (Server.db w)
            /\ Server.clock w2 = Server.clock w + Engine.latency (Engine.job engine j)
            /\ Server.versionOf w2 (Video.id v)
               = (if bump then Server.versionOf w (Video.id v) + 1
                  else Server.versionOf w (Video.id v))
            /\ In (Server.DbWrite (Some p) (Video.merge v v' p)) (Server.out w2)
            /\ Server.disk w2 = Server.disk w).
  { intros w2 ->. unfold updated, Server.versionOf. cbn [Server.db Server.clock Server.revs
      Server.out Server.disk afterRequest Video.merge Video.id].
    rewrite Hpid. split; [reflexivity |]. split; [reflexivity |]. split.
    - destruct bump; [now rewrite lookup_insert_eq | reflexivity].
    - split; [| reflexivity]. apply in_or_app. right. now left. }
  destruct viaSweep.
  - destruct (Hgoal _ eq_refl) as (H1 & H2 & H3 & H4 & H5).
    unfold logged, Server.set_out, Server.versionOf in *.
    cbn [Server.db Server.clock Server.revs Server.out Server.disk].
    split; [exact H1 |]. split; [exact H2 |]. split; [exact H3 |].
    split; [apply in_or_app; left; exact H4 | exact H5].
  - exact (Hgoal _ eq_refl).
Qed.

Lemma reapply_refused (viaSweep : bool) (j : string) (job : Engine.Job)
    (v v' p : Video.t) (n : Z) (w : Server.world) :
  Video.status v = processing ->
  Video.jobId v = Some j -> Js.truthy (Some j) = true ->
  Engine.settled (Engine.job engine j) = inr job ->
  reconciled (Server.clock w + Engine.latency (Engine.job engine j)) job v = Some v' ->
  Server.db w !! Video.id v = Some p ->
  Video.formats v' <> Video.formats v ->
  Server.versionOf w (Video.id v) <> n ->
  let w' := reapply engine viaSweep (loaded v n) w in
  Server.db w' = Server.db w
  /\ Server.revs w' = Server.revs w
  /\ Server.clock w' = Server.clock w + Engine.latency (Engine.job engine j)
  /\ Server.out w'
     = Server.out w
       ++ [Server.AxiosGet j;
           Server.ConsoleError (pathLabel viaSweep j)
             "VersionError: No matching document found"].
Proof.
  intros Hs Hj Ht Hjob Hrec Hp Hf Hn. cbn zeta.
  rewrite (reapply_query viaSweep v n w j Hs Hj Ht).
  rewrite (tryQuery_refused viaSweep _ j job v v' p n w Hjob Hrec Hp Hf Hn).
  cbn. rewrite <- app_assoc. repeat split.
Qed.

(** What the update from a failed job stores over the record [p]. *)
Lemma merge_failed (t : Z) (v p : Video.t) :
  Video.status v = processing ->
  Video.merge v (failedRecord t v) p
  = failedRecord (if decide (t = Video.updatedAt v) then Video.updatedAt p else t) p.
Proof.
  intros Hs. unfold Video.merge, Video.pick, failedRecord. cbn. rewrite Hs.
  repeat case_decide; first [reflexivity | congruence].
Qed.

(** What a second update from the same completed job stores over the
    result of the first. *)
Lemma merge_completed (t1 t2 : Z) (d : Engine.JobData) (files : list EncodedFile.t)
    (v : Video.t) :
  Video.merge v (completedRecord t2 d files v) (completedRecord t1 d files v)
  = completedRecord (if decide (t2 = Video.updatedAt v) then t1 else t2) d files v.
Proof.
  unfold Video.merge, Video.pick, completedRecord. cbn.
  repeat case_decide; first [reflexivity | congruence].
Qed.

Lemma answered_fixed (j : string) (t t' : Z) (v : Video.t) :
  Video.status (answered engine j t v) = processing ->
  answered engine j t' v = v.
Proof.
  unfold answered. cbn zeta.
  destruct (Engine.settled (Engine.job engine j)) as [m|job]; [reflexivity|].
  destruct (reconciled (t + _) job v) as [v'|] eqn:E.
  - cbn. intros Hs. destruct (reconciled_status _ _ _ _ E); congruence.
  - intros _. now rewrite (reconciled_timeless _ (t' + Engine.latency (Engine.job engine j)) _ _ E).
Qed.

Lemma polled_fixed (t t' : Z) (v : Video.t) :
  Video.status (polled engine t v) = processing -> polled engine t' v = v.
Proof.
  unfold polled. destruct (Js.truthy (Video.jobId v)); [| reflexivity].
  apply answered_fixed.
Qed.

(** The status route, run twice against the same answers, leaves the
    collection as after the first run. *)
Lemma status_twice (id : string) (w : Server.world) :
  keyed (Server.db w) ->
  Server.db (run engine (QueryStatus id) (run engine (QueryStatus id) w))
  = Server.db (run engine (QueryStatus id) w).
Proof.
  intros Hk. cbn [run].
  destruct (Server.db w !! id) as [v|] eqn:Hv.
  2:{ rewrite (getVideoStatus_missing engine id w Hv). cbn [snd].
      now rewrite (getVideoStatus_missing engine id w Hv). }
  assert (Hid : Video.id v = id) by exact (Hk id v Hv).
  destruct (bool_decide (Video.status v = processing) && Js.truthy (Video.jobId v)) eqn:Hg.
  2:{ rewrite (getVideoStatus_found engine id v w Hv).
      rewrite statusOf_skip by exact Hg. cbn [snd].
      rewrite (getVideoStatus_found engine id v w Hv).
      now rewrite statusOf_skip by exact Hg. }
  apply andb_prop in Hg as [Hs Ht]. apply bool_decide_eq_true_1 in Hs.
  destruct (Video.jobId v) as [j|] eqn:Hj; [| discriminate Ht].
  destruct (getVideoStatus_query engine id j v w Hv Hid Hs Hj Ht)
    as (a0 & w1 & evs & Hrun & _ & _ & Hdb & _).
  rewrite Hrun. cbn [snd].
  set (a := answered engine j (Server.clock w) v) in *.
  assert (Ha : Server.db w1 !! id = Some a).
  { rewrite Hdb. apply lookup_insert_eq. }
  destruct (decide (Video.status a = processing)) as [Hsa|Hsa].
  - assert (Hfix : forall t', answered engine j t' v = v)
      by (intros t'; apply (answered_fixed j (Server.clock w) t' v Hsa)).
    assert (Hav : a = v) by apply Hfix.
    clearbody a. subst a.
    destruct (getVideoStatus_query engine id j v w1 Ha Hid Hs Hj Ht)
      as (a2 & w2 & evs2 & Hrun2 & _ & _ & Hdb2 & _).
    rewrite Hrun2. cbn [snd]. rewrite Hdb2, Hfix.
    now apply insert_id.
  - rewrite (getVideoStatus_found engine id a w1 Ha).
    rewrite statusOf_skip; [reflexivity|].
    cbn. now rewrite bool_decide_eq_false_2.
Qed.

(** One sweep after another, against the same answers, leaves the
    collection as after the first. *)
Lemma sweep_twice (w : Server.world) :
  keyed (Server.db w) ->
  Server.db (run engine Sweep (run engine Sweep w)) = Server.db (run engine Sweep w).
Proof.
  intros Hk. cbn [run].
  pose proof (proj1 (sweep_respects engine w Hk)) as Hk1.
  destruct (sweep_run engine w Hk) as (w1 & evs & Hrun & _ & _ & Hoth & Hvis & _).
  rewrite Hrun in *. cbn [snd] in *.
  destruct (sweep_run engine w1 Hk1) as (w2 & evs2 & Hrun2 & _ & _ & Hoth2 & Hvis2 & _).
  rewrite Hrun2. cbn [snd].
  apply map_eq. intros k.
  destruct (decide (k ∈ Video.id <$> processingOf (Server.db w1))) as [Hin|Hnin];
    [| now apply Hoth2].
  apply list_elem_of_fmap in Hin as (v & -> & Hin).
  destruct (Hvis2 v Hin) as (t2 & Ht2).
  apply processingOf_spec in Hin as [Hv1 Hs1]; [| exact Hk1].
  rewrite Ht2, Hv1. f_equal.
  destruct (decide (Video.id v ∈ Video.id <$> processingOf (Server.db w))) as [Hin0|Hnin0].
  - apply list_elem_of_fmap in Hin0 as (v0 & Hid0 & Hin0).
    destruct (Hvis v0 Hin0) as (t & Ht).
    rewrite <- Hid0, Hv1 in Ht. injection Ht as Hv.
    rewrite Hv in Hs1. rewrite (polled_fixed t t v0 Hs1) in Hv. subst v.
    now apply (polled_fixed t).
  - exfalso. apply Hnin0. rewrite (proj1 (Hoth _ Hnin0)) in Hv1.
    apply list_elem_of_fmap_2. apply processingOf_spec; [exact Hk|]. now split.
Qed.

End Reapply.

(** ** The life cycle, in full *)

(** C2, as the code has it. Every operation of the system (upload, status
    query, metadata update, one sweep of the poller), run from start to end
    on a collection whose records sit under their own ids, keeps it so, and:
    every write it makes creates a record in [uploading] or keeps the status
    of the stored record or moves it along one of the four edges; every
    stored record stays stored, with its status kept or moved along an edge;
    a record that appears is in [uploading]; and a record whose status is
    [ready] or [error] keeps its status. A path of reconciliation that is
    resumed on a document it loaded earlier (the status route after its
    [findOne], the body of the poller's loop), whatever was written to the
    collection in between, touches no other record, creates none, and
    leaves the record it was loaded from with the status it has by then or
    moves it to [ready] or [error], never back to [uploading] or
    [processing]. (That a status is one of the four values holds by the
    type of the field.) *)
Theorem lifecycle_respected :
  (forall (engine : Engine.t) (op : operation) (w : Server.world),
      keyed (Server.db w) ->
      let w' := run engine op w in
      keyed (Server.db w')
      /\ (exists evs, Server.out w' = Server.out w ++ evs /\ Forall lawful evs)
      /\ (forall id v, Server.db w !! id = Some v ->
            exists v', Server.db w' !! id = Some v'
                       /\ (Video.status v' = Video.status v
                           \/ edge (Video.status v) (Video.status v')))
      /\ (forall id v', Server.db w !! id = None -> Server.db w' !! id = Some v' ->
            Video.status v' = uploading)
      /\ (forall id v, Server.db w !! id = Some v -> terminal (Video.status v) ->
            exists v', Server.db w' !! id = Some v' /\ Video.status v' = Video.status v))
  /\ (forall (engine : Engine.t) (viaSweep : bool) (v : Video.t) (n : Z)
             (w : Server.world),
         keyed (Server.db w) ->
         let w' := reapply engine viaSweep (loaded v n) w in
         keyed (Server.db w')
         /\ (forall k, k <> Video.id v -> Server.db w' !! k = Server.db w !! k)
         /\ (Server.db w !! Video.id v = None -> Server.db w' = Server.db w)
         /\ (forall p, Server.db w !! Video.id v = Some p ->
               exists p', Server.db w' !! Video.id v = Some p'
                          /\ (Video.status p' = Video.status p
                              \/ Video.status p' = ready \/ Video.status p' = error))).
Proof.
  split; [| intros engine viaSweep v n w Hk; now apply reapply_status].
  intros engine op w Hk. cbn zeta.
  destruct (run_respects engine op w Hk) as (H1 & H2 & H3 & H4).
  split; [exact H1|]. split; [exact H2|]. split; [exact H3|]. split; [exact H4|].
  intros id v Hv Hterm. destruct (H3 id v Hv) as (v' & Hv' & [Hs|He]).
  - now exists v'.
  - exfalso. destruct Hterm as [Ht|Ht]; rewrite Ht in He; inversion He.
Qed.

Lemma world0_keyed : keyed (Server.db world0).
Proof.
  unfold keyed, world0. cbn [Server.db].
  apply map_Forall_insert_2; [reflexivity|].
  apply map_Forall_insert_2; [reflexivity|]. apply map_Forall_empty.
Defined.

(** A use of C2: one sweep over [world0] while every job is reported
    completed. *)
Lemma lifecycle_respected_witness :
  let w' := run doneEngine Sweep world0 in
  keyed (Server.db w')
  /\ (exists evs, Server.out w' = Server.out world0 ++ evs /\ Forall lawful evs)
  /\ (forall id v, Server.db world0 !! id = Some v ->
        exists v', Server.db w' !! id = Some v'
                   /\ (Video.status v' = Video.status v
                       \/ edge (Video.status v) (Video.status v')))
  /\ (forall id v', Server.db world0 !! id = None -> Server.db w' !! id = Some v' ->
        Video.status v' = uploading)
  /\ (forall id v, Server.db world0 !! id = Some v -> terminal (Video.status v) ->
        exists v', Server.db w' !! id = Some v' /\ Video.status v' = Video.status v).
Proof. exact (proj1 lifecycle_respected doneEngine Sweep world0 world0_keyed). Defined.

(** C2 as stated fails when two paths of reconciliation interleave. The
    status route loads [clip] while it is in [processing]; the sweep then
    stores it as ready; the status route, resumed, is told by the processor
    that the job failed, and moves the ready record to [error]. The other
    way round, a record stored in [error] by the sweep is moved to [ready]
    by the status route resumed on the copy it had loaded. *)
Lemma stale_reconciliation_leaves_terminal :
  let w1 := run doneEngine Sweep world0 in
  let w2 := reapply (answering failedJob) false (loaded clip 0) w1 in
  let w1' := run (answering failedJob) Sweep world0 in
  let w2' := reapply doneEngine false (loaded clip 0) w1' in
  fst (Server.findOne "v1" world0) = Eff.Ok (Some (loaded clip 0))
  /\ (Video.status <$> Server.db w1 !! "v1") = Some ready
  /\ (Video.status <$> Server.db w2 !! "v1") = Some error
  /\ (Video.status <$> Server.db w1' !! "v1") = Some error
  /\ (Video.status <$> Server.db w2' !! "v1") = Some ready.
Proof. vm_compute. repeat split. Qed.

Lemma world1_keyed : keyed (Server.db world1).
Proof.
  unfold keyed, world1. cbn [Server.db].
  apply map_Forall_insert_2; [reflexivity|].
  apply map_Forall_insert_2; [reflexivity|].
  apply map_Forall_insert_2; [reflexivity|]. apply map_Forall_empty.
Defined.

(** A use of C9: the sweep over [world1] while the request about [job-7]
    never settles. *)
Lemma sweep_isolates_failures_witness :
  let pending := String.eqb "job-7" in
  let r := Server.checkProcessingJobsPending mixedEngine pending world1 in
  let vs := processingOf (Server.db world1) in
  ((forall v, v ∈ vs -> Server.awaited pending (loadedFrom world1 v) = false) ->
   exists evs,
     fst r = Some tt
     /\ Server.out (snd r) = Server.out world1 ++ evs
     /\ forall (id : string) (v : Video.t),
          Server.db world1 !! id = Some v ->
          Video.status v = processing ->
          (Js.truthy (Video.jobId v) = false -> Server.db (snd r) !! id = Some v)
          /\ forall j : string,
               Video.jobId v = Some j -> Js.truthy (Some j) = true ->
               In j (engineQueries evs)
               /\ (forall m, Engine.settled (Engine.job mixedEngine j) = inl m ->
                             In (Server.ConsoleError (checkLabel j) m) evs
                             /\ Server.db (snd r) !! id = Some v)
               /\ (forall job, Engine.settled (Engine.job mixedEngine j) = inr job ->
                               exists t, Server.db (snd r) !! id
                                         = Some (default v (reconciled t job v))))
  /\ (forall (before after : list Video.t) (v : Video.t),
         vs = before ++ v :: after ->
         (forall u, u ∈ before -> Server.awaited pending (loadedFrom world1 u) = false) ->
         Server.awaited pending (loadedFrom world1 v) = true ->
         exists evs,
           fst r = None
           /\ Server.out (snd r) = Server.out world1 ++ evs
           /\ engineQueries evs = jobsOf before ++ [default "" (Video.jobId v)]
           /\ forall u, u ∈ v :: after -> Server.db (snd r) !! Video.id u = Some u).
Proof.
  exact (sweep_isolates_failures mixedEngine (String.eqb "job-7") world1 world1_keyed).
Defined.

(** The sweep over [world1] when every request settles: both queries are
    sent, the failure of [job-7] is logged, and [v1] is stored as ready with
    its two formats. *)
Example sweep_world1 :
  let w' := snd (Server.checkProcessingJobs mixedEngine world1) in
  engineQueries (Server.out w') = ["job-7"; "job-42"]
  /\ In (Server.ConsoleError (checkLabel "job-7") "timeout of 30000ms exceeded")
        (Server.out w')
  /\ (Video.status <$> Server.db w' !! "v1") = Some ready
  /\ (length ∘ Video.formats <$> Server.db w' !! "v1") = Some 2%nat
  /\ Server.db w' !! "v3" = Some other
  /\ Server.db w' !! "v2" = Some stuck.
Proof.
  vm_compute. split; [reflexivity | split; [| repeat split]]. tauto.
Qed.

(** C9 as stated fails twice over. The sweep of [world1] loads [v3], [v1]
    and [v2], in this order. When the request about the job of [v3] never
    settles, the sweep does not return, the job of [v1] is never asked
    about, and [v1] stays in [processing] although the processor has it
    completed. And when every request settles, [v2], which has no job, is
    loaded but no query is issued for it: two queries for three records. *)
Lemma sweep_stalls_on_pending_query :
  let r := Server.checkProcessingJobsPending mixedEngine (String.eqb "job-7") world1 in
  (Video.id <$> processingOf (Server.db world1)) = ["v3"; "v1"; "v2"]
  /\ fst r = None
  /\ engineQueries (Server.out (snd r)) = ["job-7"]
  /\ Server.db (snd r) !! "v1" = Some clip
  /\ Engine.settled (Engine.job mixedEngine "job-42") = inr doneJob
  /\ engineQueries (Server.out (snd (Server.checkProcessingJobs mixedEngine world1)))
     = ["job-7"; "job-42"].
Proof. vm_compute. repeat split. Qed.

(** ** Reconciliation, applied twice *)

(** C1, as the code has it. For every stored record in [processing] with a
    job (such a record has no formats yet) and every completed answer with
    its data, loaded at version [n] by two paths of reconciliation (status
    route or sweep): the first application stores the ready record of the
    answer. The second application, of the identical answer from the copy
    loaded before the first, replaces the array [formats], so its update
    carries the version it loaded: when the answer has encoded files, the
    first application has incremented the version, the second is refused
    (the error is logged) and the stored record stays bit for bit what the
    first application left; when the answer has no encoded file, [formats]
    is not modified, no version is checked, and the second application
    stores the same fields again with [updatedAt] set to its own time. The
    routes themselves, run one after the other, guard the update by the
    status they load: a second status query, and a second sweep, against
    the same answers leave the collection exactly as the first left it. *)
Theorem reconcile_completed_twice :
  (forall (engine : Engine.t) (first second : bool) (v : Video.t) (n : Z)
          (w : Server.world) (j : string) (job : Engine.Job) (d : Engine.JobData)
          (files : list EncodedFile.t),
      Video.status v = processing ->
      Video.jobId v = Some j -> Js.truthy (Some j) = true ->
      Video.formats v = [] ->
      Server.db w !! Video.id v = Some v ->
      Server.versionOf w (Video.id v) = n ->
      Engine.settled (Engine.job engine j) = inr job ->
      Engine.status job = "completed" -> Engine.data job = Some d ->
      Engine.encoded_files d = Some files ->
      let w1 := reapply engine first (loaded v n) w in
      let w2 := reapply engine second (loaded v n) w1 in
      Server.db w1 !! Video.id v = Some (completedRecord (Server.clock w1) d files v)
      /\ (files <> [] ->
          Server.db w2 = Server.db w1
          /\ In (Server.ConsoleError (pathLabel second j)
                   "VersionError: No matching document found") (Server.out w2))
      /\ (files = [] ->
          Server.db w2 !! Video.id v
          = Some (completedRecord
                    (if decide (Server.clock w2 = Video.updatedAt v)
                     then Server.clock w1 else Server.clock w2) d files v)))
  /\ (forall (engine : Engine.t) (id : string) (w : Server.world),
         keyed (Server.db w) ->
         Server.db (run engine (QueryStatus id) (run engine (QueryStatus id) w))
         = Server.db (run engine (QueryStatus id) w))
  /\ (forall (engine : Engine.t) (w : Server.world),
         keyed (Server.db w) ->
         Server.db (run engine Sweep (run engine Sweep w))
         = Server.db (run engine Sweep w)).
Proof.
  split; [| split; [apply status_twice | apply sweep_twice]].
  intros engine first second v n w j job d files Hs Hj Ht Hfm Hv Hn Hjob Hst Hd Hf.
  set (lat := Engine.latency (Engine.job engine j)).
  assert (Hrec : forall t, reconciled t job v = Some (completedRecord t d files v)).
  { intros t. unfold reconciled. now rewrite Hst, Hd, Hf. }
  assert (Hne : forall t, completedRecord t d files v <> v).
  { intros t E. apply (f_equal Video.status) in E. cbn in E. congruence. }
  assert (Hbump : forall t, bool_decide (Video.formats (completedRecord t d files v)
                                         <> Video.formats v)
                            = bool_decide (files <> [])).
  { intros t. rewrite Hfm. cbn. apply bool_decide_ext.
    destruct files; cbn; split; intros H; congruence. }
  destruct (reapply_landed engine first j job v _ v n w Hs Hj Ht Hjob (Hrec _) (Hne _)
              Hv eq_refl (fun _ => Hn)) as (Hdb1 & Hclock1 & Hver1 & _).
  cbn zeta. fold lat in Hclock1, Hdb1. rewrite merge_loaded in Hdb1 by reflexivity.
  rewrite Hclock1.
  set (w1 := reapply engine first (loaded v n) w) in *.
  set (p := completedRecord (Server.clock w + lat) d files v) in *.
  assert (Hp : Server.db w1 !! Video.id v = Some p).
  { rewrite Hdb1. apply lookup_insert_eq. }
  rewrite Hbump, Hn in Hver1.
  split; [exact Hp |]. split.
  - intros Hfiles. rewrite bool_decide_eq_true_2 in Hver1 by exact Hfiles.
    destruct (reapply_refused engine second j job v _ p n w1 Hs Hj Ht Hjob (Hrec _) Hp)
      as (Hdb2 & _ & _ & Hout2).
    + intros E. rewrite Hfm in E. cbn in E. destruct files; [now apply Hfiles | discriminate E].
    + rewrite Hver1. lia.
    + split; [exact Hdb2 |]. rewrite Hout2. apply in_or_app. right. right. now left.
  - intros Hfiles.
    destruct (reapply_landed engine second j job v _ p n w1 Hs Hj Ht Hjob (Hrec _) (Hne _)
                Hp eq_refl) as (Hdb2 & Hclock2 & _).
    + intros E. exfalso. apply E. rewrite Hfm, Hfiles. reflexivity.
    + rewrite Hdb2, Hclock2, Hclock1. rewrite lookup_insert_eq. f_equal.
      unfold p. fold lat. apply merge_completed.
Qed.

(** A use of C1: the record [clip] of [world0], updated by the status
    route and then by the sweep from the same completed answer. *)
Lemma reconcile_completed_twice_witness :
  let w1 := reapply doneEngine false (loaded clip 0) world0 in
  let w2 := reapply doneEngine true (loaded clip 0) w1 in
  Server.db w1 !! Video.id clip
  = Some (completedRecord (Server.clock w1) doneData doneFiles clip)
  /\ (doneFiles <> [] ->
      Server.db w2 = Server.db w1
      /\ In (Server.ConsoleError (pathLabel true "job-42")
               "VersionError: No matching document found") (Server.out w2))
  /\ (doneFiles = [] ->
      Server.db w2 !! Video.id clip
      = Some (completedRecord
                (if decide (Server.clock w2 = Video.updatedAt clip)
                 then Server.clock w1 else Server.clock w2) doneData doneFiles clip)).
Proof.
  refine (proj1 reconcile_completed_twice doneEngine false true clip 0 world0 "job-42"
            doneJob doneData doneFiles _ _ _ _ _ _ _ _ _ _);
    vm_compute; reflexivity.
Defined.

(** C1 as stated fails for a completed answer without encoded files: the
    status route updates [clip] from the answer at 2020 ms; the sweep, which
    had loaded [clip] before that, then applies the identical answer, and
    the stored record is no longer the one a single application left:
    [updatedAt] has moved to 2040 ms. *)
Lemma reconcile_completed_twice_differs :
  let once := reapply (answering bareJob) false (loaded clip 0) world0 in
  let twice := reapply (answering bareJob) true (loaded clip 0) once in
  fst (Server.findOne "v1" world0) = Eff.Ok (Some (loaded clip 0))
  /\ Engine.status bareJob = "completed"
  /\ (Video.updatedAt <$> Server.db once !! "v1") = Some 2020
  /\ (Video.updatedAt <$> Server.db twice !! "v1") = Some 2040
  /\ Server.db twice !! "v1" <> Server.db once !! "v1".
Proof.
  vm_compute. repeat split; try reflexivity. intros H. discriminate H.
Qed.

(** ** Writes of reconciliation *)

(** C5, as the code has it. Reconciliation is gated where the record is
    loaded, not where it is written: the status route updates only a loaded
    copy in [processing] (with a job), and the sweep loads only records in
    [processing]. No write is conditional on the stored status. The update
    from a failed job is unconditional: a path resumed on a copy loaded in
    [processing] stores status [error] and its time over the stored record,
    whatever that record is by then, and keeps its other fields. The update
    from a completed job with encoded files replaces [formats] and so
    carries the version of the document: it is refused when the stored
    version is no longer the loaded one, and lands when it still is,
    whatever the stored status. *)
Theorem reconciliation_write_unconditional :
  (forall (engine : Engine.t) (viaSweep : bool) (v p : Video.t) (n : Z)
          (w : Server.world) (j : string) (job : Engine.Job),
      Video.status v = processing ->
      Video.jobId v = Some j -> Js.truthy (Some j) = true ->
      Server.db w !! Video.id v = Some p -> Video.id p = Video.id v ->
      Engine.settled (Engine.job engine j) = inr job ->
      Engine.status job = "error" ->
      let w' := reapply engine viaSweep (loaded v n) w in
      let p' := failedRecord (if decide (Server.clock w' = Video.updatedAt v)
                              then Video.updatedAt p else Server.clock w') p in
      Server.db w' !! Video.id v = Some p'
      /\ In (Server.DbWrite (Some p) p') (Server.out w'))
  /\ (forall (engine : Engine.t) (viaSweep : bool) (v p : Video.t) (n : Z)
             (w : Server.world) (j : string) (job : Engine.Job) (d : Engine.JobData)
             (files : list EncodedFile.t),
         Video.status v = processing ->
         Video.jobId v = Some j -> Js.truthy (Some j) = true ->
         Video.formats v = [] ->
         Server.db w !! Video.id v = Some p -> Video.id p = Video.id v ->
         Engine.settled (Engine.job engine j) = inr job ->
         Engine.status job = "completed" -> Engine.data job = Some d ->
         Engine.encoded_files d = Some files -> files <> [] ->
         let w' := reapply engine viaSweep (loaded v n) w in
         (Server.versionOf w (Video.id v) <> n ->
          Server.db w' = Server.db w
          /\ In (Server.ConsoleError (pathLabel viaSweep j)
                   "VersionError: No matching document found") (Server.out w'))
         /\ (Server.versionOf w (Video.id v) = n ->
             exists p', Server.db w' !! Video.id v = Some p'
                        /\ In (Server.DbWrite (Some p) p') (Server.out w')
                        /\ Video.status p' = ready
                        /\ Video.formats p'
                           = map (fun f => Format.mk (EncodedFile.quality f)
                                             (EncodedFile.url f) (EncodedFile.size f)
                                             (EncodedFile.bitrate f)) files
                        /\ Server.versionOf w' (Video.id v) = n + 1))
  /\ (forall (engine : Engine.t) (v : Video.t) (n : Z) (w : Server.world),
         Video.status v <> processing -> reapply engine false (loaded v n) w = w)
  /\ (forall (m : gmap string Video.t) (v : Video.t),
         keyed m -> v ∈ processingOf m -> Video.status v = processing).
Proof.
  split; [| split; [| split; [intros; now apply reapply_gate |]]].
  - intros engine viaSweep v p n w j job Hs Hj Ht Hp Hpid Hjob Hst. cbn zeta.
    set (t := Server.clock w + Engine.latency (Engine.job engine j)).
    assert (Hrec : reconciled t job v = Some (failedRecord t v)).
    { unfold reconciled. rewrite Hst. cbn. now destruct (Engine.data job). }
    destruct (reapply_landed engine viaSweep j job v _ p n w Hs Hj Ht Hjob Hrec)
      as (Hdb & Hclock & _ & Hout & _); try assumption.
    + intros E. apply (f_equal Video.status) in E. cbn in E. congruence.
    + intros E. exfalso. now apply E.
    + fold t in Hclock. rewrite Hclock. rewrite merge_failed in Hdb, Hout by exact Hs.
      split; [rewrite Hdb; apply lookup_insert_eq | exact Hout].
  - intros engine viaSweep v p n w j job d files Hs Hj Ht Hfm Hp Hpid Hjob Hst Hd Hf Hfiles.
    cbn zeta.
    set (t := Server.clock w + Engine.latency (Engine.job engine j)).
    assert (Hrec : reconciled t job v = Some (completedRecord t d files v)).
    { unfold reconciled. now rewrite Hst, Hd, Hf. }
    assert (Hfne : Video.formats (completedRecord t d files v) <> Video.formats v).
    { rewrite Hfm. cbn. destruct files; [now elim Hfiles | discriminate]. }
    split.
    + intros Hn.
      destruct (reapply_refused engine viaSweep j job v _ p n w Hs Hj Ht Hjob Hrec Hp Hfne Hn)
        as (Hdb & _ & _ & Hout).
      split; [exact Hdb |]. rewrite Hout. apply in_or_app. right. right. now left.
    + intros Hn.
      destruct (reapply_landed engine viaSweep j job v _ p n w Hs Hj Ht Hjob Hrec)
        as (Hdb & _ & Hver & Hout & _); try assumption.
      * intros E. apply Hfne. now rewrite E.
      * intros _. exact Hn.
      * eexists. split; [rewrite Hdb; apply lookup_insert_eq |].
        split; [exact Hout |].
        rewrite bool_decide_eq_true_2 in Hver by exact Hfne. rewrite Hn in Hver.
        split; [| split; [| exact Hver]].
        -- unfold Video.merge, Video.pick. cbn. rewrite Hs.
           now rewrite decide_False by discriminate.
        -- unfold Video.merge, Video.pick.
           cbn [Video.formats]. rewrite decide_False by exact Hfne. reflexivity.
  - intros m v Hk Hin. now apply processingOf_spec in Hin as [_ Hs].
Qed.

(** A use of C5: the status route resumed on its copy of [clip] after the
    sweep has stored the record as ready, when the processor then reports
    the job failed. *)
Lemma reconciliation_write_unconditional_witness :
  let w := run doneEngine Sweep world0 in
  let p := completedRecord 2020 doneData doneFiles clip in
  let w' := reapply (answering failedJob) false (loaded clip 0) w in
  let p' := failedRecord (if decide (Server.clock w' = Video.updatedAt clip)
                          then Video.updatedAt p else Server.clock w') p in
  Server.db w' !! Video.id clip = Some p'
  /\ In (Server.DbWrite (Some p) p') (Server.out w').
Proof.
  refine (proj1 reconciliation_write_unconditional (answering failedJob) false clip
            (completedRecord 2020 doneData doneFiles clip) 0
            (run doneEngine Sweep world0) "job-42" failedJob _ _ _ _ _ _ _);
    vm_compute; reflexivity.
Defined.

(** C5 as stated fails: the processor reports the job of [clip] failed;
    the sweep stores [clip] in [error] at 2020 ms; the status route,
    resumed on the copy it loaded while the record was in [processing],
    applies the same outcome again, and its write lands on the record in
    [error]: the stored record changes. *)
Lemma stale_write_over_error :
  let w1 := run (answering failedJob) Sweep world0 in
  let w2 := reapply (answering failedJob) false (loaded clip 0) w1 in
  fst (Server.findOne "v1" world0) = Eff.Ok (Some (loaded clip 0))
  /\ exists p p',
       Server.db w1 !! "v1" = Some p
       /\ Video.status p = error
       /\ In (Server.DbWrite (Some p) p') (Server.out w2)
       /\ Server.db w2 !! "v1" = Some p'
       /\ Video.updatedAt p = 2020 /\ Video.updatedAt p' = 2040
       /\ p' <> p.
Proof.
  cbn zeta. split; [vm_compute; reflexivity|].
  eexists _, _. split; [vm_compute; reflexivity|].
  split; [reflexivity|]. split.
  - vm_compute. do 4 right. left. reflexivity.
  - split; [vm_compute; reflexivity|]. split; [reflexivity |]. split; [reflexivity |].
    intros H. discriminate H.
Qed.

(** * Further properties *)

(** ** The status route, by answer *)

Section StatusAnswers.

Variable engine : Engine.t.

(** The guarded query when the processor answers with a job. *)
Lemma tryQuery_answered (announce : bool) (label j : string) (job : Engine.Job)
    (d : Video.document) (w : Server.world) :
  Engine.settled (Engine.job engine j) = inr job ->
  tryQuery engine announce label j (d, w)
  = Eff.tryCatch (Server.reconcile announce job)
      (fun jobError => Eff.outer (Server.emit (Server.ConsoleError label jobError)))
      (d, afterRequest (Server.AxiosGet j) (Engine.latency (Engine.job engine j)) w).
Proof.
  intros Hjob. unfold tryQuery, Eff.tryCatch, Eff.bind at 1, Eff.outer at 1,
    Server.axiosGet, Eff.bind at 1, Server.emit at 1, Eff.modify at 1, Server.settle,
    Eff.bind at 1, Eff.modify at 1.
  cbn [fst snd]. rewrite Hjob. unfold Eff.ret at 1. destruct d. reflexivity.
Qed.

(** An answer that is neither a completed job with data nor a failed job. *)
Lemma reconcile_pending (announce : bool) (job : Engine.Job) (s : Video.document * Server.world) :
  String.eqb (Engine.status job) "error" = false ->
  (String.eqb (Engine.status job) "completed" = false \/ Engine.data job = None) ->
  Server.reconcile announce job s = (Eff.Ok tt, s).
Proof.
  intros He Hc. unfold Server.reconcile. rewrite He.
  destruct Hc as [-> | ->]; [reflexivity|].
  destruct (String.eqb (Engine.status job) "completed"); reflexivity.
Qed.

(** A completed job whose data has no [encoded_files]: the assignments up
    to [formats] are made, then [map] throws. *)
Lemma reconcile_broken (announce : bool) (job : Engine.Job) (jd : Engine.JobData)
    (d : Video.document) (w : Server.world) :
  Engine.status job = "completed" -> Engine.data job = Some jd ->
  Engine.encoded_files jd = None ->
  Server.reconcile announce job (d, w)
  = (Eff.Thrown "TypeError: Cannot read properties of undefined (reading 'map')",
     (Video.mkDoc
        (Video.set_videoInfo (Engine.video_info jd)
           (Video.set_duration (Engine.duration jd)
              (Video.set_thumbnail (Engine.thumbnail_url jd)
                 (Video.set_status ready (Video.cur d)))))
        (Video.base d) (Video.version d), w)).
Proof.
  intros Hs Hd Hf. unfold Server.reconcile. rewrite Hs, Hd, Hf. reflexivity.
Qed.

(** The status route on a record in [processing] with a job whose answer
    asks for an update: the update is stored. *)
Lemma getVideoStatus_updated (j : string) (job : Engine.Job) (v v' : Video.t)
    (w : Server.world) :
  Server.db w !! Video.id v = Some v ->
  Video.status v = processing ->
  Video.jobId v = Some j -> Js.truthy (Some j) = true ->
  Engine.settled (Engine.job engine j) = inr job ->
  reconciled (Server.clock w + Engine.latency (Engine.job engine j)) job v = Some v' ->
  v' <> v ->
  let r := Server.getVideoStatus engine (Video.id v) w in
  fst r = Eff.Ok (Server.ResStatus (Video.id v') (Video.status v') (Video.jobId v')
                    (Video.updatedAt v'))
  /\ Server.db (snd r) = <[Video.id v := v']> (Server.db w)
  /\ Server.out (snd r) = Server.out w ++ [Server.AxiosGet j; Server.DbWrite (Some v) v'].
Proof.
  intros Hv Hs Hj Ht Hjob Hrec Hne. cbn zeta.
  rewrite (getVideoStatus_found engine (Video.id v) v w Hv).
  rewrite (statusOf_query engine (loaded v _) w j Hs Hj Ht).
  rewrite (tryQuery_landed engine false _ j job v v' v _ w Hjob Hrec Hne Hv eq_refl
             (fun _ => eq_refl)).
  rewrite merge_loaded by exact (reconciled_id _ _ _ _ Hrec).
  unfold updated. cbn. rewrite (reconciled_id _ _ _ _ Hrec), <- app_assoc.
  repeat split.
Qed.

End StatusAnswers.

(** X1: for a stored record that is not in [processing], or that has no
    job, the status route answers with the stored status, [jobId] and
    [updatedAt] and leaves the world as it was: no request to the
    processor, no write, no log. *)
Theorem status_query_settled (engine : Engine.t) (w : Server.world) (id : string)
    (v : Video.t) :
  Server.db w !! id = Some v ->
  (Video.status v <> processing \/ Js.truthy (Video.jobId v) = false) ->
  Server.getVideoStatus engine id w
  = (Eff.Ok (Server.ResStatus (Video.id v) (Video.status v) (Video.jobId v)
               (Video.updatedAt v)), w).
Proof.
  intros Hv Hs. rewrite (getVideoStatus_found engine id v w Hv).
  rewrite statusOf_skip; [reflexivity|]. cbn.
  destruct Hs as [Hs | ->]; [now rewrite bool_decide_eq_false_2 | apply andb_false_r].
Qed.

Lemma status_query_settled_witness :
  Server.getVideoStatus downEngine "v1" worldReady
  = (Eff.Ok (Server.ResStatus "v1" ready (Some "job-42") 1500), worldReady).
Proof.
  apply (status_query_settled downEngine worldReady "v1" readyClip).
  - vm_compute. reflexivity.
  - left. discriminate.
Defined.

(** X2: for a record in [processing] stored under its id with a job, when
    the processor reports the job completed with its data, the status route
    answers [ready] and stores the record with status [ready], the
    thumbnail, duration and video info of the answer, one format per encoded
    file, in order, made of its quality, url, size and bitrate, and
    [updatedAt] at the time the answer arrived; title, description, file
    name, [jobId] and [createdAt] are kept, no other record changes, and the
    route makes this one write. *)
Theorem status_query_completed (engine : Engine.t) (w : Server.world) (j : string)
    (v : Video.t) (job : Engine.Job) (jd : Engine.JobData) (files : list EncodedFile.t) :
  Server.db w !! Video.id v = Some v ->
  Video.status v = processing ->
  Video.jobId v = Some j -> Js.truthy (Some j) = true ->
  Engine.settled (Engine.job engine j) = inr job ->
  Engine.status job = "completed" -> Engine.data job = Some jd ->
  Engine.encoded_files jd = Some files ->
  let r := Server.getVideoStatus engine (Video.id v) w in
  let t := Server.clock w + Engine.latency (Engine.job engine j) in
  exists v',
    fst r = Eff.Ok (Server.ResStatus (Video.id v) ready (Some j) t)
    /\ Server.db (snd r) = <[Video.id v := v']> (Server.db w)
    /\ v' = Video.mk (Video.id v) (Video.title v) (Video.description v)
              (Video.originalFilename v) ready (Some j)
              (Engine.thumbnail_url jd) (Engine.duration jd)
              (map (fun f => Format.mk (EncodedFile.quality f) (EncodedFile.url f)
                               (EncodedFile.size f) (EncodedFile.bitrate f)) files)
              (Engine.video_info jd) (Video.createdAt v) t
    /\ Server.out (snd r)
       = Server.out w ++ [Server.AxiosGet j; Server.DbWrite (Some v) v'].
Proof.
  intros Hv Hs Hj Ht Hjob Hst Hd Hf. cbn zeta.
  set (t := Server.clock w + Engine.latency (Engine.job engine j)).
  assert (Hrec : reconciled t job v = Some (completedRecord t jd files v)).
  { unfold reconciled. now rewrite Hst, Hd, Hf. }
  destruct (getVideoStatus_updated engine j job v _ w Hv Hs Hj Ht Hjob Hrec)
    as (Hres & Hdb & Hout).
  { intros E. apply (f_equal Video.status) in E. cbn in E. congruence. }
  exists (completedRecord t jd files v).
  split; [rewrite Hres; cbn; now rewrite Hj |]. split; [exact Hdb |].
  split; [unfold completedRecord; now rewrite Hj | exact Hout].
Qed.

Lemma status_query_completed_witness :
  let r := Server.getVideoStatus doneEngine (Video.id clip) world0 in
  let t := Server.clock world0 + Engine.latency (Engine.job doneEngine "job-42") in
  exists v',
    fst r = Eff.Ok (Server.ResStatus (Video.id clip) ready (Some "job-42") t)
    /\ Server.db (snd r) = <[Video.id clip := v']> (Server.db world0)
    /\ v' = Video.mk (Video.id clip) (Video.title clip) (Video.description clip)
              (Video.originalFilename clip) ready (Some "job-42")
              (Engine.thumbnail_url doneData) (Engine.duration doneData)
              (map (fun f => Format.mk (EncodedFile.quality f) (EncodedFile.url f)
                               (EncodedFile.size f) (EncodedFile.bitrate f)) doneFiles)
              (Engine.video_info doneData) (Video.createdAt clip) t
    /\ Server.out (snd r)
       = Server.out world0 ++ [Server.AxiosGet "job-42"; Server.DbWrite (Some clip) v'].
Proof.
  refine (status_query_completed doneEngine world0 "job-42" clip doneJob doneData
            doneFiles _ _ _ _ _ _ _ _); vm_compute; reflexivity.
Defined.

(** X3: for a record in [processing] stored under its id with a job, when
    the processor reports the job failed, the status route answers [error]
    and stores the record with status [error] and [updatedAt] at the time
    the answer arrived; every other field, the formats among them, is
    kept. *)
Theorem status_query_failed (engine : Engine.t) (w : Server.world) (j : string)
    (v : Video.t) (job : Engine.Job) :
  Server.db w !! Video.id v = Some v ->
  Video.status v = processing ->
  Video.jobId v = Some j -> Js.truthy (Some j) = true ->
  Engine.settled (Engine.job engine j) = inr job ->
  Engine.status job = "error" ->
  let r := Server.getVideoStatus engine (Video.id v) w in
  let t := Server.clock w + Engine.latency (Engine.job engine j) in
  fst r = Eff.Ok (Server.ResStatus (Video.id v) error (Some j) t)
  /\ Server.db (snd r)
     = <[Video.id v := Video.set_updatedAt t (Video.set_status error v)]> (Server.db w)
  /\ Server.out (snd r)
     = Server.out w
       ++ [Server.AxiosGet j;
           Server.DbWrite (Some v) (Video.set_updatedAt t (Video.set_status error v))].
Proof.
  intros Hv Hs Hj Ht Hjob Hst. cbn zeta.
  set (t := Server.clock w + Engine.latency (Engine.job engine j)).
  assert (Hrec : reconciled t job v = Some (failedRecord t v)).
  { unfold reconciled. rewrite Hst. cbn. now destruct (Engine.data job). }
  destruct (getVideoStatus_updated engine j job v _ w Hv Hs Hj Ht Hjob Hrec)
    as (Hres & Hdb & Hout).
  { intros E. apply (f_equal Video.status) in E. cbn in E. congruence. }
  split; [rewrite Hres; cbn; now rewrite Hj |]. split; [exact Hdb | exact Hout].
Qed.

Lemma status_query_failed_witness :
  let r := Server.getVideoStatus (answering failedJob) (Video.id clip) world0 in
  let t := Server.clock world0
           + Engine.latency (Engine.job (answering failedJob) "job-42") in
  fst r = Eff.Ok (Server.ResStatus (Video.id clip) error (Some "job-42") t)
  /\ Server.db (snd r)
     = <[Video.id clip := Video.set_updatedAt t (Video.set_status error clip)]>
         (Server.db world0)
  /\ Server.out (snd r)
     = Server.out world0
       ++ [Server.AxiosGet "job-42";
           Server.DbWrite (Some clip) (Video.set_updatedAt t (Video.set_status error clip))].
Proof.
  refine (status_query_failed (answering failedJob) world0 "job-42" clip failedJob
            _ _ _ _ _ _); vm_compute; reflexivity.
Defined.

(** X4: for a stored record in [processing] with a job, when the processor
    answers with a status that is neither ['completed'] nor ['error'], or
    with ['completed'] but no data, the status route writes and logs
    nothing and answers with the stored status and [updatedAt]. *)
Theorem status_query_pending (engine : Engine.t) (w : Server.world) (id j : string)
    (v : Video.t) (job : Engine.Job) :
  Server.db w !! id = Some v ->
  Video.status v = processing ->
  Video.jobId v = Some j -> Js.truthy (Some j) = true ->
  Engine.settled (Engine.job engine j) = inr job ->
  String.eqb (Engine.status job) "error" = false ->
  (String.eqb (Engine.status job) "completed" = false \/ Engine.data job = None) ->
  Server.getVideoStatus engine id w
  = (Eff.Ok (Server.ResStatus (Video.id v) processing (Some j) (Video.updatedAt v)),
     afterRequest (Server.AxiosGet j) (Engine.latency (Engine.job engine j)) w).
Proof.
  intros Hv Hs Hj Ht Hjob He Hc.
  rewrite (getVideoStatus_found engine id v w Hv).
  rewrite (statusOf_query engine (loaded v _) w j Hs Hj Ht).
  rewrite (tryQuery_answered engine false _ j job (loaded v _) w Hjob).
  unfold Eff.tryCatch. rewrite (reconcile_pending false job _ He Hc).
  cbn. now rewrite Hs, Hj.
Qed.

Lemma status_query_pending_witness :
  Server.getVideoStatus (answering runningJob) "v1" world0
  = (Eff.Ok (Server.ResStatus (Video.id clip) processing (Some "job-42")
               (Video.updatedAt clip)),
     afterRequest (Server.AxiosGet "job-42")
       (Engine.latency (Engine.job (answering runningJob) "job-42")) world0).
Proof.
  refine (status_query_pending (answering runningJob) world0 "v1" "job-42" clip
            runningJob _ _ _ _ _ _ _);
    try (vm_compute; reflexivity).
  left. reflexivity.
Defined.

(** X5: for a stored record in [processing] with a job, when the processor
    reports the job completed with data that has no [encoded_files], the
    [TypeError] of [encoded_files.map] is caught and logged and nothing is
    written; the answer of the route is built from the document in memory,
    whose status was assigned before the error: it says [ready] while the
    stored record is still in [processing]. *)
Theorem status_query_broken_payload (engine : Engine.t) (w : Server.world)
    (id j : string) (v : Video.t) (job : Engine.Job) (jd : Engine.JobData) :
  Server.db w !! id = Some v ->
  Video.status v = processing ->
  Video.jobId v = Some j -> Js.truthy (Some j) = true ->
  Engine.settled (Engine.job engine j) = inr job ->
  Engine.status job = "completed" -> Engine.data job = Some jd ->
  Engine.encoded_files jd = None ->
  let r := Server.getVideoStatus engine id w in
  fst r = Eff.Ok (Server.ResStatus (Video.id v) ready (Some j) (Video.updatedAt v))
  /\ Server.db (snd r) = Server.db w
  /\ Server.out (snd r)
     = Server.out w
       ++ [Server.AxiosGet j;
           Server.ConsoleError "Error checking job status:"
             "TypeError: Cannot read properties of undefined (reading 'map')"].
Proof.
  intros Hv Hs Hj Ht Hjob Hst Hd Hf. cbn zeta.
  rewrite (getVideoStatus_found engine id v w Hv).
  rewrite (statusOf_query engine (loaded v _) w j Hs Hj Ht).
  rewrite (tryQuery_answered engine false _ j job (loaded v _) w Hjob).
  unfold Eff.tryCatch. rewrite (reconcile_broken false job jd _ _ Hst Hd Hf).
  cbn. rewrite Hj, <- app_assoc. repeat split.
Qed.

Lemma status_query_broken_payload_witness :
  let r := Server.getVideoStatus (answering brokenJob) "v1" world0 in
  fst r = Eff.Ok (Server.ResStatus (Video.id clip) ready (Some "job-42")
                    (Video.updatedAt clip))
  /\ Server.db (snd r) = Server.db world0
  /\ Server.out (snd r)
     = Server.out world0
       ++ [Server.AxiosGet "job-42";
           Server.ConsoleError "Error checking job status:"
             "TypeError: Cannot read properties of undefined (reading 'map')"].
Proof.
  refine (status_query_broken_payload (answering brokenJob) world0 "v1" "job-42" clip
            brokenJob (Engine.mkJobData None (Some "https://cdn/v1.jpg") (Some 12) None)
            _ _ _ _ _ _ _ _); vm_compute; reflexivity.
Defined.

(** ** The upload route, by request *)

(** X6: an upload that carries a file but whose title is missing, empty or
    blank is answered 400; no record is created, nothing is sent to the
    processor, and the file multer stored stays on disk: the early return
    has no cleanup. *)
Theorem upload_without_title_keeps_file (engine : Engine.t) (w : Server.world)
    (videoId : string) (req : Server.UploadRequest) (f : Server.File) :
  Server.file req = Some f ->
  (Js.truthy (Server.title (Server.body req)) = false
   \/ Js.trim (default "" (Server.title (Server.body req))) = "") ->
  let r := Server.postVideosUpload engine videoId req w in
  fst r = Eff.Ok (Server.ResError 400 "Title is required")
  /\ Server.db (snd r) = Server.db w
  /\ Server.out (snd r) = Server.out w
  /\ Server.path f ∈ Server.disk (snd r).
Proof.
  intros Hf Ht. cbn zeta.
  rewrite (postVideosUpload_no_title engine videoId req f w Hf).
  - cbn. repeat split. apply elem_of_union_l. now apply elem_of_singleton.
  - destruct Ht as [-> | ->]; [reflexivity | apply orb_true_r].
Qed.

Lemma upload_without_title_keeps_file_witness :
  let req := Server.mkUpload (Some (Server.mkFile "uploads/video-2.mp4" "a.mp4"))
               (Server.mkBody (Some "   ") (Some "about")) in
  let r := Server.postVideosUpload doneEngine "v9" req emptyWorld in
  fst r = Eff.Ok (Server.ResError 400 "Title is required")
  /\ Server.db (snd r) = Server.db emptyWorld
  /\ Server.out (snd r) = Server.out emptyWorld
  /\ "uploads/video-2.mp4" ∈ Server.disk (snd r).
Proof.
  refine (upload_without_title_keeps_file doneEngine emptyWorld "v9" _
            (Server.mkFile "uploads/video-2.mp4" "a.mp4") _ _).
  - reflexivity.
  - right. vm_compute. reflexivity.
Defined.

(** X7: an accepted upload is answered 500 ['Failed to upload video'],
    whatever the processor would answer and whether the id is fresh or
    taken: the route throws before the form for the processor is complete,
    so that nothing is submitted, no job is asked about and no time is
    spent waiting; the uploaded file is unlinked and is no longer on
    disk. *)
Theorem upload_releases_file (engine : Engine.t) (w : Server.world)
    (videoId : string) (req : Server.UploadRequest) (f : Server.File) :
  accepted req f ->
  let r := Server.postVideosUpload engine videoId req w in
  exists evs,
    fst r = Eff.Ok (Server.ResError 500 "Failed to upload video")
    /\ Server.out (snd r) = Server.out w ++ evs
    /\ (Server.path f ∉ Server.disk (snd r))
    /\ In (Server.Unlink (Server.path f)) evs
    /\ submissions evs = []
    /\ engineQueries evs = []
    /\ Server.clock (snd r) = Server.clock w.
Proof.
  intros Hacc. cbn zeta.
  pose proof (postVideosUpload_run engine videoId req f w Hacc) as Hrun. cbn zeta in Hrun.
  destruct (String.eqb videoId ""); [| destruct (Server.db w !! videoId)];
    rewrite Hrun; cbn [fst snd].
  - eexists [_; _]. split; [reflexivity |]. split; [cbn; now rewrite <- app_assoc |].
    split; [apply unlinked_gone |]. split; [right; now left | repeat split].
  - eexists [_; _]. split; [reflexivity |]. split; [cbn; now rewrite <- app_assoc |].
    split; [apply unlinked_gone |]. split; [right; now left | repeat split].
  - eexists [_; _; _]. split; [reflexivity |]. split; [cbn; now rewrite <- !app_assoc |].
    split; [apply unlinked_gone |]. split; [right; right; now left | repeat split].
Qed.

Lemma clipUpload_accepted :
  accepted clipUpload (Server.mkFile "uploads/video-1.mp4" "clip.mp4").
Proof. repeat split; [vm_compute; discriminate]. Defined.

Lemma upload_releases_file_witness :
  let r := Server.postVideosUpload doneEngine "v9" clipUpload emptyWorld in
  exists evs,
    fst r = Eff.Ok (Server.ResError 500 "Failed to upload video")
    /\ Server.out (snd r) = Server.out emptyWorld ++ evs
    /\ ("uploads/video-1.mp4" ∉ Server.disk (snd r))
    /\ In (Server.Unlink "uploads/video-1.mp4") evs
    /\ submissions evs = []
    /\ engineQueries evs = []
    /\ Server.clock (snd r) = Server.clock emptyWorld.
Proof.
  exact (upload_releases_file doneEngine emptyWorld "v9" clipUpload
           (Server.mkFile "uploads/video-1.mp4" "clip.mp4") clipUpload_accepted).
Defined.

(** X8: an accepted upload whose id is already taken by a stored record is
    answered 500; the duplicate-key error of the first [save()] is logged,
    the stored record is not overwritten and the collection is left as it
    was; nothing is sent to the processor, and the uploaded file is
    removed. *)
Theorem upload_taken_id (engine : Engine.t) (w : Server.world) (videoId : string)
    (req : Server.UploadRequest) (f : Server.File) (p : Video.t) :
  accepted req f ->
  videoId <> "" ->
  Server.db w !! videoId = Some p ->
  let r := Server.postVideosUpload engine videoId req w in
  fst r = Eff.Ok (Server.ResError 500 "Failed to upload video")
  /\ Server.db (snd r) = Server.db w
  /\ Server.out (snd r)
     = Server.out w
       ++ [Server.ConsoleError "Error uploading video:" "E11000 duplicate key error";
           Server.Unlink (Server.path f)]
  /\ (Server.path f ∉ Server.disk (snd r)).
Proof.
  intros Hacc Hid Hp. cbn zeta.
  pose proof (postVideosUpload_run engine videoId req f w Hacc) as Hrun. cbn zeta in Hrun.
  apply String.eqb_neq in Hid. rewrite Hid, Hp in Hrun. rewrite Hrun.
  split; [reflexivity |]. split; [reflexivity |].
  split; [cbn; now rewrite <- app_assoc | apply unlinked_gone].
Qed.

Lemma upload_taken_id_witness :
  let r := Server.postVideosUpload doneEngine "v1" clipUpload world0 in
  fst r = Eff.Ok (Server.ResError 500 "Failed to upload video")
  /\ Server.db (snd r) = Server.db world0
  /\ Server.out (snd r)
     = Server.out world0
       ++ [Server.ConsoleError "Error uploading video:" "E11000 duplicate key error";
           Server.Unlink "uploads/video-1.mp4"]
  /\ ("uploads/video-1.mp4" ∉ Server.disk (snd r)).
Proof.
  refine (upload_taken_id doneEngine world0 "v1" clipUpload
            (Server.mkFile "uploads/video-1.mp4" "clip.mp4") clip clipUpload_accepted _ _).
  - discriminate.
  - vm_compute. reflexivity.
Defined.

(** ** The update route *)

(** X9: the update route, on a record stored under its id (whose title,
    being required, is not empty). When the request has no title, or one
    that is not blank: the route stores the trimmed title if there is one
    and keeps the old title otherwise, stores the trimmed description
    whenever the request has one (an empty one clears it), and sets
    [updatedAt] to the time of the request; the status, [jobId], formats,
    thumbnail, duration, video info, file name and [createdAt] are kept, no
    other record changes, and the route makes this one write (none when
    nothing changes). When the request has a title that is not empty but
    blank, the trimmed title is empty, [save()] refuses it, and the route
    answers 500 and writes nothing. For an id that is not stored it answers
    404 and changes nothing. *)
Theorem update_changes_only_text :
  (forall (id : string) (b : Server.Body) (v : Video.t) (w : Server.world),
      Server.db w !! id = Some v -> Video.id v = id -> Video.title v <> "" ->
      (Js.truthy (Server.title b) = true ->
       Js.trim (default "" (Server.title b)) <> "") ->
      let r := Server.putVideo id b w in
      let v' := Video.mk (Video.id v)
                  (if Js.truthy (Server.title b)
                   then Js.trim (default "" (Server.title b)) else Video.title v)
                  (match Server.description b with
                   | Some d => Js.trim d
                   | None => Video.description v
                   end)
                  (Video.originalFilename v) (Video.status v) (Video.jobId v)
                  (Video.thumbnail v) (Video.duration v) (Video.formats v)
                  (Video.videoInfo v) (Video.createdAt v) (Server.clock w) in
      fst r = Eff.Ok (Server.ResVideo v')
      /\ Server.db (snd r) = <[id := v']> (Server.db w)
      /\ Server.out (snd r)
         = Server.out w ++ (if decide (v' = v) then [] else [Server.DbWrite (Some v) v'])
      /\ Server.disk (snd r) = Server.disk w
      /\ Server.clock (snd r) = Server.clock w)
  /\ (forall (id : string) (b : Server.Body) (v : Video.t) (w : Server.world),
         Server.db w !! id = Some v -> Video.id v = id -> Video.title v <> "" ->
         Js.truthy (Server.title b) = true ->
         Js.trim (default "" (Server.title b)) = "" ->
         let r := Server.putVideo id b w in
         fst r = Eff.Ok (Server.ResError 500 "Failed to update video")
         /\ Server.db (snd r) = Server.db w
         /\ Server.out (snd r)
            = Server.out w
              ++ [Server.ConsoleError "Error updating video:"
                    "Video validation failed: title: Path `title` is required."])
  /\ (forall (id : string) (b : Server.Body) (w : Server.world),
         Server.db w !! id = None ->
         Server.putVideo id b w = (Eff.Ok (Server.ResError 404 "Video not found"), w)).
Proof.
  split; [| split; [| apply putVideo_missing]].
  - intros id b v w Hv Hid Htitle Hb. cbn zeta.
    rewrite (putVideo_found id b v w Hv Hid). cbn zeta.
    assert (E : updatedRecord (Server.clock w) b v
                = Video.mk (Video.id v)
                    (if Js.truthy (Server.title b)
                     then Js.trim (default "" (Server.title b)) else Video.title v)
                    (match Server.description b with
                     | Some d => Js.trim d
                     | None => Video.description v
                     end)
                    (Video.originalFilename v) (Video.status v) (Video.jobId v)
                    (Video.thumbnail v) (Video.duration v) (Video.formats v)
                    (Video.videoInfo v) (Video.createdAt v) (Server.clock w)).
    { unfold updatedRecord. destruct (Js.truthy (Server.title b)),
        (Server.description b); destruct v; reflexivity. }
    rewrite E. set (v' := Video.mk _ _ _ _ _ _ _ _ _ _ _ _).
    assert (Hblank : blankTitle b v = false).
    { unfold blankTitle. destruct (Js.truthy (Server.title b)); [| reflexivity].
      cbn. destruct (String.eqb_spec (Js.trim (default "" (Server.title b))) "") as [E'|_];
        [now elim (Hb eq_refl) | reflexivity]. }
    rewrite Hblank. case_bool_decide as Heq.
    + rewrite decide_True by exact Heq. cbn. rewrite app_nil_r.
      repeat split. rewrite Heq. symmetry. now apply insert_id.
    + rewrite decide_False by exact Heq. unfold updated. cbn. rewrite Hid.
      repeat split.
  - intros id b v w Hv Hid Htitle Ht Hb. cbn zeta.
    rewrite (putVideo_found id b v w Hv Hid). cbn zeta.
    assert (Hblank : blankTitle b v = true).
    { unfold blankTitle. rewrite Ht, Hb. cbn.
      destruct (String.eqb_spec (Video.title v) ""); [contradiction | reflexivity]. }
    rewrite Hblank. repeat split.
Qed.

Lemma update_changes_only_text_witness :
  let b := Server.mkBody (Some "") (Some "  a clip ") in
  let r := Server.putVideo "v1" b worldReady in
  let v' := Video.mk (Video.id readyClip)
              (if Js.truthy (Server.title b)
               then Js.trim (default "" (Server.title b)) else Video.title readyClip)
              (match Server.description b with
               | Some d => Js.trim d
               | None => Video.description readyClip
               end)
              (Video.originalFilename readyClip) (Video.status readyClip)
              (Video.jobId readyClip) (Video.thumbnail readyClip)
              (Video.duration readyClip) (Video.formats readyClip)
              (Video.videoInfo readyClip) (Video.createdAt readyClip)
              (Server.clock worldReady) in
  fst r = Eff.Ok (Server.ResVideo v')
  /\ Server.db (snd r) = <["v1" := v']> (Server.db worldReady)
  /\ Server.out (snd r)
     = Server.out worldReady
       ++ (if decide (v' = readyClip) then [] else [Server.DbWrite (Some readyClip) v'])
  /\ Server.disk (snd r) = Server.disk worldReady
  /\ Server.clock (snd r) = Server.clock worldReady.
Proof.
  refine (proj1 update_changes_only_text "v1" (Server.mkBody (Some "") (Some "  a clip "))
            readyClip worldReady _ _ _ _); try (vm_compute; reflexivity).
  - discriminate.
  - discriminate.
Defined.

(** The update of [readyClip] with a blank title is refused. *)
Example update_blank_title_refused :
  let r := Server.putVideo "v1" (Server.mkBody (Some " ") None) worldReady in
  fst r = Eff.Ok (Server.ResError 500 "Failed to update video")
  /\ Server.db (snd r) = Server.db worldReady.
Proof. vm_compute. split; reflexivity. Qed.

(** ** What the operations do to the collection and to the clock *)

Section Effects.

Variable engine : Engine.t.

Lemma reconciled_dates (t : Z) (job : Engine.Job) (v v' : Video.t) :
  reconciled t job v = Some v' ->
  Video.createdAt v' = Video.createdAt v /\ Video.updatedAt v' = t.
Proof.
  unfold reconciled.
  destruct (String.eqb (Engine.status job) "completed"), (Engine.data job) as [d|];
    try destruct (Engine.encoded_files d);
    try destruct (String.eqb (Engine.status job) "error");
    intros H; inversion H; split; reflexivity.
Qed.

Lemma answered_dates (j : string) (t : Z) (v : Video.t) :
  Video.createdAt (answered engine j t v) = Video.createdAt v
  /\ (Video.updatedAt (answered engine j t v) = Video.updatedAt v
      \/ Video.updatedAt (answered engine j t v)
         = t + Engine.latency (Engine.job engine j)).
Proof.
  unfold answered. cbn zeta.
  destruct (Engine.settled (Engine.job engine j)) as [m|job]; [now split; [|left]|].
  destruct (reconciled _ job v) as [v'|] eqn:E; [| now split; [|left]].
  destruct (reconciled_dates _ _ _ _ E) as [Hc Hu]. cbn. split; [exact Hc | now right].
Qed.

Lemma dated_insert (w w' : Server.world) (k : string) (v' : Video.t) :
  dated w ->
  Server.clock w <= Server.clock w' ->
  Video.createdAt v' <= Video.updatedAt v' -> Video.updatedAt v' <= Server.clock w' ->
  Server.db w' = <[k := v']> (Server.db w) ->
  dated w'.
Proof.
  intros Hd Hc H1 H2 Hdb. unfold dated. rewrite Hdb.
  apply map_Forall_insert_2; [split; assumption|].
  intros i x Hx. destruct (Hd i x Hx) as [Ha Hb]. split; [exact Ha | lia].
Qed.

Lemma dated_same (w w' : Server.world) :
  dated w -> Server.clock w <= Server.clock w' -> Server.db w' = Server.db w ->
  dated w'.
Proof.
  intros Hd Hc Hdb. unfold dated. rewrite Hdb.
  intros i x Hx. destruct (Hd i x Hx) as [Ha Hb]. split; [exact Ha | lia].
Qed.

(** The update from an answer that arrives at or after the clock keeps
    the dates in order. *)
Lemma dated_answered (w w' : Server.world) (j : string) (v : Video.t) :
  dated w -> Server.db w !! Video.id v = Some v ->
  0 <= Engine.latency (Engine.job engine j) ->
  Server.clock w' = Server.clock w + Engine.latency (Engine.job engine j) ->
  Server.db w' = <[Video.id v := answered engine j (Server.clock w) v]> (Server.db w) ->
  dated w'.
Proof.
  intros Hd Hv Hlat Hc Hdb. destruct (Hd _ _ Hv) as [Hcu Huc].
  destruct (answered_dates j (Server.clock w) v) as [Hca [Hu|Hu]];
    apply (dated_insert w w' (Video.id v) (answered engine j (Server.clock w) v) Hd);
    try exact Hdb; lia.
Qed.

(** The loop of the sweep: the clock and the dates. *)
Lemma checkLoaded_dated (vs : list Video.t) (w0 w : Server.world) :
  punctual engine ->
  NoDup (Video.id <$> vs) ->
  (forall v, v ∈ vs ->
     Server.db w !! Video.id v = Some v
     /\ Server.revs w !! Video.id v = Server.revs w0 !! Video.id v) ->
  let w' := snd (Server.checkLoaded engine (loadedFrom w0 <$> vs) w) in
  Server.clock w <= Server.clock w' /\ (dated w -> dated w').
Proof.
  intros Hp. revert w. induction vs as [|v vs IH]; intros w Hnd Hdb; cbn zeta.
  { split; [cbn; lia | auto]. }
  rewrite fmap_cons in Hnd. apply NoDup_cons in Hnd as [Hfresh Hnd].
  assert (Hv : Server.db w !! Video.id v = Some v) by (apply Hdb; left).
  destruct (checkOne_loaded engine v (Server.versionOf w0 (Video.id v)) w Hv)
    as (w1 & evs1 & Hrun1 & _ & _ & Hdb1 & Hrevs1 & _ & _ & _ & Hclock1 & _).
  { unfold Server.versionOf. f_equal. apply Hdb. left. }
  assert (Hdb' : forall v', v' ∈ vs ->
             Server.db w1 !! Video.id v' = Some v'
             /\ Server.revs w1 !! Video.id v' = Server.revs w0 !! Video.id v').
  { intros v' Hin.
    assert (Hne : Video.id v' <> Video.id v).
    { intros E. apply Hfresh. rewrite <- E. now apply list_elem_of_fmap_2. }
    rewrite Hdb1, lookup_insert_ne by (intros E; now apply Hne).
    rewrite (Hrevs1 _ Hne). apply Hdb. now right. }
  destruct (IH w1 Hnd Hdb') as [Hc2 Hd2]. cbn zeta in Hc2, Hd2.
  assert (Heq : Server.checkLoaded engine (loadedFrom w0 <$> v :: vs) w
                = Server.checkLoaded engine (loadedFrom w0 <$> vs) w1).
  { unfold Server.checkLoaded. rewrite fmap_cons. cbn [Eff.forOf].
    unfold Eff.bind at 1. unfold loadedFrom at 1. now rewrite Hrun1. }
  rewrite Heq.
  assert (Hstep : Server.clock w <= Server.clock w1 /\ (dated w -> dated w1)).
  { unfold polled in Hdb1. destruct (Js.truthy (Video.jobId v)).
    - destruct (Hp (default "" (Video.jobId v))) as [_ Hlat].
      split; [lia |]. intros Hd.
      now apply (dated_answered w w1 (default "" (Video.jobId v)) v).
    - split; [lia |]. intros Hd. apply (dated_same w); [exact Hd | lia |].
      rewrite Hdb1. now apply insert_id. }
  destruct Hstep as [Hc1 Hd1]. split; [lia | auto].
Qed.

End Effects.

Section Records.

Variable engine : Engine.t.

(** The collection after the status route. *)
Lemma getVideoStatus_db (id : string) (w : Server.world) :
  keyed (Server.db w) ->
  let w' := snd (Server.getVideoStatus engine id w) in
  w' = w
  \/ (exists v j,
         Server.db w !! id = Some v /\ Video.status v = processing
         /\ Video.jobId v = Some j /\ Js.truthy (Some j) = true
         /\ Server.db w' = <[id := answered engine j (Server.clock w) v]> (Server.db w)
         /\ Server.clock w' = Server.clock w + Engine.latency (Engine.job engine j)).
Proof.
  intros Hk. cbn zeta. destruct (Server.db w !! id) as [v|] eqn:Hv.
  2:{ left. now rewrite (getVideoStatus_missing engine id w Hv). }
  assert (Hid : Video.id v = id) by exact (Hk id v Hv).
  destruct (bool_decide (Video.status v = processing) && Js.truthy (Video.jobId v)) eqn:Hg.
  2:{ left. rewrite (getVideoStatus_found engine id v w Hv).
      now rewrite statusOf_skip by exact Hg. }
  apply andb_prop in Hg as [Hs Ht]. apply bool_decide_eq_true_1 in Hs.
  destruct (Video.jobId v) as [j|] eqn:Hj; [| discriminate Ht].
  right. exists v, j.
  destruct (getVideoStatus_query engine id j v w Hv Hid Hs Hj Ht)
    as (a & w1 & evs & Hrun & _ & _ & Hdb & _ & _ & _ & Hclock).
  rewrite Hrun. cbn [snd]. repeat split; assumption.
Qed.

(** The collection after one sweep. *)
Lemma checkProcessingJobs_db (w : Server.world) (id : string) (v : Video.t) :
  keyed (Server.db w) ->
  Server.db w !! id = Some v ->
  exists t, Server.db (snd (Server.checkProcessingJobs engine w)) !! id
            = Some (if decide (Video.status v = processing)
                    then polled engine t v else v).
Proof.
  intros Hk Hv.
  destruct (sweep_run engine w Hk) as (w1 & evs & Hrun & _ & _ & Hoth & Hvis & _).
  rewrite Hrun. cbn [snd].
  destruct (sweep_keys engine w w1 Hk (fun k H => proj1 (Hoth k H)) Hvis id)
    as [(v0 & t & Hv0 & Hs & _ & Hw1) | [Hnp Hsame]].
  - rewrite Hv in Hv0. injection Hv0 as <-. exists t.
    now rewrite decide_True by exact Hs.
  - exists 0. rewrite decide_False by (now apply Hnp). now rewrite Hsame.
Qed.

(** What one operation can do to a stored record: nothing, the update of
    the update route, or the update from the processor's answer about its
    job. *)
Lemma run_record (op : operation) (w : Server.world) (id : string) (v : Video.t) :
  keyed (Server.db w) ->
  Server.db w !! id = Some v ->
  exists v',
    Server.db (run engine op w) !! id = Some v'
    /\ (v' = v
        \/ (exists b t, v' = updatedRecord t b v)
        \/ (exists j t, Video.status v = processing /\ Video.jobId v = Some j
                        /\ Js.truthy (Some j) = true /\ v' = answered engine j t v)).
Proof.
  intros Hk Hv. assert (Hid : Video.id v = id) by exact (Hk id v Hv).
  destruct op as [videoId req | id' | id' b |]; cbn [run].
  - destruct (postVideosUpload_db engine videoId req w)
      as (evs & _ & _ & _ & _ & _ & [Hdb | (f & _ & Hfresh & Hdb)]);
      cbn zeta in Hdb; rewrite Hdb.
    + exists v. split; [exact Hv | now left].
    + exists v. split; [| now left].
      rewrite lookup_insert_ne; [exact Hv | congruence].
  - destruct (getVideoStatus_db id' w Hk)
      as [Hw | (v0 & j & Hv0 & Hs & Hj & Ht & Hdb & _)]; cbn zeta in *.
    + rewrite Hw. exists v. split; [exact Hv | now left].
    + rewrite Hdb. destruct (decide (id' = id)) as [->|Hne].
      * rewrite Hv in Hv0. injection Hv0 as <-.
        eexists. split; [apply lookup_insert_eq|]. right. right.
        exists j, (Server.clock w). repeat split; assumption.
      * exists v. split; [now rewrite lookup_insert_ne | now left].
  - destruct (putVideo_db id' b w Hk)
      as (evs & _ & _ & _ & _ & _ & _ & [Hdb | (v0 & Hv0 & Hdb)]);
      cbn zeta in Hdb; rewrite Hdb.
    + exists v. split; [exact Hv | now left].
    + destruct (decide (id' = id)) as [->|Hne].
      * rewrite Hv in Hv0. injection Hv0 as <-.
        eexists. split; [apply lookup_insert_eq|]. right. left. eauto.
      * exists v. split; [now rewrite lookup_insert_ne | now left].
  - destruct (checkProcessingJobs_db w id v Hk Hv) as (t & Ht).
    rewrite Ht. eexists. split; [reflexivity|].
    case_decide as Hs; [| now left]. unfold polled.
    destruct (Js.truthy (Video.jobId v)) eqn:Htr; [| now left].
    destruct (Video.jobId v) as [j|] eqn:Hj; [| discriminate Htr].
    right. right. exists j, t. repeat split; assumption.
Qed.

Lemma orphan_step (op : operation) (w : Server.world) (id : string) (v : Video.t) :
  keyed (Server.db w) ->
  Server.db w !! id = Some v -> orphan v ->
  exists v', Server.db (run engine op w) !! id = Some v' /\ orphan v'.
Proof.
  intros Hk Hv [Hs Hj].
  destruct (run_record op w id v Hk Hv)
    as (v' & Hv' & [-> | [(b & t & ->) | (j & t & _ & Hj' & Ht & _)]]).
  - exists v. now split.
  - eexists. split; [exact Hv'|]. unfold orphan, updatedRecord.
    destruct (Js.truthy (Server.title b)), (Server.description b); now split.
  - rewrite Hj' in Hj. congruence.
Qed.

(** One operation against a punctual processor keeps the dates in order. *)
Lemma dated_step (op : operation) (w : Server.world) :
  punctual engine -> keyed (Server.db w) -> dated w ->
  dated (run engine op w) /\ Server.clock w <= Server.clock (run engine op w).
Proof.
  intros Hp Hk Hd.
  destruct op as [videoId req | id' | id' b |]; cbn [run].
  - destruct (postVideosUpload_db engine videoId req w)
      as (evs & _ & _ & _ & _ & Hc & [Hdb | (f & _ & _ & Hdb)]); cbn zeta in *.
    + split; [apply (dated_same w); [exact Hd | lia | exact Hdb] | lia].
    + split; [| lia].
      apply (dated_insert w _ videoId (created (Server.clock w) videoId req f) Hd);
        try exact Hdb; cbn; lia.
  - destruct (getVideoStatus_db id' w Hk)
      as [Hw | (v0 & j & Hv0 & _ & _ & _ & Hdb & Hc)]; cbn zeta in *.
    + rewrite Hw. split; [exact Hd | lia].
    + destruct (Hp j) as [_ Hlat]. split; [| lia].
      pose proof (Hk _ _ Hv0) as Hid. cbn beta in Hid. subst id'.
      now apply (dated_answered engine w _ j v0).
  - destruct (putVideo_db id' b w Hk)
      as (evs & _ & _ & _ & _ & Hc & _ & [Hdb | (v0 & Hv0 & Hdb)]); cbn zeta in *.
    + split; [apply (dated_same w); [exact Hd | lia | exact Hdb] | lia].
    + split; [| lia]. destruct (Hd _ _ Hv0) as [Hcu Huc].
      destruct (updatedRecord_same (Server.clock w) b v0) as (_ & _ & _ & _ & Hcr & Hup).
      apply (dated_insert w _ id' (updatedRecord (Server.clock w) b v0) Hd);
        try exact Hdb; lia.
  - assert (Hstored : forall v, v ∈ processingOf (Server.db w) ->
              Server.db w !! Video.id v = Some v
              /\ Server.revs w !! Video.id v = Server.revs w !! Video.id v).
    { intros v Hin. apply processingOf_spec in Hin as [Hv _]; [| exact Hk]. now split. }
    pose proof (checkLoaded_dated engine (processingOf (Server.db w)) w w Hp
                  (processingOf_NoDup _ Hk) Hstored) as Hdated.
    destruct (checkLoaded_run engine (processingOf (Server.db w)) w w
                (processingOf_NoDup _ Hk) Hstored) as (w1 & evs & Hloop & _).
    rewrite (checkProcessingJobs_run engine w w1 Hk Hloop). cbn [snd].
    cbn zeta in Hdated. rewrite Hloop in Hdated. cbn [snd] in Hdated.
    destruct Hdated as [Hc Hd1]. split; [now apply Hd1 | exact Hc].
Qed.

End Records.

(** ** The sweep, in full *)

(** X10: one run of [checkProcessingJobs] over a collection whose records
    sit under their ids asks the processor once about the job of each stored
    record in [processing] that has one, in the order they were loaded, and
    about nothing else; it submits nothing, and it leaves every record that
    is not in [processing], or has no job, exactly as stored. *)
Theorem sweep_asks_each_job_once (engine : Engine.t) (w : Server.world) :
  keyed (Server.db w) ->
  let w' := snd (Server.checkProcessingJobs engine w) in
  exists evs,
    Server.out w' = Server.out w ++ evs
    /\ engineQueries evs = jobsOf (processingOf (Server.db w))
    /\ submissions evs = []
    /\ forall id v, Server.db w !! id = Some v ->
         (Video.status v <> processing \/ Js.truthy (Video.jobId v) = false) ->
         Server.db w' !! id = Some v.
Proof.
  intros Hk. cbn zeta.
  destruct (sweep_run engine w Hk)
    as (w1 & evs & Hrun & Hout & _ & _ & _ & _ & Hq & Hsub & _).
  exists evs. rewrite Hrun at 1. cbn [snd].
  split; [exact Hout|]. split; [exact Hq|]. split; [exact Hsub|].
  intros id v Hv Hcase.
  destruct (checkProcessingJobs_db engine w id v Hk Hv) as (t & Ht). rewrite Ht.
  case_decide as Hs; [| reflexivity].
  destruct Hcase as [Hn | Hj]; [contradiction|]. unfold polled. now rewrite Hj.
Qed.

Lemma sweep_asks_each_job_once_witness :
  let w' := snd (Server.checkProcessingJobs mixedEngine world1) in
  exists evs,
    Server.out w' = Server.out world1 ++ evs
    /\ engineQueries evs = jobsOf (processingOf (Server.db world1))
    /\ submissions evs = []
    /\ forall id v, Server.db world1 !! id = Some v ->
         (Video.status v <> processing \/ Js.truthy (Video.jobId v) = false) ->
         Server.db w' !! id = Some v.
Proof. exact (sweep_asks_each_job_once mixedEngine world1 world1_keyed). Defined.

(** ** Records without a job *)

(** X11: a stored record in [processing] whose [jobId] is unset stays in
    [processing] without a job through every run of uploads, status
    queries, updates and sweeps, whatever the processor answers: nothing
    ever moves it to [ready] or [error]. *)
Theorem orphan_stays_processing (steps : list step) (w : Server.world) (id : string)
    (v : Video.t) :
  keyed (Server.db w) ->
  Server.db w !! id = Some v -> orphan v ->
  exists v', Server.db (runAll steps w) !! id = Some v' /\ orphan v'.
Proof.
  revert w v. induction steps as [|s steps IH]; intros w v Hk Hv Ho.
  { exists v. now split. }
  cbn [runAll fold_left]. destruct s as [engine op | ms].
  - destruct (orphan_step engine op w id v Hk Hv Ho) as (v1 & Hv1 & Ho1).
    apply (IH _ v1); [| exact Hv1 | exact Ho1].
    exact (proj1 (run_respects engine op w Hk)).
  - apply (IH _ v); assumption.
Qed.

Lemma emptyWorld_keyed : keyed (Server.db emptyWorld).
Proof. apply map_Forall_empty. Defined.

(** The record [stuck] of [world0] through a sweep, a wait, a status query
    and an update. *)
Lemma orphan_stays_processing_witness :
  exists v',
    Server.db (runAll [Do doneEngine Sweep; Wait 30000;
                       Do doneEngine (QueryStatus "v2");
                       Do doneEngine (UpdateMetadata "v2"
                                        (Server.mkBody (Some "Still") None))]
                 world0) !! "v2" = Some v'
    /\ orphan v'.
Proof.
  refine (orphan_stays_processing _ world0 "v2" stuck world0_keyed _ _).
  - vm_compute. reflexivity.
  - split; reflexivity.
Defined.

(** ** Dates *)

(** X12: in every run of uploads, status queries, updates and sweeps in
    which time does not run backwards (no negative waits, no processor
    answer that takes negative time), started from a collection whose
    records sit under their ids and are dated in order, every stored record
    keeps [createdAt <= updatedAt], and no [updatedAt] lies after the
    clock. The empty collection is such a start. *)
Theorem dates_stay_ordered (steps : list step) (w : Server.world) :
  keyed (Server.db w) -> dated w -> Forall forward steps ->
  forall id v, Server.db (runAll steps w) !! id = Some v ->
    Video.createdAt v <= Video.updatedAt v
    /\ Video.updatedAt v <= Server.clock (runAll steps w).
Proof.
  intros Hk Hd Hf.
  assert (H : dated (runAll steps w)).
  { revert w Hk Hd. induction Hf as [|s steps Hs _ IH]; intros w Hk Hd; [exact Hd|].
    cbn [runAll fold_left]. destruct s as [engine op | ms]; cbn [runStep].
    - apply IH.
      + exact (proj1 (run_respects engine op w Hk)).
      + exact (proj1 (dated_step engine op w Hs Hk Hd)).
    - apply IH; [exact Hk|]. cbn in Hs.
      apply (dated_same w); [exact Hd | cbn; lia | reflexivity]. }
  intros id v Hv. exact (H id v Hv).
Qed.

Lemma doneEngine_punctual : punctual doneEngine.
Proof. intros x. cbn. lia. Defined.

Lemma dates_stay_ordered_witness :
  let steps := [Do doneEngine (Upload "v9" clipUpload); Wait 5000;
                Do doneEngine Sweep; Do doneEngine (UpdateMetadata "v9"
                                                     (Server.mkBody (Some "New") None))] in
  exists v, Server.db (runAll steps emptyWorld) !! "v9" = Some v
    /\ Video.createdAt v <= Video.updatedAt v
    /\ Video.updatedAt v <= Server.clock (runAll steps emptyWorld).
Proof.
  intros steps. eexists. split; [vm_compute; reflexivity |].
  refine (dates_stay_ordered steps emptyWorld emptyWorld_keyed _ _ "v9" _ _).
  - apply map_Forall_empty.
  - repeat constructor; first [exact doneEngine_punctual | cbn; lia].
  - vm_compute. reflexivity.
Defined.

(** ** Listing, reading and deleting records *)

Section Catalogue.

Variable engine : Engine.t.

#[local] Instance newerFirst_total : Total Catalog.newerFirst.
Proof. intros a b. unfold Catalog.newerFirst. lia. Qed.

#[local] Instance newerFirst_trans : Transitive Catalog.newerFirst.
Proof. intros a b c. unfold Catalog.newerFirst. lia. Qed.

Lemma getVideos_run (w : Server.world) :
  Catalog.getVideos w
  = (Eff.Ok (Catalog.Videos
               (merge_sort Catalog.newerFirst (snd <$> map_to_list (Server.db w)))), w).
Proof. reflexivity. Qed.

Lemma getVideo_run (id : string) (w : Server.world) :
  Catalog.getVideo id w
  = (Eff.Ok match Server.db w !! id with
            | Some v => Catalog.OneVideo v
            | None => Catalog.Failure 404 "Video not found"
            end, w).
Proof.
  unfold Catalog.getVideo, Eff.tryCatch, Eff.bind, Server.findOne, Eff.gets.
  now destruct (Server.db w !! id).
Qed.

Lemma deleteVideo_found (id : string) (v : Video.t) (w : Server.world) :
  Server.db w !! id = Some v ->
  Catalog.deleteVideo id w
  = (Eff.Ok (Catalog.Message "Video deleted successfully"),
     Server.set_revs (delete id (Server.revs w)) (Server.set_db (delete id (Server.db w)) w)).
Proof.
  intros Hv.
  unfold Catalog.deleteVideo, Eff.tryCatch, Eff.bind, Server.findOne, Eff.gets.
  now rewrite Hv.
Qed.

Lemma deleteVideo_missing (id : string) (w : Server.world) :
  Server.db w !! id = None ->
  Catalog.deleteVideo id w = (Eff.Ok (Catalog.Failure 404 "Video not found"), w).
Proof.
  intros Hv.
  unfold Catalog.deleteVideo, Eff.tryCatch, Eff.bind, Server.findOne, Eff.gets.
  now rewrite Hv.
Qed.

Lemma listed_stored (w : Server.world) (v : Video.t) :
  v ∈ merge_sort Catalog.newerFirst (snd <$> map_to_list (Server.db w))
  <-> exists id, Server.db w !! id = Some v.
Proof.
  rewrite merge_sort_Permutation, list_elem_of_fmap. split.
  - intros ([k x] & -> & Hin). exists k. now apply elem_of_map_to_list in Hin.
  - intros (k & Hk). exists (k, v). split; [reflexivity | now apply elem_of_map_to_list].
Qed.

(** X13: [GET /api/videos] answers with every stored record exactly once,
    newest first: the list is a permutation of the collection, and every
    record in it was created no earlier than each record after it.  The
    route changes nothing. *)
Theorem listing_newest_first (w : Server.world) :
  exists l, Catalog.getVideos w = (Eff.Ok (Catalog.Videos l), w)
    /\ l ≡ₚ snd <$> map_to_list (Server.db w)
    /\ (forall v, v ∈ l <-> exists id, Server.db w !! id = Some v)
    /\ length l = size (Server.db w)
    /\ StronglySorted Catalog.newerFirst l.
Proof.
  exists (merge_sort Catalog.newerFirst (snd <$> map_to_list (Server.db w))).
  split; [apply getVideos_run |]. split; [apply merge_sort_Permutation |].
  split; [apply listed_stored |]. split.
  - rewrite merge_sort_Permutation, length_fmap. apply length_map_to_list.
  - apply StronglySorted_merge_sort; apply _.
Qed.

(** X14: deleting a stored record removes that record from the collection
    and nothing else: the files on disk, the clock and the log are
    untouched (the source leaves the files in storage), and afterwards the
    read route, the status route and a second delete of the same [id] all
    answer 404, while the listing holds only records that were stored
    before and carry another [id]. *)
Theorem delete_removes_record (id : string) (v : Video.t) (w : Server.world) :
  keyed (Server.db w) -> Server.db w !! id = Some v ->
  exists w',
    Catalog.deleteVideo id w = (Eff.Ok (Catalog.Message "Video deleted successfully"), w')
    /\ Server.db w' = delete id (Server.db w)
    /\ Server.disk w' = Server.disk w /\ Server.clock w' = Server.clock w
    /\ Server.out w' = Server.out w
    /\ Catalog.getVideo id w' = (Eff.Ok (Catalog.Failure 404 "Video not found"), w')
    /\ Server.getVideoStatus engine id w'
       = (Eff.Ok (Server.ResError 404 "Video not found"), w')
    /\ Catalog.deleteVideo id w' = (Eff.Ok (Catalog.Failure 404 "Video not found"), w')
    /\ (forall l, fst (Catalog.getVideos w') = Eff.Ok (Catalog.Videos l) ->
          forall x, x ∈ l -> Video.id x <> id /\ exists k, Server.db w !! k = Some x).
Proof.
  intros Hk Hv. eexists. split; [apply (deleteVideo_found id v w Hv) |].
  set (w' := Server.set_revs _ (Server.set_db _ w)).
  assert (Hgone : Server.db w' !! id = None) by apply lookup_delete_eq.
  split; [reflexivity |]. do 3 (split; [reflexivity |]).
  split; [rewrite getVideo_run, Hgone; reflexivity |].
  split; [apply getVideoStatus_missing, Hgone |].
  split; [apply deleteVideo_missing, Hgone |].
  intros l Hl x Hx. rewrite getVideos_run in Hl. cbn [fst] in Hl. injection Hl as <-.
  apply (listed_stored w') in Hx as (k & Hx).
  change (Server.db w') with (delete id (Server.db w)) in Hx.
  apply lookup_delete_Some in Hx as [Hne Hx]. split; [| now exists k].
  apply Hk in Hx. cbn in Hx. congruence.
Qed.

(** X15: an upload under a fresh [id] followed by the deletion of that [id]
    leaves the collection as it was before the upload, whatever the request
    held: the record the upload leaves behind in [uploading], if any, is
    the one the deletion removes. *)
Theorem upload_then_delete_restores (videoId : string) (req : Server.UploadRequest)
    (w : Server.world) :
  Server.db w !! videoId = None ->
  Server.db (snd (Catalog.deleteVideo videoId
                    (snd (Server.postVideosUpload engine videoId req w))))
  = Server.db w.
Proof.
  intros Hfresh.
  destruct (postVideosUpload_db engine videoId req w)
    as (evs & _ & _ & _ & _ & _ & [Hdb | (f & _ & _ & Hdb)]); cbn zeta in Hdb.
  - rewrite deleteVideo_missing by now rewrite Hdb. exact Hdb.
  - rewrite (deleteVideo_found videoId (created (Server.clock w) videoId req f))
      by (rewrite Hdb; apply lookup_insert_eq).
    cbn. rewrite Hdb. now apply delete_insert_id.
Qed.

End Catalogue.

Lemma delete_removes_record_witness :
  exists w',
    Catalog.deleteVideo "v1" world1
    = (Eff.Ok (Catalog.Message "Video deleted successfully"), w')
    /\ Server.db w' = delete "v1" (Server.db world1)
    /\ Catalog.getVideo "v1" w' = (Eff.Ok (Catalog.Failure 404 "Video not found"), w').
Proof.
  destruct (delete_removes_record doneEngine "v1" clip world1 world1_keyed eq_refl)
    as (w' & Hrun & Hdb & _ & _ & _ & Hget & _).
  exists w'. repeat split; assumption.
Defined.

Lemma upload_then_delete_restores_witness :
  Server.db (snd (Catalog.deleteVideo "v9"
                    (snd (Server.postVideosUpload doneEngine "v9" clipUpload emptyWorld))))
  = Server.db emptyWorld.
Proof.
  exact (upload_then_delete_restores doneEngine "v9" clipUpload emptyWorld eq_refl).
Defined.

(** ** Uploads to the storage providers *)

Section Providers.

Variable env : Storage.ProcessEnv.
Variable sdk : Uploads.Sdk.

Lemma uploadToS3_run (filePath s3Key : string) (b : option Uploads.value)
    (t : list Uploads.effect) :
  Uploads.uploadToS3 env sdk filePath s3Key b t
  = if negb (Js.truthy (Storage.AWS_ACCESS_KEY_ID env))
       || negb (Uploads.truthy (Uploads.bucketOrDefault env b))
    then (Eff.Ok (Uploads.failed "AWS S3 not configured"),
          t ++ [Uploads.ConsoleError "S3 upload error:" "AWS S3 not configured"])
    else match Uploads.readFileSync sdk filePath with
         | inl m => (Eff.Ok (Uploads.failed m),
                     t ++ [Uploads.ReadFileSync filePath;
                           Uploads.ConsoleError "S3 upload error:" m])
         | inr content =>
             let params := s3Request env filePath s3Key b content in
             match Uploads.s3_upload sdk params with
             | inl m => (Eff.Ok (Uploads.failed m),
                         t ++ [Uploads.ReadFileSync filePath; Uploads.S3Upload params;
                               Uploads.ConsoleError "S3 upload error:" m])
             | inr r => (Eff.Ok (Uploads.mkOutcome true None (Uploads.Location r)
                                   (Uploads.UploadedKey r) (Uploads.UploadedBucket r)
                                   None None None None None None),
                         t ++ [Uploads.ReadFileSync filePath; Uploads.S3Upload params])
             end
         end.
Proof.
  unfold Uploads.uploadToS3, Eff.tryCatch, Eff.bind, Uploads.emit, Eff.modify, s3Request.
  cbn zeta.
  destruct (negb (Js.truthy (Storage.AWS_ACCESS_KEY_ID env))
            || negb (Uploads.truthy (Uploads.bucketOrDefault env b))); [reflexivity |].
  cbn. destruct (Uploads.readFileSync sdk filePath) as [m|content]; cbn.
  { now rewrite <- app_assoc. }
  destruct (Uploads.s3_upload sdk _) as [m|r]; cbn; now rewrite <- !app_assoc.
Qed.

Lemma uploadToCloudinary_run (filePath publicId : string) (options : gmap string Uploads.value)
    (t : list Uploads.effect) :
  Uploads.uploadToCloudinary env sdk filePath publicId options t
  = if negb (Js.truthy (Storage.CLOUDINARY_CLOUD_NAME env))
    then (Eff.Ok (Uploads.failed "Cloudinary not configured"),
          t ++ [Uploads.ConsoleError "Cloudinary upload error:" "Cloudinary not configured"])
    else let opts := Uploads.defaultOptions publicId options in
         match Uploads.cloudinary_upload sdk filePath opts with
         | inl m => (Eff.Ok (Uploads.failed m),
                     t ++ [Uploads.CloudinaryUpload filePath opts;
                           Uploads.ConsoleError "Cloudinary upload error:" m])
         | inr r => (Eff.Ok (Uploads.mkOutcome true None (Uploads.secure_url r) None None
                               (Uploads.public_id r) (Uploads.format r)
                               (Uploads.duration r) (Uploads.width r) (Uploads.height r)
                               (Uploads.bytes r)),
                     t ++ [Uploads.CloudinaryUpload filePath opts])
         end.
Proof.
  unfold Uploads.uploadToCloudinary, Eff.tryCatch, Eff.bind, Uploads.emit, Eff.modify.
  cbn zeta.
  destruct (negb (Js.truthy (Storage.CLOUDINARY_CLOUD_NAME env))); [reflexivity |].
  cbn. destruct (Uploads.cloudinary_upload sdk _ _) as [m|r]; cbn; now rewrite <- ?app_assoc.
Qed.

Lemma truthy_bucket_env :
  Storage.s3Configured env = true ->
  Js.truthy (Storage.AWS_ACCESS_KEY_ID env) = true
  /\ Uploads.truthy (Uploads.bucketOrDefault env None) = true.
Proof.
  unfold Storage.s3Configured. intros [Ha Hb]%andb_true_iff. split; [exact Ha |].
  unfold Uploads.bucketOrDefault. destruct (Storage.S3_BUCKET env); [exact Hb | discriminate].
Qed.

(** X16: [uploadFile] never throws and asks at most one provider, once:
    with S3 configured nothing is ever sent to Cloudinary, also when S3
    fails; without it no file is read and nothing is sent to S3.  A
    successful result carries no error and stands for exactly one request; a
    failed one carries the message, which was logged unless no provider is
    configured. *)
Theorem uploadFile_one_provider (filePath key : string) (options : gmap string Uploads.value)
    (t : list Uploads.effect) :
  exists o evs,
    Uploads.uploadFile env sdk filePath key options t = (Eff.Ok o, t ++ evs)
    /\ (length (filter (fun e => isRequest e = true) evs) <= 1)%nat
    /\ (Storage.s3Configured env = true ->
        Forall (fun e => Uploads.isCloudinaryUpload e = false) evs)
    /\ (Storage.s3Configured env = false ->
        Forall (fun e => Uploads.isS3Upload e = false /\ Uploads.isReadFile e = false) evs)
    /\ (Uploads.success o = true ->
        Uploads.error o = None
        /\ length (filter (fun e => isRequest e = true) evs) = 1%nat)
    /\ (Uploads.success o = false ->
        exists m, Uploads.error o = Some m
                  /\ (evs = [] \/ exists label, last evs = Some (Uploads.ConsoleError label m))).
Proof.
  unfold Uploads.uploadFile.
  destruct (Storage.s3Configured env) eqn:Hs3.
  - rewrite uploadToS3_run.
    destruct (negb (Js.truthy (Storage.AWS_ACCESS_KEY_ID env))
              || negb (Uploads.truthy (Uploads.bucketOrDefault env (options !! "bucket")))).
    { do 2 eexists. split; [reflexivity |]. cbn.
      repeat split; try discriminate; eauto 6 with lia. }
    destruct (Uploads.readFileSync sdk filePath) as [m|content].
    { do 2 eexists. split; [reflexivity |]. cbn.
      repeat split; try discriminate; eauto 6 with lia. }
    cbn zeta. destruct (Uploads.s3_upload sdk _) as [m|r].
    all: do 2 eexists; (split; [reflexivity |]); cbn;
      repeat split; try discriminate; eauto 6 with lia.
  - destruct (Storage.cloudinaryConfigured env) eqn:Hc.
    + rewrite uploadToCloudinary_run.
      unfold Storage.cloudinaryConfigured in Hc. rewrite Hc. cbn [negb]. cbn zeta.
      destruct (Uploads.cloudinary_upload sdk _ _) as [m|r].
      all: do 2 eexists; (split; [reflexivity |]); cbn;
        repeat split; try discriminate; eauto 6 with lia.
    + exists (Uploads.failed "No storage provider configured"), [].
      split; [now rewrite app_nil_r |]. cbn.
      repeat split; try discriminate; eauto 6 with lia.
Qed.

(** X17: every request [uploadToS3] sends is for the given key, with ACL
    ['public-read'], the content type [getContentType] gives the local path
    and the bytes read from that path, to the bucket given, or to the one of
    the environment when none is given; it is sent only when the access key
    and that bucket are truthy. *)
Theorem s3_request_public_and_typed (filePath s3Key : string) (b : option Uploads.value)
    (params : Uploads.S3Params) :
  Uploads.S3Upload params ∈ snd (Uploads.uploadToS3 env sdk filePath s3Key b []) ->
  Uploads.ACL params = "public-read"
  /\ Uploads.ContentType params = Storage.getContentType filePath
  /\ Uploads.Key params = s3Key
  /\ Uploads.Bucket params
     = match b with
       | Some given => Some given
       | None => Uploads.Str <$> Storage.S3_BUCKET env
       end
  /\ Uploads.truthy (Uploads.Bucket params) = true
  /\ Js.truthy (Storage.AWS_ACCESS_KEY_ID env) = true
  /\ Uploads.readFileSync sdk filePath = inr (Uploads.Body params).
Proof.
  change (match b with
          | Some given => Some given
          | None => Uploads.Str <$> Storage.S3_BUCKET env
          end) with (Uploads.bucketOrDefault env b).
  rewrite uploadToS3_run.
  destruct (negb (Js.truthy (Storage.AWS_ACCESS_KEY_ID env))
            || negb (Uploads.truthy (Uploads.bucketOrDefault env b))) eqn:Hcfg.
  { cbn. rewrite list_elem_of_singleton. discriminate. }
  apply orb_false_iff in Hcfg as [Ha Hb].
  apply negb_false_iff in Ha, Hb.
  destruct (Uploads.readFileSync sdk filePath) as [m|content] eqn:Hread.
  { cbn. rewrite !elem_of_cons, elem_of_nil. intros [H|[H|[]]]; discriminate H. }
  cbn zeta.
  destruct (Uploads.s3_upload sdk _) as [m|r]; cbn [snd app];
    rewrite !elem_of_cons, elem_of_nil.
  - intros [H|[H|[H|[]]]]; try discriminate H. injection H as ->.
    cbn. repeat split; assumption.
  - intros [H|[H|[]]]; try discriminate H. injection H as ->.
    cbn. repeat split; assumption.
Qed.

(** X18: with S3 configured, an [options.bucket] that is given but falsy
    (the empty string or zero) is not replaced by the bucket of the
    environment: [uploadFile] fails with ['AWS S3 not configured'], reads no
    file and asks no provider. *)
Theorem uploadFile_blank_bucket (filePath key : string) (options : gmap string Uploads.value)
    (b : Uploads.value) (t : list Uploads.effect) :
  Storage.s3Configured env = true ->
  options !! "bucket" = Some b -> Uploads.truthy (Some b) = false ->
  Uploads.uploadFile env sdk filePath key options t
  = (Eff.Ok (Uploads.failed "AWS S3 not configured"),
     t ++ [Uploads.ConsoleError "S3 upload error:" "AWS S3 not configured"]).
Proof.
  intros Hs3 Hb Hf. unfold Uploads.uploadFile. rewrite Hs3, uploadToS3_run, Hb.
  cbn [Uploads.bucketOrDefault]. rewrite Hf. cbn [negb]. now rewrite orb_true_r.
Qed.

(** X19: when only Cloudinary is configured, [uploadFile] first sends the
    local path with the caller's options laid over the defaults: every
    option given is sent as given (also [public_id], which then replaces
    the key), and [public_id], [resource_type] and [chunk_size] default to
    the key, ['video'] and 20000000; no other option is sent. *)
Theorem uploadFile_cloudinary_options (filePath key : string)
    (options : gmap string Uploads.value) (t : list Uploads.effect) :
  Storage.s3Configured env = false -> Storage.cloudinaryConfigured env = true ->
  exists opts rest,
    snd (Uploads.uploadFile env sdk filePath key options t)
    = t ++ Uploads.CloudinaryUpload filePath opts :: rest
    /\ (forall k v, options !! k = Some v -> opts !! k = Some v)
    /\ (options !! "public_id" = None -> opts !! "public_id" = Some (Uploads.Str key))
    /\ (options !! "resource_type" = None ->
        opts !! "resource_type" = Some (Uploads.Str "video"))
    /\ (options !! "chunk_size" = None -> opts !! "chunk_size" = Some (Uploads.Num 20000000))
    /\ (forall k, opts !! k = None <->
                  options !! k = None
                  /\ k <> "public_id" /\ k <> "resource_type" /\ k <> "chunk_size").
Proof.
  intros Hs3 Hc. unfold Uploads.uploadFile. rewrite Hs3, Hc, uploadToCloudinary_run.
  unfold Storage.cloudinaryConfigured in Hc. rewrite Hc. cbn [negb]. cbn zeta.
  exists (Uploads.defaultOptions key options).
  destruct (Uploads.cloudinary_upload sdk _ _) as [m|r]; eexists; (split; [reflexivity |]).
  all: unfold Uploads.defaultOptions.
  all: split; [intros k v Hk; now apply lookup_union_Some_l |].
  all: split; [intros H; rewrite lookup_union_r by exact H; reflexivity |].
  all: split; [intros H; rewrite lookup_union_r by exact H; reflexivity |].
  all: split; [intros H; rewrite lookup_union_r by exact H; reflexivity |].
  all: intros k; rewrite lookup_union_None; split.
  all: try (intros [Ho Hd]; split; [exact Ho |];
            repeat split; intros ->; discriminate Hd).
  all: intros (Ho & H1 & H2 & H3); split; [exact Ho |];
    rewrite !lookup_insert_ne by congruence; apply lookup_empty.
Qed.

Lemma streamingEntry_quality (videoId : string) (f : Format.t) :
  Uploads.streamingEntry env sdk videoId f
  = streamFor env sdk videoId (Uploads.interpolate (Format.quality f)).
Proof. reflexivity. Qed.

Lemma streaming_fold (videoId q : string) (formats : list Format.t)
    (acc : gmap string Uploads.StreamingUrl) :
  fold_left
    (fun streamingUrls f =>
       match Uploads.streamingEntry env sdk videoId f with
       | Some entry =>
           Uploads.assignOwn (Uploads.interpolate (Format.quality f)) entry streamingUrls
       | None => streamingUrls
       end) formats acc !! q
  = if decide (q ∈ qualities formats /\ q <> "__proto__")
    then match streamFor env sdk videoId q with
         | Some entry => Some entry
         | None => acc !! q
         end
    else acc !! q.
Proof.
  revert acc. induction formats as [|f formats IH]; intros acc.
  { cbn. case_decide as H; [| reflexivity]. destruct H as [H _].
    now apply elem_of_nil in H. }
  cbn [fold_left]. rewrite IH. clear IH. rewrite streamingEntry_quality.
  set (k := Uploads.interpolate (Format.quality f)).
  change (qualities (f :: formats)) with (k :: qualities formats).
  destruct (decide (q = k)) as [->|Hne].
  - destruct (decide (k = "__proto__")) as [Hp|Hp].
    + rewrite !decide_False by tauto.
      destruct (streamFor env sdk videoId k); [| reflexivity].
      unfold Uploads.assignOwn. now rewrite Hp.
    + rewrite (decide_True (P := k ∈ k :: _ /\ _)) by (split; [apply list_elem_of_here | exact Hp]).
      destruct (streamFor env sdk videoId k) as [e|] eqn:He.
      * case_decide; [reflexivity |].
        unfold Uploads.assignOwn. apply String.eqb_neq in Hp. rewrite Hp.
        apply lookup_insert_eq.
      * case_decide; reflexivity.
  - assert (Hacc : match streamFor env sdk videoId k with
                   | Some entry => Uploads.assignOwn k entry acc
                   | None => acc
                   end !! q = acc !! q).
    { destruct (streamFor env sdk videoId k); [| reflexivity].
      unfold Uploads.assignOwn. destruct (String.eqb k "__proto__"); [reflexivity |].
      apply lookup_insert_ne. congruence. }
    rewrite Hacc.
    destruct (decide (q ∈ qualities formats /\ q <> "__proto__")) as [[Hin Hp]|Hn].
    + rewrite decide_True by (split; [now apply list_elem_of_further | exact Hp]).
      reflexivity.
    + rewrite decide_False; [reflexivity |].
      intros [Hin Hp]. apply Hn. split; [| exact Hp].
      apply elem_of_cons in Hin as [Hin|Hin]; [contradiction | exact Hin].
Qed.

(** X20: [generateStreamingUrls] has an entry for exactly the qualities of
    the given formats (but never for ['__proto__']), and the entry is built
    from the video id and the quality alone; without a provider the result
    is empty, and with S3 every entry is the bucket's [.mp4] URL with the
    HLS type. *)
Theorem streaming_urls_lookup (videoId : string) (formats : list Format.t) :
  (forall q,
      Uploads.generateStreamingUrls env sdk videoId formats !! q
      = if decide (q ∈ qualities formats /\ q <> "__proto__")
        then streamFor env sdk videoId q else None)
  /\ (Storage.s3Configured env = false -> Storage.cloudinaryConfigured env = false ->
      Uploads.generateStreamingUrls env sdk videoId formats = ∅)
  /\ (forall q e, Uploads.generateStreamingUrls env sdk videoId formats !! q = Some e ->
        Storage.s3Configured env = true ->
        Uploads.stype e = "application/x-mpegURL"
        /\ Uploads.surl e
           = "https://" +:+ Uploads.interpolate (Storage.S3_BUCKET env)
             +:+ ".s3.amazonaws.com/videos/" +:+ videoId +:+ "_" +:+ q +:+ ".mp4").
Proof.
  assert (Hlook : forall q,
      Uploads.generateStreamingUrls env sdk videoId formats !! q
      = if decide (q ∈ qualities formats /\ q <> "__proto__")
        then streamFor env sdk videoId q else None).
  { intros q. unfold Uploads.generateStreamingUrls. rewrite streaming_fold.
    rewrite lookup_empty. case_decide; [| reflexivity].
    now destruct (streamFor env sdk videoId q). }
  split; [exact Hlook |]. split.
  - intros Hs3 Hc. apply map_eq. intros q. rewrite Hlook, lookup_empty.
    case_decide; [| reflexivity].
    unfold streamFor, Uploads.streamingEntry. now rewrite Hs3, Hc.
  - intros q e He Hs3. rewrite Hlook in He. case_decide; [| discriminate].
    unfold streamFor, Uploads.streamingEntry in He. rewrite Hs3 in He.
    cbn in He. injection He as <-. split; reflexivity.
Qed.

(** X21: two lists of formats with the same qualities give the same
    streaming URLs: the order of the formats, repeated qualities and the
    stored URLs, sizes and bit rates play no part. *)
Theorem streaming_urls_by_quality (videoId : string) (f1 f2 : list Format.t) :
  (forall q, q ∈ qualities f1 <-> q ∈ qualities f2) ->
  Uploads.generateStreamingUrls env sdk videoId f1
  = Uploads.generateStreamingUrls env sdk videoId f2.
Proof.
  intros Hq. apply map_eq. intros q. unfold Uploads.generateStreamingUrls.
  rewrite !streaming_fold.
  destruct (decide (q ∈ qualities f1 /\ q <> "__proto__")) as [[H1 Hp]|Hn].
  - rewrite decide_True by (split; [now apply Hq | exact Hp]). reflexivity.
  - rewrite decide_False; [reflexivity |].
    intros [H2 Hp]. apply Hn. split; [now apply Hq | exact Hp].
Qed.

End Providers.

(** A use of X17: an upload to the bucket [archive] while the environment
    names the bucket [media]. *)
Lemma s3_request_public_and_typed_witness :
  let params := Uploads.mkParams (Some (Uploads.Str "archive")) "videos/clip.mp4"
                  "bytes of uploads/clip.MP4" "video/mp4" "public-read" in
  Uploads.ACL params = "public-read"
  /\ Uploads.ContentType params = Storage.getContentType "uploads/clip.MP4"
  /\ Uploads.Key params = "videos/clip.mp4"
  /\ Uploads.Bucket params = Some (Uploads.Str "archive")
  /\ Uploads.truthy (Uploads.Bucket params) = true
  /\ Js.truthy (Storage.AWS_ACCESS_KEY_ID bothEnv) = true
  /\ Uploads.readFileSync okSdk "uploads/clip.MP4" = inr (Uploads.Body params).
Proof.
  refine (s3_request_public_and_typed bothEnv okSdk "uploads/clip.MP4" "videos/clip.mp4"
            (Some (Uploads.Str "archive")) _ _).
  vm_compute. apply list_elem_of_further, list_elem_of_here.
Defined.

Lemma uploadFile_blank_bucket_witness :
  Uploads.uploadFile bothEnv okSdk "uploads/clip.mp4" "videos/clip.mp4"
    {["bucket" := Uploads.Str ""]} []
  = (Eff.Ok (Uploads.failed "AWS S3 not configured"),
     [] ++ [Uploads.ConsoleError "S3 upload error:" "AWS S3 not configured"]).
Proof.
  refine (uploadFile_blank_bucket bothEnv okSdk _ _ _ (Uploads.Str "") [] _ _ _);
    reflexivity.
Defined.

Lemma uploadFile_cloudinary_options_witness :
  exists opts rest,
    snd (Uploads.uploadFile cloudEnv okSdk "uploads/clip.mp4" "clip"
           {["public_id" := Uploads.Str "custom"]} [])
    = [] ++ Uploads.CloudinaryUpload "uploads/clip.mp4" opts :: rest
    /\ opts !! "public_id" = Some (Uploads.Str "custom")
    /\ opts !! "resource_type" = Some (Uploads.Str "video").
Proof.
  destruct (uploadFile_cloudinary_options cloudEnv okSdk "uploads/clip.mp4" "clip"
              {["public_id" := Uploads.Str "custom"]} [] eq_refl eq_refl)
    as (opts & rest & Hrun & Hgiven & _ & Htype & _).
  exists opts, rest. split; [exact Hrun |]. split.
  - apply Hgiven. reflexivity.
  - apply Htype. reflexivity.
Defined.

Lemma streaming_urls_lookup_witness :
  Uploads.generateStreamingUrls bothEnv okSdk "v1" readyFormats !! "720p"
  = Some (Uploads.mkStreamingUrl "https://media.s3.amazonaws.com/videos/v1_720p.mp4"
            "application/x-mpegURL").
Proof.
  rewrite (proj1 (streaming_urls_lookup bothEnv okSdk "v1" readyFormats) "720p").
  reflexivity.
Defined.

Lemma streaming_urls_by_quality_witness :
  Uploads.generateStreamingUrls cloudEnv okSdk "v1" readyFormats
  = Uploads.generateStreamingUrls cloudEnv okSdk "v1" (rev readyFormats).
Proof.
  refine (streaming_urls_by_quality cloudEnv okSdk "v1" readyFormats (rev readyFormats) _).
  intros q. change (q ∈ ["480p"; "720p"] <-> q ∈ ["720p"; "480p"]).
  rewrite !elem_of_cons, !elem_of_nil. tauto.
Defined.

(** ** Extensions, stored names and rejected uploads *)

Section Names.

Lemma loop_leading_dot (re rest : list ascii) :
  Forall plain re -> (rest = [] \/ exists r, rest = Path.slash :: r) ->
  Path.preDotState (Path.extname_loop (re ++ Path.dot :: rest) Path.scan0) = 0.
Proof.
  intros Hre Hrest.
  assert (Htail : forall e, Path.preDotState
            (Path.extname_loop rest (Path.mkScan (Z.of_nat (length rest)) 0 e false 0)) = 0).
  { intros e. destruct Hrest as [-> | [r ->]]; [reflexivity |].
    cbn [Path.extname_loop]. rewrite Ascii.eqb_refl. reflexivity. }
  destruct Hre as [|c re Hc Hre].
  - cbn [app Path.extname_loop]. 
    replace (Ascii.eqb Path.dot Path.slash) with false by reflexivity.
    unfold Path.visit, Path.scan0. cbn. apply Htail.
  - cbn [app Path.extname_loop].
    destruct Hc as [Hd Hs].
    destruct (Ascii.eqb_spec c Path.slash); [contradiction |].
    rewrite visit_first by (split; assumption).
    rewrite loop_plain; [| exact Hre | lia].
    cbn [Path.extname_loop].
    replace (Ascii.eqb Path.dot Path.slash) with false by reflexivity.
    set (e := Z.of_nat (length (re ++ Path.dot :: rest)) + 1).
    assert (He : (e =? -1) = false) by (apply Z.eqb_neq; unfold e; lia).
    unfold Path.visit. cbn. rewrite He. cbn. apply Htail.
Qed.

(** A name that starts with its only dot has no extension. *)
Lemma leading_dot_extname (dir name : string) :
  (dir = "" \/ exists d, dir = d +:+ "/") ->
  Forall plain (list_ascii_of_string name) ->
  Path.extname (dir +:+ "." +:+ name) = "".
Proof.
  intros Hdir Hname. unfold Path.extname. cbn zeta.
  assert (Hrev : rev (list_ascii_of_string (dir +:+ "." +:+ name))
                 = rev (list_ascii_of_string name)
                   ++ Path.dot :: rev (list_ascii_of_string dir)).
  { rewrite chars_app. change ("." +:+ name) with (String Path.dot name).
    cbn [list_ascii_of_string]. rewrite rev_app_distr. cbn [rev].
    now rewrite <- app_assoc. }
  rewrite Hrev, loop_leading_dot.
  - cbn. now rewrite !orb_true_r.
  - now apply Forall_rev.
  - destruct Hdir as [-> | [d ->]]; [now left | right].
    rewrite chars_app. cbn [list_ascii_of_string]. rewrite rev_app_distr. cbn.
    eauto.
Qed.

(** X22: a file whose name starts with its only dot (a hidden file such as
    [.mp4] or [uploads/.mov]) has no extension for [path.extname], so
    [getContentType] gives it ['application/octet-stream'] whatever follows
    the dot. *)
Theorem hidden_file_has_no_type (dir name : string) :
  (dir = "" \/ exists d, dir = d +:+ "/") ->
  Forall plain (list_ascii_of_string name) ->
  Path.extname (dir +:+ "." +:+ name) = ""
  /\ Storage.getContentType (dir +:+ "." +:+ name) = "application/octet-stream".
Proof.
  intros Hdir Hname.
  pose proof (leading_dot_extname dir name Hdir Hname) as Hext.
  split; [exact Hext |].
  rewrite getContentType_lookup, Hext. reflexivity.
Qed.

Lemma hidden_file_has_no_type_witness :
  Path.extname ("uploads/" +:+ "." +:+ "mp4") = ""
  /\ Storage.getContentType ("uploads/" +:+ "." +:+ "mp4") = "application/octet-stream".
Proof.
  apply (hidden_file_has_no_type "uploads/" "mp4").
  - right. now exists "uploads".
  - repeat constructor; discriminate.
Defined.

Lemma loop_stable (rs : list ascii) (s : Path.scan) :
  Path.startDot s <> -1 -> Path.end_ s <> -1 ->
  Path.startDot (Path.extname_loop rs s) = Path.startDot s
  /\ Path.end_ (Path.extname_loop rs s) = Path.end_ s.
Proof.
  revert s. induction rs as [|c rs IH]; intros s Hd He; [now split |].
  cbn [Path.extname_loop].
  destruct (Ascii.eqb c Path.slash).
  - destruct (negb (Path.matchedSlash s)); [now split | now apply IH].
  - cbn zeta.
    assert (Hv : Path.startDot (Path.visit (Z.of_nat (length rs)) c s) = Path.startDot s
                 /\ Path.end_ (Path.visit (Z.of_nat (length rs)) c s) = Path.end_ s).
    { unfold Path.visit. apply Z.eqb_neq in Hd, He. rewrite He. cbn zeta.
      rewrite Hd. cbn [negb].
      destruct (Ascii.eqb c Path.dot); [| now split].
      destruct (negb (Path.preDotState s =? 1)); now split. }
    destruct Hv as [Hvd Hve].
    destruct (IH (Path.visit (Z.of_nat (length rs)) c s)) as [H1 H2]; [congruence.. |].
    split; congruence.
Qed.

Lemma plain_dec (c : ascii) : c = Path.slash \/ c = Path.dot \/ plain c.
Proof.
  destruct (Ascii.eqb_spec c Path.slash); [now left |].
  destruct (Ascii.eqb_spec c Path.dot); [now right; left |].
  right; right. now split.
Qed.

Lemma loop_after_plain (rs : list ascii) (e : Z) :
  e <> -1 ->
  let s' := Path.extname_loop rs (Path.mkScan (-1) 0 e false 0) in
  Path.startDot s' = -1
  \/ exists pl pre, rs = pl ++ Path.dot :: pre /\ Forall plain pl
       /\ Path.startDot s' = Z.of_nat (length pre) /\ Path.end_ s' = e.
Proof.
  intros He. cbn zeta. induction rs as [|c rs IH]; [now left |].
  destruct (plain_dec c) as [-> | [-> | Hc]].
  - left. reflexivity.
  - right. exists [], rs. split; [reflexivity |]. split; [constructor |].
    cbn [Path.extname_loop].
    replace (Ascii.eqb Path.dot Path.slash) with false by reflexivity. cbn zeta.
    assert (Hv : Path.visit (Z.of_nat (length rs)) Path.dot (Path.mkScan (-1) 0 e false 0)
                 = Path.mkScan (Z.of_nat (length rs)) 0 e false 0).
    { unfold Path.visit. cbn. apply Z.eqb_neq in He. now rewrite He. }
    rewrite Hv.
    destruct (loop_stable rs (Path.mkScan (Z.of_nat (length rs)) 0 e false 0)) as [H1 H2];
      cbn; [lia | exact He | now split].
  - assert (Hstep : Path.extname_loop (c :: rs) (Path.mkScan (-1) 0 e false 0)
                    = Path.extname_loop rs (Path.mkScan (-1) 0 e false 0))
      by (apply (loop_plain [c] rs e); [now constructor | exact He]).
    rewrite Hstep.
    destruct IH as [IH | (pl & pre & -> & Hpl & Hd & Hend)]; [now left | right].
    exists (c :: pl), pre. repeat split; [now constructor | exact Hd | exact Hend].
Qed.

Lemma loop_from_start (rs : list ascii) :
  let s' := Path.extname_loop rs Path.scan0 in
  Path.startDot s' = -1
  \/ exists sl ext pre, rs = sl ++ ext ++ Path.dot :: pre /\ Forall plain ext
       /\ Path.startDot s' = Z.of_nat (length pre)
       /\ Path.end_ s' = Z.of_nat (length pre) + 1 + Z.of_nat (length ext).
Proof.
  cbn zeta. induction rs as [|c rs IH]; [now left |].
  destruct (plain_dec c) as [-> | [-> | Hc]].
  - cbn [Path.extname_loop]. rewrite Ascii.eqb_refl. cbn.
    destruct IH as [IH | (sl & ext & pre & -> & Hext & Hd & Hend)]; [now left | right].
    exists (Path.slash :: sl), ext, pre. now repeat split.
  - right. exists [], [], rs. split; [reflexivity |]. split; [constructor |].
    cbn [Path.extname_loop].
    replace (Ascii.eqb Path.dot Path.slash) with false by reflexivity. cbn zeta.
    assert (Hv : Path.visit (Z.of_nat (length rs)) Path.dot Path.scan0
                 = Path.mkScan (Z.of_nat (length rs)) 0 (Z.of_nat (length rs) + 1) false 0)
      by reflexivity.
    rewrite Hv.
    destruct (loop_stable rs
                (Path.mkScan (Z.of_nat (length rs)) 0 (Z.of_nat (length rs) + 1) false 0))
      as [H1 H2]; cbn; [lia | lia |].
    cbn in H1, H2. split; [exact H1 | rewrite H2; cbn; lia].
  - cbn [Path.extname_loop]. destruct Hc as [Hcd Hcs].
    destruct (Ascii.eqb_spec c Path.slash); [contradiction |]. cbn zeta.
    rewrite visit_first by now split.
    destruct (loop_after_plain rs (Z.of_nat (length rs) + 1))
      as [H | (pl & pre & -> & Hpl & Hd & Hend)]; [lia | now left | right].
    exists [], (c :: pl), pre. split; [reflexivity |].
    split; [constructor; [now split | exact Hpl] |].
    split; [exact Hd |]. rewrite Hend, length_app. cbn [length]. lia.
Qed.

Lemma substring_middle (a b c : list ascii) :
  String.substring (length a) (length b) (string_of_list_ascii (a ++ b ++ c))
  = string_of_list_ascii b.
Proof.
  induction a as [|x a IH]; [| exact IH]. cbn [app length].
  revert c. induction b as [|y b IH]; intros c.
  - cbn. now destruct (string_of_list_ascii c).
  - cbn. now rewrite IH.
Qed.

(** What [extname] returns: nothing, or a dot and characters of the path
    that hold no dot and no slash. *)
Lemma extname_shape (p : string) :
  Path.extname p = ""
  \/ exists pre ext post,
       list_ascii_of_string p = pre ++ Path.dot :: ext ++ post
       /\ Forall plain ext
       /\ Path.extname p = String Path.dot (string_of_list_ascii ext).
Proof.
  unfold Path.extname. cbn zeta.
  destruct (loop_from_start (rev (list_ascii_of_string p)))
    as [Hd | (sl & ext & pre & Hrev & Hext & Hd & Hend)].
  { left. cbn zeta in Hd. rewrite Hd. reflexivity. }
  cbn zeta in Hd, Hend.
  match goal with
  | |- (if ?b then _ else _) = _ \/ _ => destruct b; [now left | right]
  end.
  exists (rev pre), (rev ext), (rev sl).
  assert (Hp : list_ascii_of_string p = rev pre ++ Path.dot :: rev ext ++ rev sl).
  { rewrite <- (rev_involutive (list_ascii_of_string p)), Hrev.
    rewrite !rev_app_distr. cbn [rev]. rewrite <- !app_assoc. reflexivity. }
  split; [exact Hp |]. split; [now apply Forall_rev |].
  rewrite Hd, Hend. unfold Js.slice.
  rewrite <- (string_of_list_ascii_of_string p) at 1. rewrite Hp.
  replace (Z.to_nat (Z.of_nat (length pre))) with (length (rev pre))
    by (rewrite length_rev; lia).
  replace (Z.to_nat (Z.of_nat (length pre) + 1 + Z.of_nat (length ext) - Z.of_nat (length pre)))
    with (length (Path.dot :: rev ext)) by (cbn [length]; rewrite length_rev; lia).
  change (rev pre ++ Path.dot :: rev ext ++ rev sl)
    with (rev pre ++ (Path.dot :: rev ext) ++ rev sl).
  rewrite substring_middle. reflexivity.
Qed.

(** X23: the extension of an extension is empty: [path.extname] applied to
    its own result gives [''], so [getContentType] applied to an extension
    instead of a path always answers ['application/octet-stream']. *)
Theorem extname_of_extname (p : string) :
  Path.extname (Path.extname p) = ""
  /\ Storage.getContentType (Path.extname p) = "application/octet-stream".
Proof.
  destruct (extname_shape p) as [-> | (pre & ext & post & _ & Hext & ->)].
  { split; reflexivity. }
  assert (Hnone : Path.extname (String Path.dot (string_of_list_ascii ext)) = "").
  { apply (leading_dot_extname "" (string_of_list_ascii ext)); [now left |].
    now rewrite list_ascii_of_string_of_list_ascii. }
  split; [exact Hnone |].
  rewrite getContentType_lookup, Hnone. reflexivity.
Qed.

Lemma pretty_N_char_digit (x : N) : digit (pretty_N_char x).
Proof.
  unfold digit, pretty_N_char.
  repeat (match goal with |- context [match ?x with _ => _ end] => destruct x end; cbn; try tauto).
Qed.

Lemma append_assoc (a b c : string) : (a +:+ b) +:+ c = a +:+ (b +:+ c).
Proof.
  induction a as [|x a IH]; [reflexivity |].
  change (String x ((a +:+ b) +:+ c) = String x (a +:+ (b +:+ c))). now rewrite IH.
Qed.

Lemma append_nil (a : string) : a +:+ "" = a.
Proof.
  induction a as [|x a IH]; [reflexivity |].
  change (String x (a +:+ "") = String x a). now rewrite IH.
Qed.

Lemma pretty_N_go_digits (x : N) (s : string) :
  exists p, pretty_N_go x s = p +:+ s /\ Forall digit (list_ascii_of_string p)
            /\ ((0 < x)%N -> p <> "").
Proof.
  revert s. induction (N.lt_wf_0 x) as [x _ IH]; intros s.
  destruct (decide (0 < x)%N) as [Hx|Hx].
  - rewrite pretty_N_go_step by exact Hx.
    destruct (IH (x `div` 10)%N) with (s := String (pretty_N_char (x `mod` 10)%N) s)
      as (p & Hgo & Hp & _).
    { apply N.div_lt; lia. }
    rewrite Hgo.
    exists (p +:+ String (pretty_N_char (x `mod` 10)%N) "").
    split; [| split].
    + now rewrite append_assoc.
    + rewrite chars_app. apply Forall_app. split; [exact Hp |].
      constructor; [apply pretty_N_char_digit | constructor].
    + intros _. now destruct p.
  - assert (x = 0%N) as -> by lia. rewrite pretty_N_go_0. exists "".
    split; [reflexivity |]. split; [constructor | lia].
Qed.

Lemma pretty_N_digits (x : N) :
  pretty x <> "" /\ Forall digit (list_ascii_of_string (pretty x)).
Proof.
  unfold pretty, pretty_N. case_decide as Hx.
  - split; [discriminate |]. repeat constructor.
  - destruct (pretty_N_go_digits x "") as (p & -> & Hp & Hne).
    rewrite append_nil. split; [apply Hne; lia | exact Hp].
Qed.

Lemma digit_plain (c : ascii) : digit c -> plain c.
Proof.
  unfold digit. cbn. intros H.
  repeat (destruct H as [<- | H]; [split; discriminate |]). contradiction.
Qed.

Lemma dash_plain : plain "-"%char.
Proof. split; discriminate. Qed.

Lemma loop_plain_after_dot (re : list ascii) (d e : Z) :
  Forall plain re -> d <> -1 -> e <> -1 ->
  Path.extname_loop re (Path.mkScan d 0 e false (-1)) = Path.mkScan d 0 e false (-1).
Proof.
  intros Hre Hd He. induction Hre as [|c re [Hcd Hcs] _ IH]; [reflexivity |].
  cbn [Path.extname_loop].
  destruct (Ascii.eqb_spec c Path.slash); [contradiction |]. cbn zeta.
  replace (Path.visit _ c _) with (Path.mkScan d 0 e false (-1)); [exact IH |].
  unfold Path.visit; cbn. apply Z.eqb_neq in Hd, He. rewrite He. cbn. rewrite Hd. cbn.
  destruct (Ascii.eqb_spec c Path.dot); [contradiction | reflexivity].
Qed.

Lemma extname_plain (p : string) :
  Forall plain (list_ascii_of_string p) -> Path.extname p = "".
Proof.
  intros Hp. unfold Path.extname. cbn zeta.
  apply Forall_rev in Hp. destruct Hp as [|c re Hc Hre]; [reflexivity |].
  cbn [Path.extname_loop]. destruct (Ascii.eqb_spec c Path.slash) as [->|_].
  { now destruct Hc. }
  cbn zeta. rewrite visit_first by exact Hc.
  rewrite <- (app_nil_r re), loop_plain by (first [exact Hre | lia]).
  reflexivity.
Qed.

Lemma extname_plain_dot (stem : string) :
  stem <> "" -> Forall plain (list_ascii_of_string stem) ->
  Path.extname (stem +:+ ".") = ".".
Proof.
  intros Hne Hp. unfold Path.extname. cbn zeta.
  rewrite chars_app. cbn [list_ascii_of_string]. rewrite rev_app_distr. cbn [rev app].
  assert (Hlen : length (rev (list_ascii_of_string stem)) = String.length stem)
    by now rewrite length_rev, chars_length.
  apply Forall_rev in Hp.
  destruct (rev (list_ascii_of_string stem)) as [|c re] eqn:Hrev.
  { destruct stem; [contradiction | discriminate Hlen]. }
  inversion Hp as [|? ? [Hcd Hcs] Hre]; subst.
  cbn [Path.extname_loop].
  replace (Ascii.eqb "."%char Path.slash) with false by reflexivity. cbn zeta.
  set (n := Z.of_nat (length (c :: re))).
  assert (Hv : Path.visit n "."%char Path.scan0 = Path.mkScan n 0 (n + 1) false 0)
    by reflexivity.
  rewrite Hv.
  destruct (Ascii.eqb_spec c Path.slash); [contradiction |].
  assert (Hn : 0 < n) by (unfold n; cbn [length]; lia).
  assert (Hv2 : Path.visit (Z.of_nat (length re)) c (Path.mkScan n 0 (n + 1) false 0)
                = Path.mkScan n 0 (n + 1) false (-1)).
  { unfold Path.visit; cbn.
    replace (n + 1 =? -1) with false by (symmetry; apply Z.eqb_neq; lia). cbn.
    replace (n =? -1) with false by (symmetry; apply Z.eqb_neq; lia). cbn.
    destruct (Ascii.eqb_spec c Path.dot); [contradiction | reflexivity]. }
  rewrite Hv2, loop_plain_after_dot by (first [exact Hre | lia]).
  cbn [Path.startDot Path.end_ Path.preDotState Path.startPart].
  replace (n =? -1) with false by (symmetry; apply Z.eqb_neq; lia).
  replace (n + 1 =? -1) with false by (symmetry; apply Z.eqb_neq; lia).
  cbn [orb andb Z.eqb]. unfold Js.slice.
  replace (Z.to_nat n) with (String.length stem) by (unfold n; lia).
  replace (Z.to_nat (n + 1 - n)) with (String.length ".") by (cbn; lia).
  apply substring_suffix.
Qed.

Lemma stem_plain (now random : N) (field : string) :
  Forall plain (list_ascii_of_string field) ->
  let stem := field +:+ "-" +:+ pretty now +:+ "-" +:+ pretty random in
  Forall plain (list_ascii_of_string stem) /\ stem <> "".
Proof.
  intros Hf. cbn zeta. split.
  - rewrite !chars_app. rewrite !Forall_app. repeat split.
    + exact Hf.
    + constructor; [exact dash_plain | constructor].
    + eapply Forall_impl; [apply pretty_N_digits | exact digit_plain].
    + constructor; [exact dash_plain | constructor].
    + eapply Forall_impl; [apply pretty_N_digits | exact digit_plain].
  - intros H. apply (f_equal String.length) in H.
    rewrite <- !chars_length, !chars_app, !length_app in H. cbn in H. lia.
Qed.

(** X24: the name multer stores an upload under has the extension of the
    original file name, so both names get the same content type, when the
    field name holds no dot and no slash (it is ['video'] in this
    server). *)
Theorem stored_name_keeps_extension (now random : N) (file : Multer.File) :
  Forall plain (list_ascii_of_string (Multer.fieldname file)) ->
  Path.extname (Multer.filename now random file) = Path.extname (Multer.originalname file)
  /\ Storage.getContentType (Multer.filename now random file)
     = Storage.getContentType (Multer.originalname file).
Proof.
  intros Hf.
  assert (Hext : Path.extname (Multer.filename now random file)
                 = Path.extname (Multer.originalname file)).
  { unfold Multer.filename. cbn zeta.
    destruct (stem_plain now random (Multer.fieldname file) Hf) as [Hplain Hne].
    cbn zeta in Hplain, Hne.
    set (stem := Multer.fieldname file +:+ "-" +:+ pretty now +:+ "-" +:+ pretty random)
      in Hplain, Hne.
    assert (Hname : forall ext,
               Multer.fieldname file +:+ "-" +:+ (pretty now +:+ "-" +:+ pretty random) +:+ ext
               = stem +:+ ext).
    { intros ext. unfold stem. now rewrite !append_assoc. }
    rewrite Hname.
    destruct (extname_shape (Multer.originalname file))
      as [-> | (pre & ext & post & _ & Hx & ->)].
    { rewrite append_nil. now apply extname_plain. }
    destruct ext as [|x ext].
    { now apply extname_plain_dot. }
    destruct (exists_last (l := list_ascii_of_string stem)) as (front & last & Hstem).
    { intros Hnil. apply Hne. rewrite <- (string_of_list_ascii_of_string stem), Hnil.
      reflexivity. }
    assert (Hlast : plain last).
    { rewrite Hstem in Hplain. apply Forall_app in Hplain as [_ Hl].
      now inversion Hl. }
    apply (extname_stem_ext stem (string_of_list_ascii (x :: ext)) last front).
    - exact Hstem.
    - apply Hlast.
    - discriminate.
    - now rewrite list_ascii_of_string_of_list_ascii. }
  split; [exact Hext |]. now rewrite !getContentType_lookup, Hext.
Qed.

Lemma stored_name_keeps_extension_witness :
  let file := Multer.mkFile "video" "Holiday.Clip.MOV" "video/quicktime" in
  Path.extname (Multer.filename 1700000000000 123456789 file)
  = Path.extname (Multer.originalname file)
  /\ Storage.getContentType (Multer.filename 1700000000000 123456789 file)
     = Storage.getContentType (Multer.originalname file).
Proof.
  refine (stored_name_keeps_extension 1700000000000 123456789 _ _).
  repeat constructor; discriminate.
Defined.

(** X25: an upload whose MIME type is not one of the five allowed types is
    refused by [fileFilter], and the error handler answers it with 500
    ['Internal server error'] after logging it, without touching the
    collection or the disk; the handler answers 400 only to a multer error
    with the code [LIMIT_FILE_SIZE]. *)
Theorem rejected_type_is_server_error (file : Multer.File) (w : Server.world) :
  Multer.mimetype file ∉ Multer.allowedTypes ->
  Multer.filtered file w
  = (Eff.Ok (Some (Server.ResError 500 "Internal server error")),
     logged (Server.ConsoleError "Unhandled error:"
               "Invalid file type. Only video files are allowed.") w)
  /\ forall e r w', Multer.errorMiddleware e w = (Eff.Ok r, w') ->
        (r = Server.ResError 400 "File too large. Maximum size is 2GB." /\ w' = w
         /\ exists m, e = Multer.MulterError "LIMIT_FILE_SIZE" m)
        \/ (r = Server.ResError 500 "Internal server error"
            /\ w' = logged (Server.ConsoleError "Unhandled error:" (Multer.message e)) w
            /\ forall m, e <> Multer.MulterError "LIMIT_FILE_SIZE" m).
Proof.
  intros Hty. split.
  - unfold Multer.filtered, Multer.fileFilter. rewrite bool_decide_eq_false_2 by exact Hty.
    reflexivity.
  - intros e r w' Hrun. unfold Multer.errorMiddleware in Hrun.
    destruct e as [code m | m].
    + destruct (String.eqb_spec code "LIMIT_FILE_SIZE") as [-> | Hne].
      * left. injection Hrun as <- <-. repeat split. now exists m.
      * right. injection Hrun as <- <-. repeat split. intros m' H.
        injection H as H _. contradiction.
    + right. injection Hrun as <- <-. repeat split. discriminate.
Qed.

Lemma rejected_type_is_server_error_witness :
  Multer.filtered (Multer.mkFile "video" "clip.mkv" "video/x-matroska") emptyWorld
  = (Eff.Ok (Some (Server.ResError 500 "Internal server error")),
     logged (Server.ConsoleError "Unhandled error:"
               "Invalid file type. Only video files are allowed.") emptyWorld).
Proof.
  refine (proj1 (rejected_type_is_server_error
                   (Multer.mkFile "video" "clip.mkv" "video/x-matroska") emptyWorld _)).
  unfold Multer.allowedTypes. cbn [Multer.mimetype].
  rewrite !elem_of_cons, elem_of_nil. intros H.
  repeat (destruct H as [H | H]; [discriminate H |]). exact H.
Defined.

End Names.
